(** * SureMark truth-seeking agent: post processing and dedup pipeline

    A shallow embedding of [src/post-processor.ts], [src/database.ts],
    [src/x-api.ts], the message templates of [src/config.ts] and the
    [tweet] and [batch] command actions of [src/index.ts], followed by the
    properties of the pipeline that the specification states.

    Conventions.  A JavaScript string is the list of its UTF-16 code
    units.  Asynchronous code is run to completion, one call after the
    other, as the single-threaded program does.  Everything outside the
    repository (the URL constructor, the HTTP client and HTML parser, the
    store driver, the posting API, the clock) is a parameter: the URL
    constructor is a function fixed for the whole development, the others
    are the fields of an environment [Env] that says how each external
    call of one run answers. *)

From Stdlib Require Import List Arith NArith ZArith Lia Bool String Ascii DecimalString.
Import ListNotations.

(* ================================================================== *)
(** * JavaScript strings and the string primitives the code uses *)
(* ================================================================== *)

Module JS.

(** A string value: UTF-16 code units, as [String.prototype.length]
    counts them. *)
Definition jsstring := list N.

(** An ASCII literal as a JavaScript string. *)
Definition js (s : string) : jsstring :=
  map N_of_ascii (list_ascii_of_string s).

Fixpoint eqb (a b : jsstring) : bool :=
  match a, b with
  | [], [] => true
  | x :: a', y :: b' => N.eqb x y && eqb a' b'
  | _, _ => false
  end.

(** The code units the code and its string methods single out. *)
Definition slash : N := 47.
Definition dollar_sign : N := 36.
Definition opening_brace : N := 123.

(** Truthiness of a string: every string but the empty one. *)
Definition truthy (s : jsstring) : bool :=
  match s with [] => false | _ => true end.

(** Truthiness of [string | undefined]. *)
Definition truthy_opt (v : option jsstring) : bool :=
  match v with Some s => truthy s | None => false end.

(** [a || b] on [string | undefined] operands. *)
Definition or (a b : option jsstring) : option jsstring :=
  if truthy_opt a then a else b.

(** [a || b] where [b] is a string: the result is a string. *)
Definition or_str (a : option jsstring) (b : jsstring) : jsstring :=
  match a with
  | Some s => if truthy s then s else b
  | None => b
  end.

(** [s.startsWith(p)]. *)
Fixpoint starts_with (p s : jsstring) : bool :=
  match p, s with
  | [], _ => true
  | _ :: _, [] => false
  | x :: p', y :: s' => N.eqb x y && starts_with p' s'
  end.

(** [s.indexOf(p)]: the position of the first occurrence of [p], [None]
    for the result -1. *)
Fixpoint indexOf (p s : jsstring) : option nat :=
  if starts_with p s then Some 0
  else match s with
       | [] => None
       | _ :: s' => option_map S (indexOf p s')
       end.

(** [s.includes(p)]. *)
Definition includes (p s : jsstring) : bool :=
  match indexOf p s with Some _ => true | None => false end.

(** [s.substring(0, n)]. *)
Definition substring0 (n : nat) (s : jsstring) : jsstring := firstn n s.

(** [s.toLowerCase()] on the ASCII range, where host names live. *)
Definition lower_unit (c : N) : N :=
  if (N.leb 65 c && N.leb c 90)%bool then (c + 32)%N else c.

Definition toLowerCase (s : jsstring) : jsstring := map lower_unit s.

(** [s.split(c)] for a one-unit separator [c]: never the empty array. *)
Fixpoint split_unit (c : N) (s : jsstring) : list jsstring :=
  match s with
  | [] => [[]]
  | x :: s' =>
      if N.eqb x c then [] :: split_unit c s'
      else match split_unit c s' with
           | h :: t => (x :: h) :: t
           | [] => [[x]]
           end
  end.

(** [s.split(sep)[0]] for a non-empty separator: the text before the
    first occurrence of [sep], the whole string when there is none. *)
Definition split_first (sep s : jsstring) : jsstring :=
  match indexOf sep s with
  | Some i => firstn i s
  | None => s
  end.

(** [arr.indexOf(x)] on an array of strings. *)
Fixpoint array_indexOf (x : jsstring) (arr : list jsstring) : option nat :=
  match arr with
  | [] => None
  | y :: arr' => if eqb y x then Some 0 else option_map S (array_indexOf x arr')
  end.

(** The abstract operation GetSubstitution of ECMA-262 for a string
    pattern (no captures, no named groups): in the replacement text
    [$$] is a dollar sign, [$&] the matched text, [$`] the text before
    the match and [$'] the text after it; [$1], [$<] and every other
    unit stand for themselves. *)
Fixpoint GetSubstitution (matched before after template : jsstring)
  : jsstring :=
  match template with
  | [] => []
  | c :: r =>
      if N.eqb c 36 then
        match r with
        | d :: r' =>
            if N.eqb d 36 then 36%N :: GetSubstitution matched before after r'
            else if N.eqb d 96 then before ++ GetSubstitution matched before after r'
            else if N.eqb d 38 then matched ++ GetSubstitution matched before after r'
            else if N.eqb d 39 then after ++ GetSubstitution matched before after r'
            else c :: GetSubstitution matched before after r
        | [] => [c]
        end
      else c :: GetSubstitution matched before after r
  end.

(** [s.replace(pat, repl)] with a string pattern: only the first
    occurrence is replaced. *)
Definition replace (s pat repl : jsstring) : jsstring :=
  match indexOf pat s with
  | None => s
  | Some pos =>
      let before := firstn pos s in
      let after := skipn (pos + List.length pat) s in
      before ++ GetSubstitution pat before after repl ++ after
  end.

(** Decimal rendering of a number inside a template literal. *)
Definition of_nat (n : nat) : jsstring :=
  js (NilEmpty.string_of_uint (Nat.to_uint n)).

(** An exception value: the fields of an [Error] the code reads. *)
Record Err := mkErr {
  err_name : jsstring;
  err_code : option N;
  err_message : jsstring
}.

(** [new Error(message)]. *)
Definition Error (message : jsstring) : Err :=
  mkErr (js "Error") None message.

(** [error.code === n]. *)
Definition has_code (e : Err) (n : N) : bool :=
  match err_code e with Some c => N.eqb c n | None => false end.

(** [`${error}`]: [Error.prototype.toString]. *)
Definition Err_toString (e : Err) : jsstring :=
  match err_name e, err_message e with
  | [], m => m
  | n, [] => n
  | n, m => n ++ js ": " ++ m
  end.

End JS.

Import JS.

(* ================================================================== *)
(** * Configuration ([src/config.ts]) *)
(* ================================================================== *)

Module Config.

(** The variables of [process.env] that the configuration reads. *)
Record ProcessEnv := mkProcessEnv {
  TWITTER_API_KEY : option jsstring;
  TWITTER_API_SECRET : option jsstring;
  TWITTER_ACCESS_TOKEN : option jsstring;
  TWITTER_ACCESS_TOKEN_SECRET : option jsstring;
  SURMARK_DASHBOARD_URL : option jsstring
}.

(** [TWITTER_CONFIG]: each value is [process.env.X || ""]. *)
Definition TWITTER_CONFIG_API_KEY (pe : ProcessEnv) : jsstring :=
  or_str (TWITTER_API_KEY pe) [].
Definition TWITTER_CONFIG_API_SECRET (pe : ProcessEnv) : jsstring :=
  or_str (TWITTER_API_SECRET pe) [].
Definition TWITTER_CONFIG_ACCESS_TOKEN (pe : ProcessEnv) : jsstring :=
  or_str (TWITTER_ACCESS_TOKEN pe) [].
Definition TWITTER_CONFIG_ACCESS_TOKEN_SECRET (pe : ProcessEnv) : jsstring :=
  or_str (TWITTER_ACCESS_TOKEN_SECRET pe) [].

(** [BOT_CONFIG.SURMARK_DASHBOARD_URL]. *)
Definition BOT_CONFIG_SURMARK_DASHBOARD_URL (pe : ProcessEnv) : jsstring :=
  or_str (SURMARK_DASHBOARD_URL pe) (js "https://suremark.com/dashboard").

(** The two placeholders of a message template. *)
Definition PH_USERNAME : jsstring := js "@{suremark_username}".
Definition PH_DASHBOARD : jsstring := js "{dashboard_url}".

Definition LF : jsstring := [10%N].

(** [MESSAGE_TEMPLATES.DEFAULT]. *)
Definition MESSAGE_TEMPLATES_DEFAULT : jsstring :=
  js "This post is verified by @{suremark_username} using SureMark Digital. "
  ++ LF
  ++ js "Check the SureMark dashboard for more recent posts: {dashboard_url}".

(** [MESSAGE_TEMPLATES.PLATFORM_SPECIFIC], in the order of the object
    literal.  The pictographs are astral code points, two code units
    each. *)
Definition PLATFORM_SPECIFIC : list (jsstring * jsstring) :=
  [ (js "twitter",
      js "This post is verified by @{suremark_username} using SureMark Digital. "
      ++ LF
      ++ js "Check the SureMark dashboard for more recent posts: {dashboard_url}");
    (js "instagram",
      [0xD83D; 0xDCF8]%N
      ++ js " This Instagram post is verified by @{suremark_username} using SureMark Digital."
      ++ LF ++ js "Check more verified content: {dashboard_url}");
    (js "youtube",
      [0xD83C; 0xDFA5]%N
      ++ js " This YouTube video is verified by @{suremark_username} using SureMark Digital."
      ++ LF ++ js "Check more verified content: {dashboard_url}");
    (js "website",
      [0xD83C; 0xDF10]%N
      ++ js " This content is verified by @{suremark_username} using SureMark Digital."
      ++ LF ++ js "Check more verified content: {dashboard_url}");
    (js "article",
      [0xD83D; 0xDCF0]%N
      ++ js " This article is verified by @{suremark_username} using SureMark Digital."
      ++ LF ++ js "Check more verified content: {dashboard_url}") ].

(** The property names every object literal inherits from
    [Object.prototype]: indexing with one of them yields a function or
    an object, not [undefined]. *)
Definition Object_prototype_keys : list jsstring :=
  map js [ "constructor"; "__defineGetter__"; "__defineSetter__";
           "hasOwnProperty"; "__lookupGetter__"; "__lookupSetter__";
           "isPrototypeOf"; "propertyIsEnumerable"; "toString";
           "valueOf"; "__proto__"; "toLocaleString" ]%string.

(** The value of [obj[key]] for an object literal of strings. *)
Inductive Property :=
| OwnString (s : jsstring)
| Inherited
| Undefined.

Fixpoint own_property (key : jsstring) (obj : list (jsstring * jsstring))
  : option jsstring :=
  match obj with
  | [] => None
  | (k, v) :: obj' => if eqb k key then Some v else own_property key obj'
  end.

Definition get_property (obj : list (jsstring * jsstring)) (key : jsstring)
  : Property :=
  match own_property key obj with
  | Some v => OwnString v
  | None => if existsb (eqb key) Object_prototype_keys then Inherited
            else Undefined
  end.

Definition PROCESSING_CONFIG_MAX_TWEET_LENGTH : nat := 280.

(** [SUPPORTED_PLATFORMS], in the order of the object literal. *)
Definition SUPPORTED_PLATFORMS : list (jsstring * jsstring) :=
  [ (js "twitter.com", js "twitter");
    (js "x.com", js "twitter");
    (js "instagram.com", js "instagram");
    (js "youtube.com", js "youtube");
    (js "youtu.be", js "youtube") ].

Definition CONTENT_CONFIG_MAX_CONTENT_LENGTH : nat := 1000.
Definition CONTENT_CONFIG_DEFAULT_TITLE_LENGTH : nat := 100.

Definition ERROR_MESSAGES_API_ERROR : jsstring :=
  js "Failed to connect to X API. Please check your credentials.".
Definition ERROR_MESSAGES_RATE_LIMIT : jsstring :=
  js "Rate limit exceeded. Please wait before trying again.".
Definition ERROR_MESSAGES_INVALID_URL : jsstring :=
  js "Invalid URL provided. Please check the format.".
Definition ERROR_MESSAGES_DUPLICATE_POST : jsstring :=
  js "This post has already been processed.".
Definition ERROR_MESSAGES_TWEET_TOO_LONG : jsstring :=
  js "Generated tweet exceeds maximum length. Please use a shorter message.".
Definition ERROR_MESSAGES_MISSING_CREDENTIALS : jsstring :=
  js "Missing required X API credentials. Please check your .env file.".

Definition SUCCESS_MESSAGES_TWEET_POSTED : jsstring :=
  js "Verification tweet posted successfully!".
Definition SUCCESS_MESSAGES_DRY_RUN : jsstring :=
  js "Dry run completed. Tweet would have been posted.".
Definition SUCCESS_MESSAGES_BATCH_COMPLETED : jsstring :=
  js "Batch processing completed successfully.".

(** A [Date]: milliseconds since the epoch. *)
Definition Date := N.

(** [PostData]. *)
Record PostData := mkPostData {
  pd_url : option jsstring;
  pd_platform : option jsstring;
  pd_title : option jsstring;
  pd_content : option jsstring;
  pd_author : option jsstring;
  pd_timestamp : option Date;
  pd_suremark_username : option jsstring
}.

(** [TweetResult]. *)
Record TweetResult := mkTweetResult {
  tr_success : bool;
  tr_tweet_id : option jsstring;
  tr_tweet_url : option jsstring;
  tr_message : option jsstring;
  tr_error : option jsstring;
  tr_retry_after : option N
}.

(** The [tweet] field of a stored post. *)
Record TweetInfo := mkTweetInfo {
  tw_id : option jsstring;
  tw_url : option jsstring;
  tw_postedAt : Date
}.

(** [ProcessedPost], which is also the shape of a stored document.
    The [metadata] field is never set on the paths embedded here and
    is left out. *)
Record ProcessedPost := mkProcessedPost {
  pp_url : jsstring;
  pp_platform : jsstring;
  pp_processedAt : Date;
  pp_suremarkUsername : option jsstring;
  pp_title : option jsstring;
  pp_content : option jsstring;
  pp_author : option jsstring;
  pp_success : option bool;
  pp_tweet : option TweetInfo
}.

End Config.

Import Config.

(* ================================================================== *)
(** * The outside world: environment, store, events *)
(* ================================================================== *)

(** What [new URL(s)] exposes to the code. *)
Record URL := mkURL {
  hostname : jsstring;
  pathname : jsstring
}.

(** What the code reads from a fetched page: one field per selector
    query.  [attr] yields [string | undefined], [text] a string. *)
Record Page := mkPage {
  og_title : option jsstring;          (* meta[property=og:title] content *)
  og_description : option jsstring;    (* meta[property=og:description] content *)
  meta_description : option jsstring;  (* meta[name=description] content *)
  meta_author : option jsstring;       (* meta[name=author] content *)
  data_author : option jsstring;       (* [data-author] attribute *)
  text_title : jsstring;               (* title *)
  text_h1 : jsstring;                  (* h1, first *)
  text_p : jsstring;                   (* p, first *)
  text_author : jsstring;              (* .author *)
  text_caption : jsstring;             (* .caption *)
  text_post_caption : jsstring;        (* [data-testid=post-caption] *)
  text_username : jsstring;            (* .username *)
  text_title_class : jsstring;         (* .title *)
  text_channel_name : jsstring;        (* .channel-name *)
  text_channel_name_testid : jsstring; (* [data-testid=channel-name] *)
  text_description : jsstring          (* .description *)
}.

(** How the external calls of one run answer. *)
Record Env := mkEnv {
  (** [new Date()]. *)
  now : Date;
  (** [axios.get(url, ...)] followed by [cheerio.load]: the page, or the
      exception of a failed fetch or parse. *)
  http_get : jsstring -> Err + Page;
  (** [client.connect()] and the four [createIndex] calls. *)
  connect_error : option Err;
  (** [collection.findOne] fails for a reason of the driver. *)
  findOne_error : option Err;
  (** [collection.insertOne] fails for a reason other than the unique
      index on [url]. *)
  insertOne_error : option Err;
  (** [client.close()]. *)
  close_error : option Err;
  (** [client.v2.tweet(params)]: the [data.id] of the reply when it has
      data, or the exception. *)
  v2_tweet : jsstring -> option jsstring -> Err + option jsstring;
  (** [client.v2.me()]: the [data.username] of the reply, or the
      exception. *)
  v2_me : Err + option jsstring
}.

(** The [PostDatabase] object and the collection behind it.
    [collection_set] says that [this.collection] is not [null]; the
    documents are those of the server, in insertion order. *)
Record Database := mkDatabase {
  collection_set : bool;
  docs : list ProcessedPost
}.

Inductive Level := LInfo | LWarn | LError.

(** What a run does to the outside, in order. *)
Inductive Event :=
| EvConnect
| EvFindOne (url : jsstring)
| EvInsertOne (doc : ProcessedPost)
| EvClose
| EvHttpGet (url : jsstring)
| EvApiMe
| EvApiTweet (text : jsstring) (in_reply_to : option jsstring)
| EvSleep (ms : N)
| EvLog (level : Level) (text : jsstring)
| EvSpinnerFail (text : jsstring)
| EvSpinnerSucceed (text : jsstring)
| EvConsoleLog (text : jsstring).

(** Where the [tweet] action ends. *)
Inductive Outcome :=
| MissingCredentials        (* fail(MISSING_CREDENTIALS); exit(1) *)
| CredentialsRejected       (* fail(API_ERROR); exit(1) *)
| AlreadyProcessed          (* fail(DUPLICATE_POST); exit(1) *)
| DryRunRecorded            (* succeed(DRY_RUN) *)
| Posted                    (* succeed(TWEET_POSTED) *)
| PostFailed                (* fail(result.error); exit(1) *)
| Errored (e : Err).        (* the catch clause: fail(Error: ...); exit(1) *)

Definition exit_code (o : Outcome) : N :=
  match o with
  | DryRunRecorded | Posted => 0
  | _ => 1
  end.

(* ================================================================== *)
(** * A monad for the code: database state, exceptions, exit, events *)
(* ================================================================== *)

(** How a computation ends: with a value, with a thrown exception, or
    with [process.exit], which no [catch] intercepts. *)
Inductive Res (A : Type) :=
| Val (a : A)
| Throw (e : Err)
| Exit (o : Outcome).

Arguments Val {A} a.
Arguments Throw {A} e.
Arguments Exit {A} o.

Definition M (A : Type) : Type := Database -> Res A * Database * list Event.

Definition ret {A} (a : A) : M A := fun db => (Val a, db, []).

Definition bind {A B} (m : M A) (k : A -> M B) : M B :=
  fun db =>
    match m db with
    | (Val a, db1, ev1) =>
        match k a db1 with
        | (r, db2, ev2) => (r, db2, ev1 ++ ev2)
        end
    | (Throw e, db1, ev1) => (Throw e, db1, ev1)
    | (Exit o, db1, ev1) => (Exit o, db1, ev1)
    end.

Definition throw {A} (e : Err) : M A := fun db => (Throw e, db, []).

Definition exit {A} (o : Outcome) : M A := fun db => (Exit o, db, []).

(** [try { m } catch (error) { h error }]. *)
Definition try_catch {A} (m : M A) (h : Err -> M A) : M A :=
  fun db =>
    match m db with
    | (Throw e, db1, ev1) =>
        match h e db1 with
        | (r, db2, ev2) => (r, db2, ev1 ++ ev2)
        end
    | other => other
    end.

Definition emit (e : Event) : M unit := fun db => (Val tt, db, [e]).

Definition get_db : M Database := fun db => (Val db, db, []).

Definition put_docs (ds : list ProcessedPost) : M unit :=
  fun db => (Val tt, mkDatabase (collection_set db) ds, []).

Definition set_collection (b : bool) : M unit :=
  fun db => (Val tt, mkDatabase b (docs db), []).

Declare Scope js_scope.
Delimit Scope js_scope with js.

Notation "x <- m ;; k" := (bind m (fun x => k))
  (at level 100, m at next level, right associativity) : js_scope.
Notation "m ;; k" := (bind m (fun _ => k))
  (at level 100, right associativity) : js_scope.

Open Scope js_scope.

(** A run after some events. *)
Definition prepend {A} (evs : list Event) (r : Res A * Database * list Event)
  : Res A * Database * list Event :=
  match r with (v, db, ev) => (v, db, evs ++ ev) end.

(** The value, the database and the events of a run. *)
Definition result {A} (r : Res A * Database * list Event) : Res A := fst (fst r).
Definition final_db {A} (r : Res A * Database * list Event) : Database := snd (fst r).
Definition events {A} (r : Res A * Database * list Event) : list Event := snd r.

Definition logger_info (text : jsstring) : M unit := emit (EvLog LInfo text).
Definition logger_warn (text : jsstring) : M unit := emit (EvLog LWarn text).
Definition logger_error (text : jsstring) : M unit := emit (EvLog LError text).
Definition spinner_fail (text : jsstring) : M unit := emit (EvSpinnerFail text).
Definition spinner_succeed (text : jsstring) : M unit := emit (EvSpinnerSucceed text).
Definition console_log (text : jsstring) : M unit := emit (EvConsoleLog text).

(** A value of type [string | undefined] inside a template literal or
    coerced to a string. *)
Definition show_opt (v : option jsstring) : jsstring :=
  match v with Some s => s | None => js "undefined" end.

(* ================================================================== *)
(** * [PostProcessor] ([src/post-processor.ts]) *)
(* ================================================================== *)

(** What an extraction strategy returns. *)
Record Extracted := mkExtracted {
  ex_title : option jsstring;
  ex_content : option jsstring;
  ex_author : option jsstring;
  ex_timestamp : option Date
}.

(** [s1 || s2] on two strings. *)
Definition sor (a b : jsstring) : jsstring := if truthy a then a else b.

(** [if (v) { field = f v }]: a field is set only from a truthy string. *)
Definition set_if_truthy (f : jsstring -> jsstring) (v : jsstring)
  : option jsstring :=
  if truthy v then Some (f v) else None.

Definition set_if_truthy_opt (v : option jsstring) : option jsstring :=
  if truthy_opt v then v else None.

Section PostProcessor.

(** The URL constructor of the runtime: [None] when it throws. *)
Variable URL_new : jsstring -> option URL.

Variable env : Env.

(** [isValidUrl]. *)
Definition isValidUrl (url : jsstring) : bool :=
  match URL_new url with Some _ => true | None => false end.

(** The loop of [detectPlatform] over [Object.entries]. *)
Fixpoint first_platform (host : jsstring)
    (entries : list (jsstring * jsstring)) : option jsstring :=
  match entries with
  | [] => None
  | (domain, platform) :: rest =>
      if includes domain host then Some platform
      else first_platform host rest
  end.

(** The tag [detectPlatform] returns for a parsed URL: the first
    matching entry, [website] when there is none. *)
Definition platform_tag (urlObj : URL) : jsstring :=
  match first_platform (toLowerCase (hostname urlObj)) SUPPORTED_PLATFORMS with
  | Some platform => platform
  | None => js "website"
  end.

(** [detectPlatform]. *)
Definition detectPlatform (url : jsstring) : M jsstring :=
  match URL_new url with
  | None => throw (mkErr (js "TypeError") None (js "Invalid URL"))
  | Some urlObj => ret (platform_tag urlObj)
  end.

(** [extractTweetId]. *)
Definition extractTweetId (url : jsstring) : option jsstring :=
  match URL_new url with
  | None => None
  | Some urlObj =>
      let pathParts := split_unit slash (pathname urlObj) in
      match array_indexOf (js "status") pathParts with
      | Some statusIndex =>
          if Nat.ltb (statusIndex + 1) (List.length pathParts) then
            let tweetId := nth (statusIndex + 1) pathParts [] in
            if truthy tweetId then Some tweetId else None
          else None
      | None => None
      end
  end.

(** [extractTwitterContent]. *)
Definition extractTwitterContent (url : jsstring) : M Extracted :=
  try_catch
    (match extractTweetId url with
     | None => throw (Error (js "Could not extract tweet ID from URL"))
     | Some tweetId =>
         if negb (truthy tweetId)
         then throw (Error (js "Could not extract tweet ID from URL"))
         else
           ret {| ex_title := Some (js "X/Twitter Post");
                  ex_content :=
                    Some (js "Post from X/Twitter (ID: " ++ tweetId ++ js ")");
                  ex_author := None;
                  ex_timestamp := Some (now env) |}
     end)
    (fun error =>
       logger_warn (js "Failed to extract Twitter content:") ;;
       ret {| ex_title := Some (js "X/Twitter Post");
              ex_content := Some (js "Verified content from X/Twitter");
              ex_author := None;
              ex_timestamp := Some (now env) |}).

(** [axios.get(url, ...)] and [cheerio.load(response.data)]. *)
Definition fetch_page (url : jsstring) : M Page :=
  emit (EvHttpGet url) ;;
  match http_get env url with
  | inl e => throw e
  | inr page => ret page
  end.

(** [extractInstagramContent]. *)
Definition extractInstagramContent (url : jsstring) : M Extracted :=
  try_catch
    (page <- fetch_page url ;;
     let content :=
       sor (or_str (og_description page) (text_caption page))
           (text_post_caption page) in
     let author :=
       or_str (option_map (split_first (js " on Instagram")) (og_title page))
              (text_username page) in
     ret {| ex_title := Some (js "Instagram Post by " ++ author);
            ex_content :=
              set_if_truthy (substring0 CONTENT_CONFIG_MAX_CONTENT_LENGTH)
                            content;
            ex_author := set_if_truthy (fun a => a) author;
            ex_timestamp := Some (now env) |})
    (fun error =>
       logger_warn (js "Failed to extract Instagram content: "
                    ++ Err_toString error) ;;
       ret {| ex_title := Some (js "Instagram Post");
              ex_content := Some (js "Content from Instagram");
              ex_author := None;
              ex_timestamp := Some (now env) |}).

(** [extractYouTubeContent]. *)
Definition extractYouTubeContent (url : jsstring) : M Extracted :=
  try_catch
    (page <- fetch_page url ;;
     let title :=
       sor (or_str (og_title page) (text_title page))
           (text_title_class page) in
     let author :=
       sor (or_str (meta_author page) (text_channel_name page))
           (text_channel_name_testid page) in
     let description :=
       or_str (og_description page) (text_description page) in
     ret {| ex_title :=
              set_if_truthy (substring0 CONTENT_CONFIG_DEFAULT_TITLE_LENGTH)
                            title;
            ex_content :=
              set_if_truthy (substring0 CONTENT_CONFIG_MAX_CONTENT_LENGTH)
                            description;
            ex_author := set_if_truthy (fun a => a) author;
            ex_timestamp := Some (now env) |})
    (fun error =>
       logger_warn (js "Failed to extract YouTube content: "
                    ++ Err_toString error) ;;
       ret {| ex_title := Some (js "YouTube Video");
              ex_content := Some (js "Content from YouTube");
              ex_author := None;
              ex_timestamp := Some (now env) |}).

(** [extractWebsiteContent]. *)
Definition extractWebsiteContent (url : jsstring) : M Extracted :=
  try_catch
    (page <- fetch_page url ;;
     let title :=
       sor (or_str (og_title page) (text_title page)) (text_h1 page) in
     let content :=
       or_str (or (og_description page) (meta_description page))
              (text_p page) in
     let author :=
       or (Some (or_str (meta_author page) (text_author page)))
          (data_author page) in
     ret {| ex_title :=
              set_if_truthy (substring0 CONTENT_CONFIG_DEFAULT_TITLE_LENGTH)
                            title;
            ex_content :=
              set_if_truthy (substring0 CONTENT_CONFIG_MAX_CONTENT_LENGTH)
                            content;
            ex_author := set_if_truthy_opt author;
            ex_timestamp := Some (now env) |})
    (fun error =>
       logger_warn (js "Failed to extract website content: "
                    ++ Err_toString error) ;;
       ret {| ex_title := Some (js "Website Content");
              ex_content := Some (js "Content from website");
              ex_author := None;
              ex_timestamp := Some (now env) |}).

(** [extractContent]: the [switch] on the platform tag. *)
Definition extractContent (url platform : jsstring) : M Extracted :=
  if eqb platform (js "twitter") then extractTwitterContent url
  else if eqb platform (js "instagram") then extractInstagramContent url
  else if eqb platform (js "youtube") then extractYouTubeContent url
  else extractWebsiteContent url.

(** [processUrl]. *)
Definition processUrl (url : jsstring) (suremarkUsername : option jsstring)
  : M PostData :=
  try_catch
    (if negb (isValidUrl url)
     then throw (Error ERROR_MESSAGES_INVALID_URL)
     else
       platform <- detectPlatform url ;;
       content <- extractContent url platform ;;
       ret {| pd_url := Some url;
              pd_platform := Some platform;
              pd_title := ex_title content;
              pd_content := ex_content content;
              pd_author := ex_author content;
              pd_timestamp := ex_timestamp content;
              pd_suremark_username := suremarkUsername |})
    (fun error =>
       logger_error (js "Error processing URL " ++ url ++ js ": "
                     ++ err_message error) ;;
       throw error).

(** [template.replace(...)] for the value found for a platform tag: a
    string has the method, a function or object inherited from
    [Object.prototype] does not. *)
Definition not_a_function : Err :=
  mkErr (js "TypeError") None (js "template.replace is not a function").

(** [generateVerificationMessage]. *)
Definition generateVerificationMessage
    (platform suremarkUsername dashboardUrl : jsstring)
    (customMessage : option jsstring) : Err + jsstring :=
  let fill (template : jsstring) :=
    replace (replace template PH_USERNAME (js "@" ++ suremarkUsername))
            PH_DASHBOARD dashboardUrl in
  if truthy_opt customMessage then
    inr (fill (match customMessage with Some m => m | None => [] end))
  else
    match get_property PLATFORM_SPECIFIC platform with
    | OwnString template => inr (fill (sor template MESSAGE_TEMPLATES_DEFAULT))
    | Inherited => inl not_a_function
    | Undefined => inr (fill MESSAGE_TEMPLATES_DEFAULT)
    end.

End PostProcessor.

(* ================================================================== *)
(** * [XAPIClient] ([src/x-api.ts]) *)
(* ================================================================== *)

Section XAPIClient.

Variable pe : ProcessEnv.
Variable env : Env.

(** [postTweet]. *)
Definition postTweet (message : jsstring) (replyTo : option jsstring)
  : M TweetResult :=
  try_catch
    (if Nat.ltb PROCESSING_CONFIG_MAX_TWEET_LENGTH (List.length message) then
       ret {| tr_success := false; tr_tweet_id := None; tr_tweet_url := None;
              tr_message := None;
              tr_error := Some ERROR_MESSAGES_TWEET_TOO_LONG;
              tr_retry_after := None |}
     else
       let reply := set_if_truthy_opt replyTo in
       emit (EvApiTweet message reply) ;;
       match v2_tweet env message reply with
       | inl e => throw e
       | inr (Some tweetId) =>
           let tweetUrl := js "https://twitter.com/user/status/" ++ tweetId in
           logger_info (js "Tweet posted successfully. ID: " ++ tweetId) ;;
           ret {| tr_success := true; tr_tweet_id := Some tweetId;
                  tr_tweet_url := Some tweetUrl;
                  tr_message := Some SUCCESS_MESSAGES_TWEET_POSTED;
                  tr_error := None; tr_retry_after := None |}
       | inr None =>
           throw (Error (js "No response data received from X API"))
       end)
    (fun error =>
       if has_code error 429 then
           logger_warn (js "Rate limit exceeded") ;;
           ret {| tr_success := false; tr_tweet_id := None;
                  tr_tweet_url := None; tr_message := None;
                  tr_error := Some ERROR_MESSAGES_RATE_LIMIT;
                  tr_retry_after := Some 900%N |}
       else
           logger_error (js "X API error details:") ;;
           ret {| tr_success := false; tr_tweet_id := None;
                  tr_tweet_url := None; tr_message := None;
                  tr_error := Some (js "X API error: " ++ err_message error);
                  tr_retry_after := None |}).

(** [verifyCredentials]. *)
Definition verifyCredentials : M bool :=
  try_catch
    (emit EvApiMe ;;
     match v2_me env with
     | inl e => throw e
     | inr (Some username) =>
         logger_info (js "Credentials verified. Bot username: @" ++ username) ;;
         ret true
     | inr None => ret false
     end)
    (fun error =>
       logger_error (js "Credential verification failed: "
                     ++ err_message error) ;;
       ret false).

(** [validateCredentials] (static). *)
Definition validateCredentials : bool :=
  forallb truthy
    [ TWITTER_CONFIG_API_KEY pe; TWITTER_CONFIG_API_SECRET pe;
      TWITTER_CONFIG_ACCESS_TOKEN pe; TWITTER_CONFIG_ACCESS_TOKEN_SECRET pe ].

End XAPIClient.

(* ================================================================== *)
(** * [PostDatabase] ([src/database.ts]) *)
(* ================================================================== *)

(** The error of the server when an insert breaks the unique index. *)
Definition duplicate_key_error : Err :=
  mkErr (js "MongoServerError") (Some 11000%N)
        (js "E11000 duplicate key error").

Definition not_initialized : Err := Error (js "Database not initialized").

(** The filter [{ url, success: { $eq: true } }]. *)
Definition matches_success (url : jsstring) (d : ProcessedPost) : bool :=
  eqb (pp_url d) url
  && match pp_success d with Some true => true | _ => false end.

(** The unique index on [url]: a document with this [url] is stored. *)
Definition url_stored (url : jsstring) (ds : list ProcessedPost) : bool :=
  existsb (fun d => eqb (pp_url d) url) ds.

Section PostDatabase.

Variable env : Env.

(** [initialize]. *)
Definition initialize : M unit :=
  try_catch
    (emit EvConnect ;;
     match connect_error env with
     | Some e => throw e
     | None =>
         set_collection true ;;
         logger_info (js "MongoDB database initialized successfully")
     end)
    (fun error =>
       logger_error (js "Database initialization failed: "
                     ++ Err_toString error) ;;
       throw error).

(** [collection.findOne({ url, success: { $eq: true } })]. *)
Definition findOne_success (url : jsstring) : M (option ProcessedPost) :=
  emit (EvFindOne url) ;;
  match findOne_error env with
  | Some e => throw e
  | None => db <- get_db ;; ret (find (matches_success url) (docs db))
  end.

(** [collection.insertOne(document)] under the unique index on [url]. *)
Definition insertOne (document : ProcessedPost) : M unit :=
  emit (EvInsertOne document) ;;
  match insertOne_error env with
  | Some e => throw e
  | None =>
      db <- get_db ;;
      if url_stored (pp_url document) (docs db)
      then throw duplicate_key_error
      else put_docs (docs db ++ [document])
  end.

(** [isPostProcessed]. *)
Definition isPostProcessed (url : jsstring) : M bool :=
  db <- get_db ;;
  if negb (collection_set db) then throw not_initialized
  else
    try_catch
      (result <- findOne_success url ;;
       ret (match result with Some _ => true | None => false end))
      (fun error =>
         logger_error (js "Error checking if post is processed: "
                       ++ Err_toString error) ;;
         ret false).

(** [saveProcessedPost]. *)
Definition saveProcessedPost (post : ProcessedPost) : M unit :=
  db <- get_db ;;
  if negb (collection_set db) then throw not_initialized
  else
    try_catch
      (let document :=
         {| pp_url := pp_url post;
            pp_platform := pp_platform post;
            pp_processedAt := pp_processedAt post;
            pp_suremarkUsername := pp_suremarkUsername post;
            pp_title := pp_title post;
            pp_content := pp_content post;
            pp_author := pp_author post;
            pp_success := pp_success post;
            pp_tweet := None |} in
       insertOne document ;;
       logger_info (js "Saved processed post: " ++ pp_url post))
      (fun error =>
         if has_code error 11000 then
           logger_warn (js "Post already exists: " ++ pp_url post)
         else
           logger_error (js "Error saving processed post: "
                         ++ Err_toString error) ;;
           throw error).

(** [saveSuccessfulPost]. *)
Definition saveSuccessfulPost (post : ProcessedPost)
    (tweetId tweetUrl : option jsstring) : M unit :=
  db <- get_db ;;
  if negb (collection_set db) then throw not_initialized
  else
    try_catch
      (let document :=
         {| pp_url := pp_url post;
            pp_platform := pp_platform post;
            pp_processedAt := pp_processedAt post;
            pp_suremarkUsername := pp_suremarkUsername post;
            pp_title := pp_title post;
            pp_content := pp_content post;
            pp_author := pp_author post;
            pp_success := Some true;
            pp_tweet := Some {| tw_id := tweetId; tw_url := tweetUrl;
                                tw_postedAt := now env |} |} in
       insertOne document ;;
       logger_info (js "Saved successful post: " ++ pp_url post))
      (fun error =>
         if has_code error 11000 then
           logger_warn (js "Post already exists: " ++ pp_url post)
         else
           logger_error (js "Error saving successful post: "
                         ++ Err_toString error) ;;
           throw error).

(** [close].  After [initialize] the client is set exactly when the
    collection is. *)
Definition close : M unit :=
  db <- get_db ;;
  if collection_set db then
    emit EvClose ;;
    match close_error env with
    | Some e => throw e
    | None =>
        set_collection false ;;
        logger_info (js "MongoDB connection closed")
    end
  else ret tt.

End PostDatabase.

(* ================================================================== *)
(** * The [tweet] and [batch] command actions ([src/index.ts]) *)
(* ================================================================== *)

(** The options of the [tweet] command. *)
Record TweetOptions := mkTweetOptions {
  opt_url : jsstring;
  opt_message : option jsstring;
  opt_username : option jsstring;
  opt_dryRun : bool
}.

(** The options of the [batch] command; [bopt_delay] is
    [parseInt(options.delay)]. *)
Record BatchOptions := mkBatchOptions {
  bopt_delay : N;
  bopt_username : option jsstring;
  bopt_dryRun : bool
}.

(** The three counters of the batch loop. *)
Record Counts := mkCounts {
  processed : nat;
  skipped : nat;
  failed : nat
}.

Definition required_missing : Err :=
  Error (js "Failed to extract required platform or URL information").

(** The post handed to the store, built from the extracted data. *)
Definition post_of (env : Env) (url platform : jsstring) (postData : PostData)
    (success : option bool) : ProcessedPost :=
  {| pp_url := url;
     pp_platform := platform;
     pp_processedAt := now env;
     pp_suremarkUsername := set_if_truthy_opt (pd_suremark_username postData);
     pp_title := set_if_truthy_opt (pd_title postData);
     pp_content := set_if_truthy_opt (pd_content postData);
     pp_author := set_if_truthy_opt (pd_author postData);
     pp_success := success;
     pp_tweet := None |}.

Section Commands.

Variable URL_new : jsstring -> option URL.
Variable pe : ProcessEnv.

(** [generateVerificationMessage] called from a command: a thrown
    [TypeError] propagates. *)
Definition compose (platform : jsstring) (username : option jsstring)
    (customMessage : option jsstring) : M jsstring :=
  match generateVerificationMessage platform
          (or_str username (js "suremark_user"))
          (BOT_CONFIG_SURMARK_DASHBOARD_URL pe) customMessage with
  | inl e => throw e
  | inr message => ret message
  end.

(** The posting branch of the [tweet] action: the [if (options.dryRun)]
    statement with its two arms. *)
Definition tweet_publish (env : Env) (options : TweetOptions)
    (url platform : jsstring) (postData : PostData)
    (verificationMessage : jsstring) : M Outcome :=
  if opt_dryRun options then
    saveProcessedPost env
      (post_of env url platform postData (Some false)) ;;
    spinner_succeed SUCCESS_MESSAGES_DRY_RUN ;;
    console_log (LF ++ js "Generated tweet:") ;;
    console_log verificationMessage ;;
    console_log (LF ++ js "Tweet length: "
                 ++ of_nat (List.length verificationMessage)
                 ++ js " characters") ;;
    ret DryRunRecorded
  else
    result <- postTweet env verificationMessage None ;;
    if tr_success result then
      saveSuccessfulPost env
        (post_of env url platform postData None)
        (tr_tweet_id result) (tr_tweet_url result) ;;
      spinner_succeed SUCCESS_MESSAGES_TWEET_POSTED ;;
      console_log (LF ++ js "Tweet URL: "
                   ++ show_opt (tr_tweet_url result)) ;;
      console_log (js "Tweet ID: " ++ show_opt (tr_tweet_id result)) ;;
      ret Posted
    else
      spinner_fail (show_opt (tr_error result)) ;;
      exit PostFailed.

(** The [tweet] action after the duplicate check: extraction,
    composition and the posting branch. *)
Definition tweet_rest (env : Env) (options : TweetOptions) : M Outcome :=
  postData <- processUrl URL_new env (opt_url options) (opt_username options) ;;
  match pd_platform postData, pd_url postData with
  | Some platform, Some url =>
      if negb (truthy platform) || negb (truthy url)
      then throw required_missing
      else
        verificationMessage <-
          compose platform (pd_suremark_username postData)
                  (opt_message options) ;;
        tweet_publish env options url platform postData verificationMessage
  | _, _ => throw required_missing
  end.

(** The [tweet] action from the duplicate check to the end of the
    posting branch, inside the [try] of the action. *)
Definition tweet_pipeline (env : Env) (options : TweetOptions) : M Outcome :=
  isProcessed <- isPostProcessed env (opt_url options) ;;
  if isProcessed then
    spinner_fail ERROR_MESSAGES_DUPLICATE_POST ;;
    exit AlreadyProcessed
  else tweet_rest env options.

(** The [catch] clause of the [tweet] action. *)
Definition tweet_catch (error : Err) : M Outcome :=
  spinner_fail (js "Error: " ++ err_message error) ;;
  logger_error (js "Tweet command error: " ++ Err_toString error) ;;
  exit (Errored error).

(** The pipeline of one URL as the [tweet] action runs it, once the
    store is connected and the credentials are verified: the
    specification's [process]. *)
Definition process (env : Env) (options : TweetOptions) : M Outcome :=
  try_catch (tweet_pipeline env options) tweet_catch.

(** The whole [tweet] action. *)
Definition tweet_action (env : Env) (options : TweetOptions) : M Outcome :=
  try_catch
    (if negb (validateCredentials pe) then
       spinner_fail ERROR_MESSAGES_MISSING_CREDENTIALS ;;
       exit MissingCredentials
     else
       initialize env ;;
       credentialsValid <- verifyCredentials env ;;
       if negb credentialsValid then
         spinner_fail ERROR_MESSAGES_API_ERROR ;;
         exit CredentialsRejected
       else
         outcome <- tweet_pipeline env options ;;
         close env ;;
         ret outcome)
    tweet_catch.

(** The posting branch of a turn of the [batch] loop: the
    [if (!options.dryRun)] statement with its two arms.  [c] holds the
    counters; [total] is [urls.length]. *)
Definition batch_publish (env : Env) (options : BatchOptions) (total : nat)
    (url purl platform : jsstring) (postData : PostData)
    (verificationMessage : jsstring) (c : Counts) : M Counts :=
  if negb (bopt_dryRun options) then
    result <- postTweet env verificationMessage None ;;
    c1 <- (if tr_success result then
             saveSuccessfulPost env
               (post_of env purl platform postData None)
               (tr_tweet_id result) (tr_tweet_url result) ;;
             ret (mkCounts (S (processed c)) (skipped c) (failed c))
           else
             logger_error (js "Failed to tweet for " ++ url
                           ++ js ": " ++ show_opt (tr_error result)) ;;
             ret (mkCounts (processed c) (skipped c) (S (failed c)))) ;;
    (if Nat.ltb (processed c1) total
     then emit (EvSleep (bopt_delay options * 1000))
     else ret tt) ;;
    ret c1
  else
    saveProcessedPost env
      (post_of env purl platform postData (Some false)) ;;
    ret (mkCounts (S (processed c)) (skipped c) (failed c)).

(** A turn of the [batch] loop after the duplicate check. *)
Definition batch_rest (env : Env) (options : BatchOptions) (total : nat)
    (url : jsstring) (c : Counts) : M Counts :=
  postData <- processUrl URL_new env url (bopt_username options) ;;
  match pd_platform postData, pd_url postData with
  | Some platform, Some purl =>
      if negb (truthy platform) || negb (truthy purl)
      then throw required_missing
      else
        verificationMessage <-
          compose platform (pd_suremark_username postData) None ;;
        batch_publish env options total url purl platform postData
                      verificationMessage c
  | _, _ => throw required_missing
  end.

(** One turn of the [for] loop of the [batch] action: the body of the
    [try] and its [catch].  No statement that can throw follows an
    increment, so the [catch] clause adds to the counters the turn
    started with. *)
Definition batch_item (env : Env) (options : BatchOptions) (total : nat)
    (url : jsstring) (c : Counts) : M Counts :=
  try_catch
    (isProcessed <- isPostProcessed env url ;;
     if isProcessed then
       ret (mkCounts (processed c) (S (skipped c)) (failed c))
     else batch_rest env options total url c)
    (fun error =>
       logger_error (js "Error processing " ++ url ++ js ": "
                     ++ err_message error) ;;
       ret (mkCounts (processed c) (skipped c) (S (failed c)))).

(** The [for] loop of the [batch] action; [envs i] says how the outside
    answers during turn [i]. *)
Fixpoint batch_loop (envs : nat -> Env) (options : BatchOptions)
    (total i : nat) (urls : list jsstring) (c : Counts) : M Counts :=
  match urls with
  | [] => ret c
  | url :: rest =>
      c1 <- batch_item (envs i) options total url c ;;
      batch_loop envs options total (S i) rest c1
  end.

(** The counters start at zero: the specification's [runBatch]. *)
Definition runBatch (envs : nat -> Env) (options : BatchOptions)
    (urls : list jsstring) : M Counts :=
  batch_loop envs options (List.length urls) 0 urls (mkCounts 0 0 0).

End Commands.

(* ================================================================== *)
(** * Vocabulary of the specification *)
(* ================================================================== *)

(** The outcome of a run of the [tweet] action, however it ended. *)
Definition outcome_of (r : Res Outcome) : Outcome :=
  match r with
  | Val o => o
  | Exit o => o
  | Throw e => Errored e
  end.

(** The terminal state [InputRejected]: the invalid-URL error. *)
Definition InputRejected : Outcome :=
  Errored (Error ERROR_MESSAGES_INVALID_URL).

(** The store holds a record of [url] with [success = true]. *)
Definition holds_success (url : jsstring) (ds : list ProcessedPost) : Prop :=
  exists d, In d ds /\ pp_url d = url /\ pp_success d = Some true.

(** An access to the store. *)
Definition store_access (e : Event) : bool :=
  match e with
  | EvConnect | EvFindOne _ | EvInsertOne _ | EvClose => true
  | _ => false
  end.

(** A write to the store. *)
Definition store_write (e : Event) : bool :=
  match e with
  | EvInsertOne _ => true
  | _ => false
  end.

(** An access to the network: a page fetch or a call of the posting
    API. *)
Definition network_access (e : Event) : bool :=
  match e with
  | EvHttpGet _ | EvApiMe | EvApiTweet _ _ => true
  | _ => false
  end.

(** A call of the posting client that reaches the posting API. *)
Definition posting_call (e : Event) : bool :=
  match e with
  | EvApiTweet _ _ => true
  | _ => false
  end.

(** A unit that does not occur in a string, as a computable test. *)
Definition fresh (c : N) (s : jsstring) : bool :=
  forallb (fun x => negb (N.eqb x c)) s.

(** The placeholder of the website strategy. *)
Definition website_placeholder (env : Env) : Extracted :=
  {| ex_title := Some (js "Website Content");
     ex_content := Some (js "Content from website");
     ex_author := None;
     ex_timestamp := Some (now env) |}.

(** The two records of the microblog strategy. *)
Definition tweet_record (env : Env) (tweetId : jsstring) : Extracted :=
  {| ex_title := Some (js "X/Twitter Post");
     ex_content := Some (js "Post from X/Twitter (ID: " ++ tweetId ++ js ")");
     ex_author := None;
     ex_timestamp := Some (now env) |}.

Definition tweet_placeholder (env : Env) : Extracted :=
  {| ex_title := Some (js "X/Twitter Post");
     ex_content := Some (js "Verified content from X/Twitter");
     ex_author := None;
     ex_timestamp := Some (now env) |}.

Definition tweet_warning : Event :=
  EvLog LWarn (js "Failed to extract Twitter content:").

(** The author the image strategy reads from a page. *)
Definition instagram_author (page : Page) : jsstring :=
  or_str (option_map (split_first (js " on Instagram")) (og_title page))
         (text_username page).

(** The template [generateVerificationMessage] selects when there is no
    custom message and the tag names no inherited property. *)
Definition selected_template (platform : jsstring) : jsstring :=
  match own_property platform PLATFORM_SPECIFIC with
  | Some template => template
  | None => MESSAGE_TEMPLATES_DEFAULT
  end.

(** The text of a template before, and between, its two placeholders. *)
Definition template_parts (t : jsstring) : option (jsstring * jsstring) :=
  match indexOf PH_USERNAME t with
  | None => None
  | Some i =>
      let rest := skipn (i + List.length PH_USERNAME) t in
      match indexOf PH_DASHBOARD rest with
      | None => None
      | Some j => Some (firstn i t, firstn j rest)
      end
  end.

(** A template made of a text, the handle placeholder, a text and the
    link placeholder at the end, with no brace and no at sign of its
    own. *)
Definition well_formed_template (t : jsstring) : bool :=
  match template_parts t with
  | Some (pre, mid) =>
      eqb t (pre ++ PH_USERNAME ++ mid ++ PH_DASHBOARD)
      && fresh 64 pre && fresh 123 pre && fresh 123 mid
  | None => false
  end.

(** The answer of the duplicate check when the store reads work. *)
Definition success_recorded (url : jsstring) (ds : list ProcessedPost) : bool :=
  match find (matches_success url) ds with Some _ => true | None => false end.

(** The events of the duplicate check. *)
Definition check_events (env : Env) (url : jsstring) : list Event :=
  EvFindOne url ::
  match findOne_error env with
  | Some e => [EvLog LError (js "Error checking if post is processed: "
                             ++ Err_toString e)]
  | None => []
  end.

(** The events of an extraction: page fetches and log lines. *)
Definition extraction_event (e : Event) : bool :=
  match e with
  | EvHttpGet _ | EvLog _ _ => true
  | _ => false
  end.

(** The four tags [detectPlatform] can return. *)
Definition platform_tags : list jsstring :=
  [js "twitter"; js "instagram"; js "youtube"; js "website"].

(** The data [processUrl] returns for a URL that parses. *)
Definition post_data (url platform : jsstring) (ex : Extracted)
    (username : option jsstring) : PostData :=
  {| pd_url := Some url;
     pd_platform := Some platform;
     pd_title := ex_title ex;
     pd_content := ex_content ex;
     pd_author := ex_author ex;
     pd_timestamp := ex_timestamp ex;
     pd_suremark_username := username |}.

(** The message a command composes for a platform tag. *)
Definition message_of (pe : ProcessEnv) (platform : jsstring)
    (username customMessage : option jsstring) : jsstring :=
  match generateVerificationMessage platform
          (or_str username (js "suremark_user"))
          (BOT_CONFIG_SURMARK_DASHBOARD_URL pe) customMessage with
  | inr message => message
  | inl _ => []
  end.

(** The four results of [postTweet]. *)
Definition too_long_result : TweetResult :=
  {| tr_success := false; tr_tweet_id := None; tr_tweet_url := None;
     tr_message := None; tr_error := Some ERROR_MESSAGES_TWEET_TOO_LONG;
     tr_retry_after := None |}.

Definition posted_result (tweetId : jsstring) : TweetResult :=
  {| tr_success := true; tr_tweet_id := Some tweetId;
     tr_tweet_url := Some (js "https://twitter.com/user/status/" ++ tweetId);
     tr_message := Some SUCCESS_MESSAGES_TWEET_POSTED;
     tr_error := None; tr_retry_after := None |}.

Definition rate_limit_result : TweetResult :=
  {| tr_success := false; tr_tweet_id := None; tr_tweet_url := None;
     tr_message := None; tr_error := Some ERROR_MESSAGES_RATE_LIMIT;
     tr_retry_after := Some 900%N |}.

Definition api_error_result (e : Err) : TweetResult :=
  {| tr_success := false; tr_tweet_id := None; tr_tweet_url := None;
     tr_message := None;
     tr_error := Some (js "X API error: " ++ err_message e);
     tr_retry_after := None |}.

Definition no_data : Err := Error (js "No response data received from X API").

(** The documents the two save methods insert. *)
Definition dry_document (post : ProcessedPost) : ProcessedPost :=
  {| pp_url := pp_url post;
     pp_platform := pp_platform post;
     pp_processedAt := pp_processedAt post;
     pp_suremarkUsername := pp_suremarkUsername post;
     pp_title := pp_title post;
     pp_content := pp_content post;
     pp_author := pp_author post;
     pp_success := pp_success post;
     pp_tweet := None |}.

Definition success_document (env : Env) (post : ProcessedPost)
    (tweetId tweetUrl : option jsstring) : ProcessedPost :=
  {| pp_url := pp_url post;
     pp_platform := pp_platform post;
     pp_processedAt := pp_processedAt post;
     pp_suremarkUsername := pp_suremarkUsername post;
     pp_title := pp_title post;
     pp_content := pp_content post;
     pp_author := pp_author post;
     pp_success := Some true;
     pp_tweet := Some {| tw_id := tweetId; tw_url := tweetUrl;
                         tw_postedAt := now env |} |}.

(** What the [tweet] action prints at its ends. *)
Definition dry_run_report (message : jsstring) : list Event :=
  [ EvSpinnerSucceed SUCCESS_MESSAGES_DRY_RUN;
    EvConsoleLog (LF ++ js "Generated tweet:");
    EvConsoleLog message;
    EvConsoleLog (LF ++ js "Tweet length: " ++ of_nat (List.length message)
                  ++ js " characters") ].

Definition posted_report (r : TweetResult) : list Event :=
  [ EvSpinnerSucceed SUCCESS_MESSAGES_TWEET_POSTED;
    EvConsoleLog (LF ++ js "Tweet URL: " ++ show_opt (tr_tweet_url r));
    EvConsoleLog (js "Tweet ID: " ++ show_opt (tr_tweet_id r)) ].

Definition catch_report (e : Err) : list Event :=
  [ EvSpinnerFail (js "Error: " ++ err_message e);
    EvLog LError (js "Tweet command error: " ++ Err_toString e) ].

(** Every exit of a computation is one of [P]. *)
Definition exits_in {A} (P : Outcome -> Prop) (m : M A) : Prop :=
  forall db o, result (m db) = Exit o -> P o.

(** A failure shown to the user. *)
Definition failure_report (e : Event) : bool :=
  match e with
  | EvSpinnerFail _ => true
  | _ => false
  end.

(** The batch driver in the words of the specification: each URL goes
    through [process]; an [AlreadyProcessed] outcome counts as skipped, a
    [Posted] or [DryRunRecorded] outcome as processed, every other
    outcome as failed, and the next URL starts from the store the
    previous one left. *)
Definition tally (o : Outcome) (c : Counts) : Counts :=
  match o with
  | AlreadyProcessed => mkCounts (processed c) (S (skipped c)) (failed c)
  | Posted | DryRunRecorded => mkCounts (S (processed c)) (skipped c) (failed c)
  | _ => mkCounts (processed c) (skipped c) (S (failed c))
  end.

Definition batch_options_as_tweet (options : BatchOptions) (url : jsstring)
  : TweetOptions :=
  mkTweetOptions url None (bopt_username options) (bopt_dryRun options).

Fixpoint runBatch_by_outcome (URL_new : jsstring -> option URL)
    (pe : ProcessEnv) (envs : nat -> Env) (options : BatchOptions) (i : nat)
    (urls : list jsstring) (db : Database) (c : Counts) : Counts * Database :=
  match urls with
  | [] => (c, db)
  | url :: rest =>
      let r := process URL_new pe (envs i)
                 (batch_options_as_tweet options url) db in
      runBatch_by_outcome URL_new pe envs options (S i) rest (final_db r)
        (tally (outcome_of (result r)) c)
  end.

(** A run of a piece of the batch loop, with counters [c] at its start,
    against the run of the same piece of the [tweet] action: the same
    store at the end, the same exception if one is thrown, and otherwise
    the counters that tally the outcome. *)
Definition refines (c : Counts) (b : Res Counts * Database * list Event)
    (t : Res Outcome * Database * list Event) : Prop :=
  final_db b = final_db t
  /\ match result t with
     | Val o | Exit o => result b = Val (tally o c)
     | Throw e => result b = Throw e
     end.

(* ================================================================== *)
(** * A sample runtime, to run the code on examples *)
(* ================================================================== *)

Module Sample.

(** A small URL constructor: [scheme://host/path] with a non-empty
    scheme and host, no port, query or fragment; anything else is
    rejected.  On such inputs it gives the host name and path name the
    URL constructor of the runtime gives. *)
Definition URL_new (s : jsstring) : option URL :=
  match indexOf (js "://") s with
  | Some (S i) =>
      let rest := skipn (S i + 3) s in
      let host := split_first (js "/") rest in
      if truthy host && negb (includes (js " ") s) then
        Some {| hostname := toLowerCase host;
                pathname := sor (skipn (List.length host) rest) (js "/") |}
      else None
  | _ => None
  end.

Definition pe : ProcessEnv :=
  {| TWITTER_API_KEY := Some (js "key");
     TWITTER_API_SECRET := Some (js "secret");
     TWITTER_ACCESS_TOKEN := Some (js "token");
     TWITTER_ACCESS_TOKEN_SECRET := Some (js "token-secret");
     SURMARK_DASHBOARD_URL := None |}.

(** Every fetch times out; the store and the posting API answer. *)
Definition env : Env :=
  {| now := 1700000000000%N;
     http_get := fun _ => inl (Error (js "timeout of 10000ms exceeded"));
     connect_error := None;
     findOne_error := None;
     insertOne_error := None;
     close_error := None;
     v2_tweet := fun _ _ => inr (Some (js "1234567890"));
     v2_me := inr (Some (js "SureMarkTruthAgent")) |}.

(** The same, with a posting API that is rate limited. *)
Definition env_rate_limited : Env :=
  {| now := now env;
     http_get := http_get env;
     connect_error := None;
     findOne_error := None;
     insertOne_error := None;
     close_error := None;
     v2_tweet := fun _ _ =>
       inl (mkErr (js "ApiResponseError") (Some 429%N)
                  (js "Request failed with code 429"));
     v2_me := v2_me env |}.

(** The same as [env], with a store whose reads fail. *)
Definition env_read_fails : Env :=
  {| now := now env;
     http_get := http_get env;
     connect_error := None;
     findOne_error := Some (Error (js "connection closed"));
     insertOne_error := None;
     close_error := None;
     v2_tweet := v2_tweet env;
     v2_me := v2_me env |}.

(** An Instagram page whose [og:title] names an author of 120
    letters. *)
Definition long_author : jsstring := repeat 97%N 120.

Definition instagram_page : Page :=
  mkPage (Some (long_author ++ js " on Instagram: a photo"))
         (Some (js "A caption")) None None None
         [] [] [] [] [] [] [] [] [] [] [].

Definition env_instagram : Env :=
  {| now := now env;
     http_get := fun _ => inr instagram_page;
     connect_error := None;
     findOne_error := None;
     insertOne_error := None;
     close_error := None;
     v2_tweet := v2_tweet env;
     v2_me := v2_me env |}.

Definition u_instagram : jsstring := js "https://www.instagram.com/p/abc/".

(** A connected, empty store. *)
Definition db0 : Database := mkDatabase true [].

Definition u1 : jsstring := js "https://example.com/a".
Definition u2 : jsstring := js "not a url".
Definition u3 : jsstring := js "https://x.com/user/status/42".

(** The record of a post of [u3], and a store that holds it. *)
Definition posted_doc : ProcessedPost :=
  {| pp_url := u3; pp_platform := js "twitter";
     pp_processedAt := now env; pp_suremarkUsername := None;
     pp_title := Some (js "X/Twitter Post");
     pp_content := Some (js "Post from X/Twitter (ID: 42)");
     pp_author := None; pp_success := Some true;
     pp_tweet := Some {| tw_id := Some (js "1234567890");
                         tw_url := Some (js "https://twitter.com/user/status/1234567890");
                         tw_postedAt := now env |} |}.

Definition db_posted : Database := mkDatabase true [posted_doc].

Definition tweet_options (url : jsstring) (dryRun : bool) : TweetOptions :=
  mkTweetOptions url None None dryRun.

End Sample.

(* ================================================================== *)
(** * More of the code: the URL file of the batch command *)
(* ================================================================== *)

(** The code units [String.prototype.trim] strips: the white space and
    line terminators of ECMA-262. *)
Definition is_whitespace (c : N) : bool :=
  existsb (N.eqb c)
    [9; 10; 11; 12; 13; 32; 160; 0x1680; 0x2028; 0x2029; 0x202F; 0x205F;
     0x3000; 0xFEFF]%N
  || (N.leb 0x2000 c && N.leb c 0x200A).

(** [s.trimStart()], [s.trimEnd()], [s.trim()]. *)
Fixpoint trimStart (s : jsstring) : jsstring :=
  match s with
  | [] => []
  | c :: s' => if is_whitespace c then trimStart s' else s
  end.

Definition trimEnd (s : jsstring) : jsstring := rev (trimStart (rev s)).

Definition trim (s : jsstring) : jsstring := trimEnd (trimStart s).

(** [arr.join(sep)]. *)
Fixpoint join (sep : jsstring) (arr : list jsstring) : jsstring :=
  match arr with
  | [] => []
  | [x] => x
  | x :: rest => x ++ sep ++ join sep rest
  end.

Definition line_feed : N := 10.

(** The list of URLs the [batch] action reads from the text of its file:
    [split("\n")], [map(trim)], then [filter] on lines that are not empty
    and do not start with [#]. *)
Definition keep_line (line : jsstring) : bool :=
  truthy line && negb (starts_with (js "#") line).

Definition read_urls (content : jsstring) : list jsstring :=
  filter keep_line (map trim (split_unit line_feed content)).

(* ================================================================== *)
(** * More of the code: the other methods of [XAPIClient] *)
(* ================================================================== *)

(** [replyToTweet]. *)
Definition replyToTweet (env : Env) (tweetId message : jsstring)
  : M TweetResult :=
  postTweet env message (Some tweetId).

(** What iterating the paginator of [client.v2.search] gives: the tweets
    it yields, in order, then the end or the exception of a failed page
    fetch. *)
Record Paginator (Tweet : Type) := mkPaginator {
  pg_items : list Tweet;
  pg_failure : option Err
}.

Arguments mkPaginator {Tweet} pg_items pg_failure.
Arguments pg_items {Tweet} p.
Arguments pg_failure {Tweet} p.

(** The result of [searchTweets]. *)
Record SearchResult (Tweet : Type) := mkSearchResult {
  sr_success : bool;
  sr_tweets : option (list Tweet);
  sr_error : option jsstring
}.

Arguments mkSearchResult {Tweet} sr_success sr_tweets sr_error.
Arguments sr_success {Tweet} s.
Arguments sr_tweets {Tweet} s.
Arguments sr_error {Tweet} s.

(** The [for await] loop of [searchTweets]: push, then stop as soon as
    the array has [count] elements or more.  [tweets] is the array so
    far; the result is the array and the exception, if the iteration
    threw. *)
Fixpoint collect_tweets {Tweet} (count : Z) (tweets : list Tweet)
    (items : list Tweet) (failure : option Err)
  : list Tweet * option Err :=
  match items with
  | [] => (tweets, failure)
  | tweet :: rest =>
      let tweets1 := tweets ++ [tweet] in
      if Z.leb count (Z.of_nat (List.length tweets1)) then (tweets1, None)
      else collect_tweets count tweets1 rest failure
  end.

(** [searchTweets]; [search query max_results] is the call
    [client.v2.search(query, { max_results, ... })], and [count] is 10
    when the caller gives none. *)
Definition searchTweets {Tweet}
    (search : jsstring -> Z -> Err + Paginator Tweet)
    (query : jsstring) (given : option Z) : M (SearchResult Tweet) :=
  let count := match given with Some c => c | None => 10%Z end in
  try_catch
    (match search query (Z.min count 100) with
     | inl e => throw e
     | inr paginator =>
         match collect_tweets count [] (pg_items paginator)
                 (pg_failure paginator) with
         | (_, Some e) => throw e
         | (tweets, None) => ret (mkSearchResult true (Some tweets) None)
         end
     end)
    (fun error =>
       logger_error (js "Error searching tweets: " ++ err_message error) ;;
       ret (mkSearchResult false None (Some (err_message error)))).

(* ================================================================== *)
(** * More of the code: the other methods of [PostDatabase] *)
(* ================================================================== *)

(** [collection.deleteOne({ url })]: the first document of that URL
    goes. *)
Fixpoint delete_first (url : jsstring) (ds : list ProcessedPost)
  : list ProcessedPost :=
  match ds with
  | [] => []
  | d :: rest =>
      if eqb (pp_url d) url then rest else d :: delete_first url rest
  end.

(** [collection.updateOne({ url }, { $set: { tweet } })]: the first
    document of that URL gets the field. *)
Definition with_tweet (d : ProcessedPost) (tweet : TweetInfo) : ProcessedPost :=
  {| pp_url := pp_url d;
     pp_platform := pp_platform d;
     pp_processedAt := pp_processedAt d;
     pp_suremarkUsername := pp_suremarkUsername d;
     pp_title := pp_title d;
     pp_content := pp_content d;
     pp_author := pp_author d;
     pp_success := pp_success d;
     pp_tweet := Some tweet |}.

Fixpoint update_first (url : jsstring) (tweet : TweetInfo)
    (ds : list ProcessedPost) : list ProcessedPost :=
  match ds with
  | [] => []
  | d :: rest =>
      if eqb (pp_url d) url then with_tweet d tweet :: rest
      else d :: update_first url tweet rest
  end.

(** [deletePost]; [failure] is the exception of [deleteOne], if it
    throws.  The calls of the driver made by the methods of this part
    are not recorded as events. *)
Definition deletePost (failure : option Err) (url : jsstring) : M bool :=
  db <- get_db ;;
  if negb (collection_set db) then throw not_initialized
  else
    try_catch
      (match failure with
       | Some e => throw e
       | None =>
           if url_stored url (docs db) then
             put_docs (delete_first url (docs db)) ;;
             logger_info (js "Deleted post: " ++ url) ;;
             ret true
           else ret false
       end)
      (fun error =>
         logger_error (js "Error deleting post: " ++ Err_toString error) ;;
         ret false).

(** [updateTweetInfo]; [failure] is the exception of [updateOne], if it
    throws. *)
Definition updateTweetInfo (env : Env) (failure : option Err)
    (url tweetId tweetUrl : jsstring) : M unit :=
  db <- get_db ;;
  if negb (collection_set db) then throw not_initialized
  else
    try_catch
      (match failure with
       | Some e => throw e
       | None =>
           put_docs (update_first url
                       {| tw_id := Some tweetId; tw_url := Some tweetUrl;
                          tw_postedAt := now env |}
                       (docs db))
       end ;;
       logger_info (js "Updated tweet info for post: " ++ url))
      (fun error =>
         logger_error (js "Error updating tweet info: " ++ Err_toString error) ;;
         throw error).

(** The statistics [getStatistics] returns.  The two records by platform
    and by user name are given as their entries; the order of the entries
    is not part of the model. *)
Record Statistics := mkStatistics {
  st_total : nat;
  st_successful : nat;
  st_failed : nat;
  st_byPlatform : list (jsstring * nat);
  st_byUsername : list (jsstring * nat);
  st_today : nat;
  st_thisWeek : nat;
  st_thisMonth : nat
}.

(** The three dates [getStatistics] computes from [new Date()] in local
    time: today at midnight, seven days ago, the first of the month at
    midnight. *)
Record Windows := mkWindows {
  today_start : Date;
  week_start : Date;
  month_start : Date
}.

Definition is_success (d : ProcessedPost) : bool :=
  match pp_success d with Some true => true | _ => false end.

Definition is_failure (d : ProcessedPost) : bool :=
  match pp_success d with Some false => true | _ => false end.

(** [countDocuments(filter)]. *)
Definition countDocuments (f : ProcessedPost -> bool) (ds : list ProcessedPost)
  : nat :=
  List.length (filter f ds).

(** The stage [$group] with [count: { $sum: 1 }]: one group per key. *)
Fixpoint bump (key : jsstring) (groups : list (jsstring * nat))
  : list (jsstring * nat) :=
  match groups with
  | [] => [(key, 1)]
  | (k, n) :: rest =>
      if eqb k key then (k, S n) :: rest else (k, n) :: bump key rest
  end.

Definition group_count (keys : list jsstring) : list (jsstring * nat) :=
  fold_left (fun groups key => bump key groups) keys [].

(** The [forEach] that fills a record from the groups: the assignment
    [record[key] = count] creates the entry, but for the key [__proto__],
    where assigning a number does nothing. *)
Definition record_of_groups (groups : list (jsstring * nat))
  : list (jsstring * nat) :=
  filter (fun entry => negb (eqb (fst entry) (js "__proto__"))) groups.

(** The user names of the stage
    [$match: { success: true, suremarkUsername: { $exists: true, $ne: null } }]. *)
Fixpoint usernames (ds : list ProcessedPost) : list jsstring :=
  match ds with
  | [] => []
  | d :: rest =>
      match pp_suremarkUsername d with
      | Some name => if is_success d then name :: usernames rest
                     else usernames rest
      | None => usernames rest
      end
  end.

Definition since (t : Date) (d : ProcessedPost) : bool :=
  N.leb t (pp_processedAt d) && is_success d.

Definition no_statistics : Statistics :=
  mkStatistics 0 0 0 [] [] 0 0 0.

(** [getStatistics]; [failure] is the exception of the first count or
    aggregation that throws, if one does. *)
Definition getStatistics (windows : Windows) (failure : option Err)
  : M Statistics :=
  db <- get_db ;;
  if negb (collection_set db) then throw not_initialized
  else
    try_catch
      (match failure with
       | Some e => throw e
       | None =>
           let ds := docs db in
           ret {| st_total := countDocuments (fun _ => true) ds;
                  st_successful := countDocuments is_success ds;
                  st_failed := countDocuments is_failure ds;
                  st_byPlatform :=
                    record_of_groups
                      (group_count (map pp_platform (filter is_success ds)));
                  st_byUsername :=
                    record_of_groups (group_count (usernames ds));
                  st_today := countDocuments (since (today_start windows)) ds;
                  st_thisWeek := countDocuments (since (week_start windows)) ds;
                  st_thisMonth :=
                    countDocuments (since (month_start windows)) ds |}
       end)
      (fun error =>
         logger_error (js "Error getting statistics: " ++ Err_toString error) ;;
         ret no_statistics).

(** What the four listing methods make of a document: every field but
    [success]. *)
Definition listed (doc : ProcessedPost) : ProcessedPost :=
  {| pp_url := pp_url doc;
     pp_platform := pp_platform doc;
     pp_processedAt := pp_processedAt doc;
     pp_suremarkUsername := pp_suremarkUsername doc;
     pp_title := pp_title doc;
     pp_content := pp_content doc;
     pp_author := pp_author doc;
     pp_success := None;
     pp_tweet := pp_tweet doc |}.

(** The filters of the four listing methods. *)
Inductive Query :=
| QueryAll
| QueryPlatform (platform : jsstring)
| QueryUsername (username : jsstring)
| QuerySearch (query : jsstring).

(** The body the four listing methods share; [cursor query limit ds] is
    what [find(query).sort({ processedAt: -1 }).limit(limit).toArray()]
    gives on the documents [ds], or its exception. *)
Definition list_posts
    (cursor : Query -> Z -> list ProcessedPost -> Err + list ProcessedPost)
    (what : jsstring) (query : Query) (limit : Z) : M (list ProcessedPost) :=
  db <- get_db ;;
  if negb (collection_set db) then throw not_initialized
  else
    try_catch
      (match cursor query limit (docs db) with
       | inl e => throw e
       | inr documents => ret (map listed documents)
       end)
      (fun error =>
         logger_error (what ++ Err_toString error) ;;
         ret []).





(* ================================================================== *)
(** * More vocabulary *)
(* ================================================================== *)

(** Every event of every run of [m] passes the test [P]. *)
Definition emits {A} (P : Event -> bool) (m : M A) : Prop :=
  forall db, forallb P (events (m db)) = true.

(** The unique index on [url] holds. *)
Definition unique_urls (db : Database) : Prop := NoDup (map pp_url (docs db)).

(** A clean line of a URL file: not empty, no white space at either
    end, no line feed inside, no [#] in front. *)
Definition clean_line (line : jsstring) : Prop :=
  line <> []
  /\ trim line = line
  /\ ~ In line_feed line
  /\ starts_with (js "#") line = false.

(** An event of the batch loop that is neither a call of the posting API
    nor a pause. *)
Definition quiet_event (e : Event) : bool :=
  match e with
  | EvApiTweet _ _ | EvSleep _ => false
  | _ => true
  end.

(** An event that is not a step of the pipeline on the store or the
    network: anything but a query, an insert, a page fetch or a post. *)
Definition before_pipeline (e : Event) : bool :=
  match e with
  | EvFindOne _ | EvInsertOne _ | EvHttpGet _ | EvApiTweet _ _ => false
  | _ => true
  end.

Definition not_close (e : Event) : bool :=
  match e with
  | EvClose => false
  | _ => true
  end.

(** A field of a record that is absent or holds a text that is not
    empty. *)
Definition filled (v : option jsstring) : Prop :=
  forall s, v = Some s -> s <> [].

(** A record of the extractor: stamped with the time of the
    extraction, and with no empty text in it. *)
Definition sound_record (env : Env) (ex : Extracted) : Prop :=
  ex_timestamp ex = Some (now env)
  /\ filled (ex_title ex) /\ filled (ex_content ex) /\ filled (ex_author ex).

(** Every run of [m] that returns, returns a value of [V], and every
    run that leaves the program does so with an outcome of [X]. *)
Definition ends_in {A} (V : A -> Prop) (X : Outcome -> Prop) (m : M A)
  : Prop :=
  forall db,
    match result (m db) with
    | Val a => V a
    | Exit o => X o
    | Throw _ => True
    end.


(* ================================================================== *)
(** * More samples *)
(* ================================================================== *)

Module Cases.

(** The lines of a URL file: a comment, a URL with blanks around it and
    a carriage return at its end, an empty line, a URL. *)
Definition file_lines : list jsstring :=
  [ js "# posts to verify";
    js "  https://example.com/a  " ++ [13%N];
    [];
    js "https://x.com/user/status/42" ].

Definition url_file : jsstring := join LF file_lines.

(** A host that is not the microblog and holds [x.com]. *)
Definition u_netflix : jsstring := js "https://netflix.com/title/1".

(** A custom message of 300 units. *)
Definition long_message : jsstring := repeat 97%N 300.

(** The record a dry run of [Sample.u1] leaves, and a store that holds
    it. *)
Definition dry_doc : ProcessedPost :=
  {| pp_url := Sample.u1; pp_platform := js "website";
     pp_processedAt := now Sample.env; pp_suremarkUsername := None;
     pp_title := Some (js "Website Content");
     pp_content := Some (js "Content from website");
     pp_author := None; pp_success := Some false;
     pp_tweet := None |}.

Definition db_dry : Database := mkDatabase true [dry_doc].

(** A store with a success and a dry run. *)
Definition db_two : Database := mkDatabase true [Sample.posted_doc; dry_doc].

(** An environment whose first variable is not set. *)
Definition pe_unset : ProcessEnv :=
  {| TWITTER_API_KEY := None;
     TWITTER_API_SECRET := Some (js "secret");
     TWITTER_ACCESS_TOKEN := Some (js "token");
     TWITTER_ACCESS_TOKEN_SECRET := Some (js "token-secret");
     SURMARK_DASHBOARD_URL := None |}.

(** A cursor that gives the matching documents, the last stored
    first. *)
Definition selects (query : Query) (d : ProcessedPost) : bool :=
  match query with
  | QueryAll => true
  | QueryPlatform platform => eqb (pp_platform d) platform
  | QueryUsername username =>
      match pp_suremarkUsername d with
      | Some name => eqb name username
      | None => false
      end
  | QuerySearch _ => true
  end.

Definition cursor (query : Query) (limit : Z) (ds : list ProcessedPost)
  : Err + list ProcessedPost :=
  inr (firstn (Z.to_nat limit) (rev (filter (selects query) ds))).

Definition windows : Windows :=
  {| today_start := 1699920000000%N;
     week_start := 1699395200000%N;
     month_start := 1698796800000%N |}.

(** A search that yields three tweets, then fails on the next page. *)
Definition search (query : jsstring) (max_results : Z)
  : Err + Paginator nat :=
  inr (mkPaginator [1; 2; 3] (Some (Error (js "Too Many Requests")))).

End Cases.

(* ================================================================== *)
(** * Facts about the string primitives *)
(* ================================================================== *)

Module JSFacts.

Lemma eqb_refl (a : jsstring) : eqb a a = true.
Proof.
  induction a as [|x a IH]; simpl; [reflexivity|].
  now rewrite N.eqb_refl, IH.
Qed.

Lemma eqb_eq (a b : jsstring) : eqb a b = true <-> a = b.
Proof.
  split.
  - revert b; induction a as [|x a IH]; intros [|y b]; simpl;
      try discriminate; [reflexivity|].
    intros H; apply andb_true_iff in H as [Hx Hr].
    apply N.eqb_eq in Hx; apply IH in Hr; now subst.
  - intros ->; apply eqb_refl.
Qed.

Lemma eqb_neq (a b : jsstring) : eqb a b = false <-> a <> b.
Proof.
  split.
  - intros H E; apply eqb_eq in E; congruence.
  - intros H; destruct (eqb a b) eqn:E; [|reflexivity].
    apply eqb_eq in E; contradiction.
Qed.

Lemma fresh_spec c s : fresh c s = true <-> ~ In c s.
Proof.
  unfold fresh; rewrite forallb_forall; split.
  - intros H Hin; specialize (H c Hin); now rewrite N.eqb_refl in H.
  - intros H x Hx; destruct (N.eqb_spec x c); [subst; contradiction|reflexivity].
Qed.

Lemma fresh_app c s t : fresh c (s ++ t) = fresh c s && fresh c t.
Proof. unfold fresh; apply forallb_app. Qed.

Lemma starts_with_self_app p s : starts_with p (p ++ s) = true.
Proof.
  induction p as [|x p IH]; simpl; [reflexivity|].
  now rewrite N.eqb_refl.
Qed.

(** A prefix of [s] has all its units in [s]. *)
Lemma starts_with_In p s c :
  starts_with p s = true -> In c p -> In c s.
Proof.
  revert s; induction p as [|x p IH]; intros s H Hin; [destruct Hin|].
  destruct s as [|y s]; simpl in H; [discriminate|].
  apply andb_true_iff in H as [Hx Hr]; apply N.eqb_eq in Hx; subst y.
  destruct Hin as [->|Hin]; [now left|right; eauto].
Qed.

(** A pattern with a unit that the string lacks does not occur. *)
Lemma indexOf_absent p s c :
  In c p -> ~ In c s -> indexOf p s = None.
Proof.
  intros Hp; induction s as [|y s IH]; intros Hs.
  - simpl. destruct (starts_with p []) eqn:E; [|reflexivity].
    exfalso; eapply Hs, starts_with_In; eauto.
  - simpl. destruct (starts_with p (y :: s)) eqn:E.
    + exfalso; eapply Hs, starts_with_In; eauto.
    + rewrite IH; [reflexivity|]. intros Hin; apply Hs; now right.
Qed.

Lemma includes_absent p s c :
  In c p -> ~ In c s -> includes p s = false.
Proof. intros; unfold includes; now erewrite indexOf_absent by eauto. Qed.

(** The first occurrence of a pattern whose first unit is new. *)
Lemma indexOf_first c p xs ys :
  ~ In c xs ->
  indexOf (c :: p) (xs ++ c :: p ++ ys) = Some (List.length xs).
Proof.
  induction xs as [|x xs IH]; intros Hf.
  - cbn [app List.length indexOf].
    change (c :: p ++ ys) with ((c :: p) ++ ys).
    now rewrite starts_with_self_app.
  - cbn [app List.length indexOf starts_with].
    assert (Hx : N.eqb c x = false).
    { apply N.eqb_neq; intros ->; apply Hf; now left. }
    rewrite Hx. cbn [andb].
    rewrite IH; [reflexivity|]. intros Hin; apply Hf; now right.
Qed.

(** A replacement text without a dollar sign is inserted as it is. *)
Lemma GetSubstitution_plain m b a t :
  ~ In 36%N t -> GetSubstitution m b a t = t.
Proof.
  induction t as [|c t IH]; intros Hf; [reflexivity|].
  cbn [GetSubstitution].
  assert (Hc : N.eqb c 36 = false).
  { apply N.eqb_neq; intros ->; apply Hf; now left. }
  rewrite Hc, IH; [reflexivity|]. intros Hin; apply Hf; now right.
Qed.

Lemma skipn_app_exact {A} (xs ys : list A) :
  skipn (List.length xs) (xs ++ ys) = ys.
Proof. induction xs; simpl; auto. Qed.

Lemma firstn_app_exact {A} (xs ys : list A) :
  firstn (List.length xs) (xs ++ ys) = xs.
Proof. induction xs; simpl; [now destruct ys|]; now f_equal. Qed.

(** Replacing a pattern at its first occurrence. *)
Lemma replace_first c p xs ys repl :
  ~ In c xs -> ~ In 36%N repl ->
  replace (xs ++ c :: p ++ ys) (c :: p) repl = xs ++ repl ++ ys.
Proof.
  intros Hc Hd. unfold replace.
  rewrite indexOf_first by assumption.
  rewrite firstn_app_exact.
  rewrite GetSubstitution_plain by assumption.
  replace (List.length xs + List.length (c :: p))
    with (List.length (xs ++ c :: p)) by (rewrite length_app; reflexivity).
  replace (xs ++ c :: p ++ ys) with ((xs ++ c :: p) ++ ys)
    by (rewrite <- app_assoc; reflexivity).
  now rewrite skipn_app_exact.
Qed.

Lemma array_indexOf_absent x arr :
  ~ In x arr -> array_indexOf x arr = None.
Proof.
  induction arr as [|y arr IH]; intros H; [reflexivity|].
  simpl. destruct (eqb y x) eqn:E.
  - apply eqb_eq in E; subst; exfalso; apply H; now left.
  - rewrite IH; [reflexivity|]. intros Hin; apply H; now right.
Qed.

Lemma array_indexOf_first x pre rest :
  ~ In x pre -> array_indexOf x (pre ++ x :: rest) = Some (List.length pre).
Proof.
  induction pre as [|y pre IH]; intros H; simpl.
  - now rewrite eqb_refl.
  - destruct (eqb y x) eqn:E.
    + apply eqb_eq in E; subst; exfalso; apply H; now left.
    + rewrite IH; [reflexivity|]. intros Hin; apply H; now right.
Qed.

Lemma length_substring0 n s : List.length (substring0 n s) <= n.
Proof. unfold substring0; rewrite length_firstn; lia. Qed.

End JSFacts.

Import JSFacts.

(* ================================================================== *)
(** * The content extractor *)
(* ================================================================== *)

Section Extractor.

Variable URL_new : jsstring -> option URL.

(** C5.  Fail-soft extraction of the website strategy: when the fetch
    or the parse of the page throws, [extractWebsiteContent] returns,
    without throwing and without touching the store, the record with
    title "Website Content", content "Content from website" and the
    current time; the failure is only logged as a warning.  The same
    holds through [extractContent] for every platform tag that has no
    strategy of its own. *)
Theorem website_extraction_fail_soft :
  forall (env : Env) (url : jsstring) (e : Err) (db : Database),
    http_get env url = inl e ->
    extractWebsiteContent env url db =
      (Val (website_placeholder env), db,
       [EvHttpGet url;
        EvLog LWarn (js "Failed to extract website content: "
                     ++ Err_toString e)])
    /\ forall platform,
         eqb platform (js "twitter") = false ->
         eqb platform (js "instagram") = false ->
         eqb platform (js "youtube") = false ->
         extractContent URL_new env url platform db =
           (Val (website_placeholder env), db,
            [EvHttpGet url;
             EvLog LWarn (js "Failed to extract website content: "
                          ++ Err_toString e)]).
Proof.
  intros env url e db Hget.
  assert (Hrun : extractWebsiteContent env url db =
      (Val (website_placeholder env), db,
       [EvHttpGet url;
        EvLog LWarn (js "Failed to extract website content: "
                     ++ Err_toString e)])).
  { unfold extractWebsiteContent, try_catch, bind, fetch_page, emit.
    rewrite Hget. reflexivity. }
  split; [exact Hrun|].
  intros platform Ht Hi Hy. unfold extractContent.
  now rewrite Ht, Hi, Hy.
Qed.

(** The microblog strategy on a URL that parses, by the segments of its
    path. *)
Lemma extractTweetId_found url urlObj pre id post :
  URL_new url = Some urlObj ->
  split_unit slash (pathname urlObj) = pre ++ js "status" :: id :: post ->
  ~ In (js "status") pre ->
  extractTweetId URL_new url = if truthy id then Some id else None.
Proof.
  intros Hu Hs Hpre. unfold extractTweetId. rewrite Hu, Hs.
  rewrite array_indexOf_first by assumption.
  assert (Hlt : Nat.ltb (List.length pre + 1)
                  (List.length (pre ++ js "status" :: id :: post)) = true).
  { apply Nat.ltb_lt. rewrite length_app. simpl. lia. }
  rewrite Hlt.
  replace (nth (List.length pre + 1) (pre ++ js "status" :: id :: post) [])
    with id; [reflexivity|].
  rewrite app_nth2 by lia.
  replace (List.length pre + 1 - List.length pre) with 1 by lia.
  reflexivity.
Qed.

Lemma extractTweetId_last url urlObj pre :
  URL_new url = Some urlObj ->
  split_unit slash (pathname urlObj) = pre ++ [js "status"] ->
  ~ In (js "status") pre ->
  extractTweetId URL_new url = None.
Proof.
  intros Hu Hs Hpre. unfold extractTweetId. rewrite Hu, Hs.
  rewrite array_indexOf_first by assumption.
  assert (Hlt : Nat.ltb (List.length pre + 1)
                  (List.length (pre ++ [js "status"])) = false).
  { apply Nat.ltb_ge. rewrite length_app. simpl. lia. }
  now rewrite Hlt.
Qed.

Lemma extractTweetId_none url urlObj :
  URL_new url = Some urlObj ->
  ~ In (js "status") (split_unit slash (pathname urlObj)) ->
  extractTweetId URL_new url = None.
Proof.
  intros Hu Hs. unfold extractTweetId. rewrite Hu.
  now rewrite array_indexOf_absent.
Qed.

Lemma extractTweetId_truthy url id :
  extractTweetId URL_new url = Some id -> truthy id = true.
Proof.
  unfold extractTweetId.
  destruct (URL_new url) as [urlObj|]; [|discriminate].
  destruct (array_indexOf _ _) as [i|]; [|discriminate].
  destruct (Nat.ltb _ _); [|discriminate].
  destruct (truthy (nth _ _ _)) eqn:E; [|discriminate].
  intros [= <-]. exact E.
Qed.

Lemma extractTwitterContent_cases env url db :
  extractTwitterContent URL_new env url db =
    match extractTweetId URL_new url with
    | Some id => (Val (tweet_record env id), db, [])
    | None => (Val (tweet_placeholder env), db, [tweet_warning])
    end.
Proof.
  unfold extractTwitterContent, try_catch.
  destruct (extractTweetId URL_new url) as [id|] eqn:E; [|reflexivity].
  rewrite (extractTweetId_truthy url id E). reflexivity.
Qed.

(** C7.  The microblog strategy never fetches and never throws.  On a
    URL whose path has, right after its first [status] segment, a
    non-empty segment, the record embeds that segment as the post
    identifier; when the path has no [status] segment, when [status] is
    its last segment, when the segment after it is empty, or when the
    URL does not parse, the record is the generic microblog
    placeholder. *)
Theorem microblog_extraction :
  forall (env : Env) (url : jsstring) (db : Database),
    (exists ex evs,
        extractTwitterContent URL_new env url db = (Val ex, db, evs)
        /\ forall e, In e evs -> network_access e = false)
    /\ (forall urlObj pre id post,
           URL_new url = Some urlObj ->
           split_unit slash (pathname urlObj) = pre ++ js "status" :: id :: post ->
           ~ In (js "status") pre ->
           id <> [] ->
           extractTwitterContent URL_new env url db
             = (Val (tweet_record env id), db, [])
           /\ ex_content (tweet_record env id)
              = Some (js "Post from X/Twitter (ID: " ++ id ++ js ")"))
    /\ (forall urlObj,
           URL_new url = Some urlObj ->
           (~ In (js "status") (split_unit slash (pathname urlObj))
            \/ (exists pre,
                   split_unit slash (pathname urlObj) = pre ++ [js "status"]
                   /\ ~ In (js "status") pre)
            \/ (exists pre post,
                   split_unit slash (pathname urlObj)
                     = pre ++ js "status" :: [] :: post
                   /\ ~ In (js "status") pre)) ->
           extractTwitterContent URL_new env url db
             = (Val (tweet_placeholder env), db, [tweet_warning]))
    /\ (URL_new url = None ->
        extractTwitterContent URL_new env url db
          = (Val (tweet_placeholder env), db, [tweet_warning])).
Proof.
  intros env url db. split; [|split; [|split]].
  - rewrite extractTwitterContent_cases.
    destruct (extractTweetId URL_new url) as [id|].
    + exists (tweet_record env id), []. split; [reflexivity|]. intros e [].
    + exists (tweet_placeholder env), [tweet_warning].
      split; [reflexivity|]. intros e [<-|[]]. reflexivity.
  - intros urlObj pre id post Hu Hs Hpre Hid. split; [|reflexivity].
    rewrite extractTwitterContent_cases.
    rewrite (extractTweetId_found url urlObj pre _ _ Hu Hs Hpre).
    destruct id; [contradiction|reflexivity].
  - intros urlObj Hu Hcase. rewrite extractTwitterContent_cases.
    destruct Hcase as [Hno|[(pre & Hs & Hpre)|(pre & post & Hs & Hpre)]].
    + now rewrite (extractTweetId_none url urlObj Hu Hno).
    + now rewrite (extractTweetId_last url urlObj pre Hu Hs Hpre).
    + now rewrite (extractTweetId_found url urlObj pre _ _ Hu Hs Hpre).
  - intros Hu. rewrite extractTwitterContent_cases.
    unfold extractTweetId. now rewrite Hu.
Qed.

End Extractor.

Lemma website_extraction_fail_soft_witness :
  http_get Sample.env Sample.u1
    = inl (Error (js "timeout of 10000ms exceeded"))
  /\ extractWebsiteContent Sample.env Sample.u1 Sample.db0 =
      (Val (website_placeholder Sample.env), Sample.db0,
       [EvHttpGet Sample.u1;
        EvLog LWarn (js "Failed to extract website content: "
                     ++ Err_toString (Error (js "timeout of 10000ms exceeded")))]).
Proof.
  split; [reflexivity|].
  apply (website_extraction_fail_soft Sample.URL_new Sample.env Sample.u1
           (Error (js "timeout of 10000ms exceeded")) Sample.db0).
  reflexivity.
Defined.

Lemma microblog_extraction_witness :
  Sample.URL_new Sample.u3 = Some (mkURL (js "x.com") (js "/user/status/42"))
  /\ split_unit slash (js "/user/status/42")
     = [ []; js "user" ] ++ js "status" :: js "42" :: []
  /\ extractTwitterContent Sample.URL_new Sample.env Sample.u3 Sample.db0
     = (Val (tweet_record Sample.env (js "42")), Sample.db0, []).
Proof.
  split; [reflexivity|]. split; [reflexivity|].
  apply (proj1 (proj2 (microblog_extraction Sample.URL_new Sample.env
                         Sample.u3 Sample.db0))
           (mkURL (js "x.com") (js "/user/status/42"))
           [ []; js "user" ] (js "42") []).
  - reflexivity.
  - reflexivity.
  - intros [H|[H|[]]]; discriminate H.
  - discriminate.
Defined.

(** The website and video strategies cut the title at 100 units and the
    content at 1000; the image strategy cuts the content at 1000. *)
Lemma set_if_truthy_length n v t :
  set_if_truthy (substring0 n) v = Some t -> List.length t <= n.
Proof.
  unfold set_if_truthy. destruct (truthy v); [|discriminate].
  intros [= <-]. apply length_substring0.
Qed.

Lemma extractWebsiteContent_bounds env url db ex db' evs :
  extractWebsiteContent env url db = (Val ex, db', evs) ->
  (forall t, ex_title ex = Some t -> List.length t <= 100)
  /\ (forall c, ex_content ex = Some c -> List.length c <= 1000).
Proof.
  unfold extractWebsiteContent, try_catch, bind, fetch_page, emit.
  destruct (http_get env url) as [e|page]; cbn; intros [= <- _ _]; cbn.
  - split; intros x [= <-]; cbn; lia.
  - split; intros x Hx; exact (set_if_truthy_length _ _ _ Hx).
Qed.

Lemma extractYouTubeContent_bounds env url db ex db' evs :
  extractYouTubeContent env url db = (Val ex, db', evs) ->
  (forall t, ex_title ex = Some t -> List.length t <= 100)
  /\ (forall c, ex_content ex = Some c -> List.length c <= 1000).
Proof.
  unfold extractYouTubeContent, try_catch, bind, fetch_page, emit.
  destruct (http_get env url) as [e|page]; cbn; intros [= <- _ _]; cbn.
  - split; intros x [= <-]; cbn; lia.
  - split; intros x Hx; exact (set_if_truthy_length _ _ _ Hx).
Qed.

Lemma extractInstagramContent_content_bound env url db ex db' evs :
  extractInstagramContent env url db = (Val ex, db', evs) ->
  forall c, ex_content ex = Some c -> List.length c <= 1000.
Proof.
  unfold extractInstagramContent, try_catch, bind, fetch_page, emit.
  destruct (http_get env url) as [e|page]; cbn; intros [= <- _ _]; cbn.
  - intros x [= <-]; cbn; lia.
  - intros x Hx; exact (set_if_truthy_length _ _ _ Hx).
Qed.

(** C8.  The image strategy does not cut its title: on a fetched page the
    title is the text "Instagram Post by " followed by the whole author
    text, so an author of more than 82 units gives a title of more than
    100 units. *)
Theorem instagram_title_not_truncated :
  forall (env : Env) (url : jsstring) (page : Page) (db : Database),
    http_get env url = inr page ->
    exists ex evs,
      extractInstagramContent env url db = (Val ex, db, evs)
      /\ ex_title ex = Some (js "Instagram Post by " ++ instagram_author page)
      /\ (82 < List.length (instagram_author page) ->
          exists t, ex_title ex = Some t
                    /\ CONTENT_CONFIG_DEFAULT_TITLE_LENGTH < List.length t).
Proof.
  intros env url page db Hget.
  exists {| ex_title := Some (js "Instagram Post by " ++ instagram_author page);
            ex_content :=
              set_if_truthy (substring0 CONTENT_CONFIG_MAX_CONTENT_LENGTH)
                (sor (or_str (og_description page) (text_caption page))
                     (text_post_caption page));
            ex_author := set_if_truthy (fun a => a) (instagram_author page);
            ex_timestamp := Some (now env) |}, [EvHttpGet url].
  split; [|split].
  - unfold extractInstagramContent, try_catch, bind, fetch_page, emit.
    rewrite Hget. reflexivity.
  - reflexivity.
  - intros Hlen.
    exists (js "Instagram Post by " ++ instagram_author page).
    split; [reflexivity|].
    unfold CONTENT_CONFIG_DEFAULT_TITLE_LENGTH.
    rewrite length_app.
    change (List.length (js "Instagram Post by ")) with 18. lia.
Qed.

Lemma instagram_title_not_truncated_witness :
  http_get Sample.env_instagram Sample.u_instagram = inr Sample.instagram_page
  /\ List.length (instagram_author Sample.instagram_page) = 120
  /\ exists ex evs,
      extractInstagramContent Sample.env_instagram Sample.u_instagram Sample.db0
        = (Val ex, Sample.db0, evs)
      /\ ex_title ex
         = Some (js "Instagram Post by " ++ instagram_author Sample.instagram_page)
      /\ (82 < List.length (instagram_author Sample.instagram_page) ->
          exists t, ex_title ex = Some t
                    /\ CONTENT_CONFIG_DEFAULT_TITLE_LENGTH < List.length t).
Proof.
  split; [reflexivity|]. split; [vm_compute; reflexivity|].
  apply (instagram_title_not_truncated Sample.env_instagram Sample.u_instagram
           Sample.instagram_page Sample.db0).
  reflexivity.
Defined.

(* ================================================================== *)
(** * The message composer *)
(* ================================================================== *)

Lemma own_property_In key obj v :
  own_property key obj = Some v -> In v (map snd obj).
Proof.
  induction obj as [|[k w] obj IH]; simpl; [discriminate|].
  destruct (eqb k key); [intros [= ->]; now left|right; auto].
Qed.

Lemma well_formed_template_sound t :
  well_formed_template t = true ->
  exists pre mid,
    t = pre ++ PH_USERNAME ++ mid ++ PH_DASHBOARD
    /\ ~ In 64%N pre /\ ~ In 123%N pre /\ ~ In 123%N mid.
Proof.
  unfold well_formed_template.
  destruct (template_parts t) as [[pre mid]|]; [|discriminate].
  intros H. repeat (apply andb_true_iff in H as [H ?]).
  exists pre, mid. repeat split; try (apply fresh_spec; assumption).
  now apply eqb_eq.
Qed.

Lemma templates_well_formed :
  forallb well_formed_template
    (MESSAGE_TEMPLATES_DEFAULT :: map snd PLATFORM_SPECIFIC) = true.
Proof. vm_compute. reflexivity. Qed.

Lemma selected_template_well_formed platform :
  well_formed_template (selected_template platform) = true.
Proof.
  pose proof templates_well_formed as H.
  rewrite forallb_forall in H. apply H. unfold selected_template.
  destruct (own_property platform PLATFORM_SPECIFIC) as [t|] eqn:E.
  - right. eapply own_property_In; eauto.
  - now left.
Qed.

(** Filling a well-formed template with a handle and a link that hold no
    dollar sign and no brace. *)
Lemma fill_template pre mid handle link :
  ~ In 64%N pre -> ~ In 123%N pre -> ~ In 123%N mid ->
  ~ In 36%N handle -> ~ In 123%N handle ->
  ~ In 36%N link ->
  replace (replace (pre ++ PH_USERNAME ++ mid ++ PH_DASHBOARD)
                   PH_USERNAME (js "@" ++ handle))
          PH_DASHBOARD link
  = pre ++ js "@" ++ handle ++ mid ++ link.
Proof.
  intros Hat Hb1 Hb2 Hd1 Hb3 Hd2.
  change PH_USERNAME with (64%N :: js "{suremark_username}").
  change PH_DASHBOARD with (123%N :: js "dashboard_url}").
  change (pre ++ (64%N :: js "{suremark_username}")
              ++ mid ++ 123%N :: js "dashboard_url}")
    with (pre ++ 64%N :: js "{suremark_username}"
              ++ (mid ++ 123%N :: js "dashboard_url}")).
  rewrite replace_first.
  - replace (pre ++ (js "@" ++ handle) ++ mid ++ 123%N :: js "dashboard_url}")
      with ((pre ++ js "@" ++ handle ++ mid)
              ++ 123%N :: js "dashboard_url}" ++ []).
    + rewrite replace_first.
      * rewrite app_nil_r. now rewrite <- !app_assoc.
      * rewrite !in_app_iff. intros [H|[H|[H|H]]]; try contradiction.
        destruct H as [H|[]]; discriminate H.
      * assumption.
    + rewrite app_nil_r. now rewrite <- !app_assoc.
  - assumption.
  - intros [H|H]; [discriminate H|contradiction].
Qed.

(** C6, as the specification states it, fails: with the handle
    [{dashboard_url}] the first occurrence of the link placeholder is the
    one the handle brought in, and the placeholder of the template stays
    in the message. *)
Lemma template_substitution_counterexample :
  generateVerificationMessage (js "twitter") (js "{dashboard_url}")
    (js "https://d.example") None
  = inr (js "This post is verified by @https://d.example using SureMark Digital. "
         ++ LF
         ++ js "Check the SureMark dashboard for more recent posts: {dashboard_url}")
  /\ includes (js "{dashboard_url}")
       (js "This post is verified by @https://d.example using SureMark Digital. "
        ++ LF
        ++ js "Check the SureMark dashboard for more recent posts: {dashboard_url}")
     = true.
Proof. split; vm_compute; reflexivity. Qed.

(** The two other ways the substitution leaves a placeholder or no
    message at all: a dollar pattern in the link, here the pattern for
    the matched text, and a platform tag that names a property every
    object inherits. *)
Lemma composer_dollar_pattern :
  generateVerificationMessage (js "twitter") (js "alice") (js "$&") None
  = inr (js "This post is verified by @alice using SureMark Digital. "
         ++ LF
         ++ js "Check the SureMark dashboard for more recent posts: {dashboard_url}").
Proof. vm_compute. reflexivity. Qed.

Lemma composer_inherited_property :
  generateVerificationMessage (js "constructor") (js "alice")
    (js "https://d.example") None
  = inl not_a_function.
Proof. vm_compute. reflexivity. Qed.

(** C6, amended.  For every platform tag that is not the name of a
    property inherited from [Object.prototype], and every attribution
    handle and dashboard link that hold neither a dollar sign nor an
    opening brace, composing without a custom message selects the
    template of the platform when it has one and the default template
    otherwise, and replaces the handle placeholder by an at sign and the
    handle and the link placeholder by the link; the message holds no
    [{dashboard_url}] and no [@{suremark_username}]. *)
Theorem template_substitution :
  forall platform handle link : jsstring,
    get_property PLATFORM_SPECIFIC platform <> Inherited ->
    ~ In dollar_sign handle -> ~ In opening_brace handle ->
    ~ In dollar_sign link -> ~ In opening_brace link ->
    exists pre mid,
      selected_template platform = pre ++ PH_USERNAME ++ mid ++ PH_DASHBOARD
      /\ generateVerificationMessage platform handle link None
         = inr (pre ++ js "@" ++ handle ++ mid ++ link)
      /\ includes PH_DASHBOARD (pre ++ js "@" ++ handle ++ mid ++ link) = false
      /\ includes PH_USERNAME (pre ++ js "@" ++ handle ++ mid ++ link) = false.
Proof.
  intros platform handle link Hown Hd1 Hb1 Hd2 Hb2.
  destruct (well_formed_template_sound _ (selected_template_well_formed platform))
    as (pre & mid & Ht & Hat & Hp & Hm).
  exists pre, mid. split; [exact Ht|].
  assert (Hfresh : ~ In 123%N (pre ++ js "@" ++ handle ++ mid ++ link)).
  { rewrite !in_app_iff. intros [H|[H|[H|[H|H]]]]; try contradiction.
    destruct H as [H|[]]; discriminate H. }
  split; [|split].
  - unfold generateVerificationMessage. cbn [truthy_opt].
    unfold get_property in *. unfold selected_template in Ht.
    destruct (own_property platform PLATFORM_SPECIFIC) as [t|].
    + subst t. unfold sor.
      assert (Htr : truthy (pre ++ PH_USERNAME ++ mid ++ PH_DASHBOARD) = true).
      { destruct pre; reflexivity. }
      rewrite Htr. f_equal. now apply fill_template.
    + destruct (existsb (eqb platform) Object_prototype_keys);
        [contradiction|].
      rewrite Ht. f_equal. now apply fill_template.
  - apply includes_absent with (c := 123%N); [|exact Hfresh].
    vm_compute. now left.
  - apply includes_absent with (c := 123%N); [|exact Hfresh].
    vm_compute. right. now left.
Qed.

Lemma template_substitution_witness :
  get_property PLATFORM_SPECIFIC (js "instagram") <> Inherited
  /\ exists pre mid,
      selected_template (js "instagram")
        = pre ++ PH_USERNAME ++ mid ++ PH_DASHBOARD
      /\ generateVerificationMessage (js "instagram") (js "alice")
           (js "https://d.example") None
         = inr (pre ++ js "@" ++ js "alice" ++ mid ++ js "https://d.example")
      /\ includes PH_DASHBOARD
           (pre ++ js "@" ++ js "alice" ++ mid ++ js "https://d.example") = false
      /\ includes PH_USERNAME
           (pre ++ js "@" ++ js "alice" ++ mid ++ js "https://d.example") = false.
Proof.
  split; [vm_compute; discriminate|].
  apply (template_substitution (js "instagram") (js "alice")
           (js "https://d.example")).
  - vm_compute; discriminate.
  - apply fresh_spec; vm_compute; reflexivity.
  - apply fresh_spec; vm_compute; reflexivity.
  - apply fresh_spec; vm_compute; reflexivity.
  - apply fresh_spec; vm_compute; reflexivity.
Defined.

(* ================================================================== *)
(** * Running the monad *)
(* ================================================================== *)

Lemma bind_run {A B} (m : M A) (k : A -> M B) db :
  bind m k db =
    match m db with
    | (Val a, db1, ev1) => prepend ev1 (k a db1)
    | (Throw e, db1, ev1) => (Throw e, db1, ev1)
    | (Exit o, db1, ev1) => (Exit o, db1, ev1)
    end.
Proof.
  unfold bind, prepend. destruct (m db) as [[[a|e|o] db1] ev1]; reflexivity.
Qed.

Lemma try_catch_run {A} (m : M A) (h : Err -> M A) db :
  try_catch m h db =
    match m db with
    | (Throw e, db1, ev1) => prepend ev1 (h e db1)
    | other => other
    end.
Proof.
  unfold try_catch, prepend. destruct (m db) as [[[a|e|o] db1] ev1]; reflexivity.
Qed.

Lemma prepend_prepend {A} ev1 ev2 (r : Res A * Database * list Event) :
  prepend ev1 (prepend ev2 r) = prepend (ev1 ++ ev2) r.
Proof. destruct r as [[v db] ev]. unfold prepend. now rewrite app_assoc. Qed.

Lemma prepend_nil {A} (r : Res A * Database * list Event) : prepend [] r = r.
Proof. now destruct r as [[v db] ev]. Qed.

Lemma result_prepend {A} evs (r : Res A * Database * list Event) :
  result (prepend evs r) = result r.
Proof. now destruct r as [[v db] ev]. Qed.

Lemma final_db_prepend {A} evs (r : Res A * Database * list Event) :
  final_db (prepend evs r) = final_db r.
Proof. now destruct r as [[v db] ev]. Qed.

Lemma events_prepend {A} evs (r : Res A * Database * list Event) :
  events (prepend evs r) = evs ++ events r.
Proof. now destruct r as [[v db] ev]. Qed.

(** Exits compose. *)
Lemma exits_in_ret {A} P (a : A) : exits_in P (ret a).
Proof. intros db o H; discriminate H. Qed.

Lemma exits_in_throw {A} P e : exits_in P (@throw A e).
Proof. intros db o H; discriminate H. Qed.

Lemma exits_in_emit P e : exits_in P (emit e).
Proof. intros db o H; discriminate H. Qed.

Lemma exits_in_get_db P : exits_in P get_db.
Proof. intros db o H; discriminate H. Qed.

Lemma exits_in_put_docs P ds : exits_in P (put_docs ds).
Proof. intros db o H; discriminate H. Qed.

Lemma exits_in_exit {A} (P : Outcome -> Prop) o : P o -> exits_in P (@exit A o).
Proof. intros Hp db o' H. unfold exit, result in H. cbn in H. now injection H as <-. Qed.

Lemma exits_in_bind {A B} P (m : M A) (k : A -> M B) :
  exits_in P m -> (forall a, exits_in P (k a)) -> exits_in P (bind m k).
Proof.
  intros Hm Hk db o. rewrite bind_run.
  specialize (Hm db). destruct (m db) as [[[a|e|o'] db1] ev1].
  - rewrite result_prepend. apply Hk.
  - discriminate.
  - intros H. apply Hm. unfold result in *. cbn in *. congruence.
Qed.

Lemma exits_in_try_catch {A} P (m : M A) (h : Err -> M A) :
  exits_in P m -> (forall e, exits_in P (h e)) -> exits_in P (try_catch m h).
Proof.
  intros Hm Hh db o. rewrite try_catch_run.
  specialize (Hm db). destruct (m db) as [[[a|e|o'] db1] ev1].
  - discriminate.
  - rewrite result_prepend. apply Hh.
  - intros H. apply Hm. exact H.
Qed.

Lemma exits_in_weaken {A} (P Q : Outcome -> Prop) (m : M A) :
  (forall o, P o -> Q o) -> exits_in P m -> exits_in Q m.
Proof. intros H Hm db o Ho. apply H. eapply Hm. exact Ho. Qed.

Ltac no_exit :=
  repeat first
    [ apply exits_in_bind; [|intros ?]
    | apply exits_in_try_catch; [|intros ?]
    | apply exits_in_ret | apply exits_in_throw | apply exits_in_emit
    | apply exits_in_get_db | apply exits_in_put_docs
    | match goal with
      | |- exits_in _ (if ?b then _ else _) => destruct b
      | |- exits_in _ (match ?x with _ => _ end) => destruct x
      end ].

(* ================================================================== *)
(** * The store and the posting client, case by case *)
(* ================================================================== *)

Lemma success_recorded_spec url ds :
  success_recorded url ds = true <-> holds_success url ds.
Proof.
  unfold success_recorded, holds_success. split.
  - destruct (find (matches_success url) ds) as [d|] eqn:E; [|discriminate].
    intros _. apply find_some in E as [Hin Hm]. exists d.
    unfold matches_success in Hm. apply andb_true_iff in Hm as [Hu Hs].
    apply eqb_eq in Hu.
    destruct (pp_success d) as [[|]|]; try discriminate. auto.
  - intros (d & Hin & Hu & Hs).
    destruct (find (matches_success url) ds) as [d'|] eqn:E; [reflexivity|].
    exfalso. apply (find_none _ _ E) in Hin.
    unfold matches_success in Hin. rewrite Hu, Hs, eqb_refl in Hin.
    discriminate.
Qed.

Lemma isPostProcessed_run env url db :
  collection_set db = true ->
  isPostProcessed env url db =
    (Val (match findOne_error env with
          | Some _ => false
          | None => success_recorded url (docs db)
          end), db, check_events env url).
Proof.
  intros Hc. unfold isPostProcessed, check_events, success_recorded.
  rewrite bind_run. cbn [get_db prepend]. rewrite Hc. cbn [negb].
  rewrite try_catch_run, bind_run. unfold findOne_success.
  rewrite bind_run. cbn [emit prepend].
  destruct (findOne_error env) as [e|]; reflexivity.
Qed.

Lemma isPostProcessed_unset env url db :
  collection_set db = false ->
  isPostProcessed env url db = (Throw not_initialized, db, []).
Proof.
  intros Hc. unfold isPostProcessed.
  rewrite bind_run. cbn [get_db prepend]. now rewrite Hc.
Qed.

Lemma isPostProcessed_no_exit P env url : exits_in P (isPostProcessed env url).
Proof. unfold isPostProcessed, findOne_success, logger_error. no_exit. Qed.

(** [isPostProcessed] answers [true] only for a URL recorded as a
    success. *)
Lemma isPostProcessed_true env url db db1 ev1 :
  isPostProcessed env url db = (Val true, db1, ev1) ->
  holds_success url (docs db).
Proof.
  destruct (collection_set db) eqn:Hc.
  - rewrite isPostProcessed_run by assumption.
    destruct (findOne_error env); [discriminate|].
    intros [= H _ _]. now apply success_recorded_spec.
  - rewrite isPostProcessed_unset by assumption. discriminate.
Qed.

Lemma postTweet_run env message db :
  postTweet env message None db =
    if Nat.ltb PROCESSING_CONFIG_MAX_TWEET_LENGTH (List.length message)
    then (Val too_long_result, db, [])
    else match v2_tweet env message None with
         | inr (Some tweetId) =>
             (Val (posted_result tweetId), db,
              [EvApiTweet message None;
               EvLog LInfo (js "Tweet posted successfully. ID: " ++ tweetId)])
         | inr None =>
             (Val (api_error_result no_data), db,
              [EvApiTweet message None;
               EvLog LError (js "X API error details:")])
         | inl e =>
             if has_code e 429
             then (Val rate_limit_result, db,
                   [EvApiTweet message None;
                    EvLog LWarn (js "Rate limit exceeded")])
             else (Val (api_error_result e), db,
                   [EvApiTweet message None;
                    EvLog LError (js "X API error details:")])
         end.
Proof.
  unfold postTweet. rewrite try_catch_run.
  destruct (Nat.ltb _ _); [reflexivity|].
  rewrite bind_run. cbn [emit prepend set_if_truthy_opt truthy_opt].
  destruct (v2_tweet env message None) as [e|[tweetId|]];
    cbn [throw prepend app]; try reflexivity.
  destruct (has_code e 429); reflexivity.
Qed.

Lemma saveProcessedPost_run env post db :
  collection_set db = true ->
  saveProcessedPost env post db =
    match insertOne_error env with
    | Some e =>
        if has_code e 11000
        then (Val tt, db,
              [EvInsertOne (dry_document post);
               EvLog LWarn (js "Post already exists: " ++ pp_url post)])
        else (Throw e, db,
              [EvInsertOne (dry_document post);
               EvLog LError (js "Error saving processed post: "
                             ++ Err_toString e)])
    | None =>
        if url_stored (pp_url post) (docs db)
        then (Val tt, db,
              [EvInsertOne (dry_document post);
               EvLog LWarn (js "Post already exists: " ++ pp_url post)])
        else (Val tt, mkDatabase true (docs db ++ [dry_document post]),
              [EvInsertOne (dry_document post);
               EvLog LInfo (js "Saved processed post: " ++ pp_url post)])
    end.
Proof.
  intros Hc. unfold saveProcessedPost.
  rewrite bind_run. cbn [get_db prepend]. rewrite Hc. cbn [negb].
  rewrite try_catch_run, bind_run. unfold insertOne.
  rewrite bind_run. cbn [emit prepend].
  fold (dry_document post).
  destruct (insertOne_error env) as [e|].
  - cbn [throw prepend app]. destruct (has_code e 11000); reflexivity.
  - rewrite bind_run. cbn [get_db prepend pp_url dry_document].
    destruct (url_stored (pp_url post) (docs db)); [reflexivity|].
    unfold put_docs, logger_info, emit, prepend. rewrite Hc. reflexivity.
Qed.

Lemma saveSuccessfulPost_run env post tweetId tweetUrl db :
  collection_set db = true ->
  saveSuccessfulPost env post tweetId tweetUrl db =
    let document := success_document env post tweetId tweetUrl in
    match insertOne_error env with
    | Some e =>
        if has_code e 11000
        then (Val tt, db,
              [EvInsertOne document;
               EvLog LWarn (js "Post already exists: " ++ pp_url post)])
        else (Throw e, db,
              [EvInsertOne document;
               EvLog LError (js "Error saving successful post: "
                             ++ Err_toString e)])
    | None =>
        if url_stored (pp_url post) (docs db)
        then (Val tt, db,
              [EvInsertOne document;
               EvLog LWarn (js "Post already exists: " ++ pp_url post)])
        else (Val tt, mkDatabase true (docs db ++ [document]),
              [EvInsertOne document;
               EvLog LInfo (js "Saved successful post: " ++ pp_url post)])
    end.
Proof.
  intros Hc. unfold saveSuccessfulPost.
  rewrite bind_run. cbn [get_db prepend]. rewrite Hc. cbn [negb].
  rewrite try_catch_run, bind_run. unfold insertOne.
  rewrite bind_run. cbn [emit prepend].
  fold (success_document env post tweetId tweetUrl).
  destruct (insertOne_error env) as [e|].
  - cbn [throw prepend app]. destruct (has_code e 11000); reflexivity.
  - rewrite bind_run. cbn [get_db prepend pp_url success_document].
    destruct (url_stored (pp_url post) (docs db)); [reflexivity|].
    unfold put_docs, logger_info, emit, prepend. rewrite Hc. reflexivity.
Qed.

Lemma save_unset_dry env post db :
  collection_set db = false ->
  saveProcessedPost env post db = (Throw not_initialized, db, []).
Proof.
  intros Hc. unfold saveProcessedPost.
  rewrite bind_run. cbn [get_db prepend]. now rewrite Hc.
Qed.

Lemma save_unset_success env post tweetId tweetUrl db :
  collection_set db = false ->
  saveSuccessfulPost env post tweetId tweetUrl db
    = (Throw not_initialized, db, []).
Proof.
  intros Hc. unfold saveSuccessfulPost.
  rewrite bind_run. cbn [get_db prepend]. now rewrite Hc.
Qed.

(* ================================================================== *)
(** * The pipeline of one URL, stage by stage *)
(* ================================================================== *)

Section Pipeline.

Variable URL_new : jsstring -> option URL.
Variable pe : ProcessEnv.

(** Every strategy returns a record, leaves the store alone and does
    nothing but fetch and log. *)
Lemma extractContent_total env url platform db :
  exists ex evs,
    extractContent URL_new env url platform db = (Val ex, db, evs)
    /\ Forall (fun e => extraction_event e = true) evs.
Proof.
  unfold extractContent.
  destruct (eqb platform (js "twitter"));
    [|destruct (eqb platform (js "instagram"));
      [|destruct (eqb platform (js "youtube"))]].
  - rewrite extractTwitterContent_cases.
    destruct (extractTweetId URL_new url);
      eexists; eexists; (split; [reflexivity|repeat constructor]).
  - unfold extractInstagramContent, fetch_page.
    rewrite try_catch_run, !bind_run. cbn [emit prepend].
    destruct (http_get env url);
      eexists; eexists; (split; [reflexivity|repeat constructor]).
  - unfold extractYouTubeContent, fetch_page.
    rewrite try_catch_run, !bind_run. cbn [emit prepend].
    destruct (http_get env url);
      eexists; eexists; (split; [reflexivity|repeat constructor]).
  - unfold extractWebsiteContent, fetch_page.
    rewrite try_catch_run, !bind_run. cbn [emit prepend].
    destruct (http_get env url);
      eexists; eexists; (split; [reflexivity|repeat constructor]).
Qed.

Lemma processUrl_invalid env url username db :
  URL_new url = None ->
  processUrl URL_new env url username db =
    (Throw (Error ERROR_MESSAGES_INVALID_URL), db,
     [EvLog LError (js "Error processing URL " ++ url ++ js ": "
                    ++ ERROR_MESSAGES_INVALID_URL)]).
Proof.
  intros Hu. unfold processUrl, isValidUrl. rewrite Hu.
  rewrite try_catch_run. reflexivity.
Qed.

Lemma processUrl_valid env url username db urlObj :
  URL_new url = Some urlObj ->
  exists ex evs,
    extractContent URL_new env url (platform_tag urlObj) db = (Val ex, db, evs)
    /\ Forall (fun e => extraction_event e = true) evs
    /\ processUrl URL_new env url username db =
         (Val (post_data url (platform_tag urlObj) ex username), db, evs).
Proof.
  intros Hu.
  destruct (extractContent_total env url (platform_tag urlObj) db)
    as (ex & evs & Hrun & Hev).
  exists ex, evs. split; [exact Hrun|]. split; [exact Hev|].
  unfold processUrl, isValidUrl, detectPlatform. rewrite Hu. cbn [negb].
  rewrite try_catch_run, bind_run. cbn [ret]. cbv beta iota.
  rewrite bind_run, Hrun. cbn [ret prepend app]. unfold post_data.
  now rewrite app_nil_r.
Qed.

Lemma platform_tag_cases urlObj : In (platform_tag urlObj) platform_tags.
Proof.
  unfold platform_tag, SUPPORTED_PLATFORMS, first_platform, platform_tags.
  repeat match goal with
         | |- context [if ?b then _ else _] => destruct b
         end; cbn; auto.
Qed.

Lemma platform_tag_truthy urlObj : truthy (platform_tag urlObj) = true.
Proof.
  destruct (platform_tag_cases urlObj) as [<-|[<-|[<-|[<-|[]]]]]; reflexivity.
Qed.

(** For a tag of [detectPlatform] the composer returns a message. *)
Lemma compose_tag platform username customMessage db :
  In platform platform_tags ->
  compose pe platform username customMessage db
    = (Val (message_of pe platform username customMessage), db, []).
Proof.
  intros Hin. unfold compose, message_of, generateVerificationMessage.
  destruct (truthy_opt customMessage); [reflexivity|].
  destruct Hin as [<-|[<-|[<-|[<-|[]]]]]; reflexivity.
Qed.

Lemma processUrl_no_exit P env url username :
  exits_in P (processUrl URL_new env url username).
Proof.
  unfold processUrl, detectPlatform, extractContent, extractTwitterContent,
    extractInstagramContent, extractYouTubeContent, extractWebsiteContent,
    fetch_page, logger_warn, logger_error.
  no_exit.
Qed.

Lemma compose_no_exit P platform username customMessage :
  exits_in P (compose pe platform username customMessage).
Proof. unfold compose. no_exit. Qed.

Lemma saveProcessedPost_no_exit P env post :
  exits_in P (saveProcessedPost env post).
Proof.
  unfold saveProcessedPost, insertOne, logger_info, logger_warn, logger_error.
  no_exit.
Qed.

Lemma saveSuccessfulPost_no_exit P env post i u :
  exits_in P (saveSuccessfulPost env post i u).
Proof.
  unfold saveSuccessfulPost, insertOne, logger_info, logger_warn, logger_error.
  no_exit.
Qed.

Lemma postTweet_no_exit P env message reply :
  exits_in P (postTweet env message reply).
Proof.
  unfold postTweet, logger_info, logger_warn, logger_error. no_exit.
Qed.


(** The URL constructor rejects the empty string. *)
Hypothesis URL_new_rejects_empty : URL_new [] = None.

Lemma valid_truthy url urlObj : URL_new url = Some urlObj -> truthy url = true.
Proof.
  destruct url; [|reflexivity].
  rewrite URL_new_rejects_empty. discriminate.
Qed.

Lemma tweet_rest_invalid env options db :
  URL_new (opt_url options) = None ->
  tweet_rest URL_new pe env options db =
    (Throw (Error ERROR_MESSAGES_INVALID_URL), db,
     [EvLog LError (js "Error processing URL " ++ opt_url options ++ js ": "
                    ++ ERROR_MESSAGES_INVALID_URL)]).
Proof.
  intros Hu. unfold tweet_rest. rewrite bind_run.
  now rewrite processUrl_invalid.
Qed.

Lemma tweet_rest_valid env options db urlObj :
  URL_new (opt_url options) = Some urlObj ->
  exists ex evX,
    extractContent URL_new env (opt_url options) (platform_tag urlObj) db
      = (Val ex, db, evX)
    /\ Forall (fun e => extraction_event e = true) evX
    /\ tweet_rest URL_new pe env options db =
         prepend evX
           (tweet_publish env options (opt_url options) (platform_tag urlObj)
              (post_data (opt_url options) (platform_tag urlObj) ex
                         (opt_username options))
              (message_of pe (platform_tag urlObj) (opt_username options)
                          (opt_message options))
              db).
Proof.
  intros Hu.
  destruct (processUrl_valid env (opt_url options) (opt_username options)
              db urlObj Hu) as (ex & evX & Hx & Hev & Hrun).
  exists ex, evX. split; [exact Hx|]. split; [exact Hev|].
  unfold tweet_rest. rewrite bind_run, Hrun.
  cbn [pd_platform pd_url post_data pd_suremark_username].
  rewrite platform_tag_truthy, (valid_truthy _ _ Hu). cbn [negb orb].
  rewrite bind_run, compose_tag by apply platform_tag_cases.
  now rewrite prepend_nil.
Qed.

Lemma tweet_publish_exits env options url platform postData message :
  exits_in (fun o => o = PostFailed)
    (tweet_publish env options url platform postData message).
Proof.
  unfold tweet_publish.
  destruct (opt_dryRun options).
  - unfold spinner_succeed, console_log.
    apply exits_in_bind; [apply saveProcessedPost_no_exit|intros ?].
    no_exit.
  - apply exits_in_bind; [apply postTweet_no_exit|intros r].
    destruct (tr_success r).
    + unfold spinner_succeed, console_log.
      apply exits_in_bind; [apply saveSuccessfulPost_no_exit|intros ?].
      no_exit.
    + unfold spinner_fail.
      apply exits_in_bind; [apply exits_in_emit|intros ?].
      now apply exits_in_exit.
Qed.

Lemma tweet_rest_exits env options :
  exits_in (fun o => o = PostFailed) (tweet_rest URL_new pe env options).
Proof.
  unfold tweet_rest.
  apply exits_in_bind; [apply processUrl_no_exit|intros postData].
  destruct (pd_platform postData); [|apply exits_in_throw].
  destruct (pd_url postData); [|apply exits_in_throw].
  destruct (_ || _); [apply exits_in_throw|].
  apply exits_in_bind; [apply compose_no_exit|intros message].
  apply tweet_publish_exits.
Qed.

(** [process], by the answer of the duplicate check. *)
Lemma process_blocked env options db ev :
  isPostProcessed env (opt_url options) db = (Val true, db, ev) ->
  process URL_new pe env options db =
    (Exit AlreadyProcessed, db,
     ev ++ [EvSpinnerFail ERROR_MESSAGES_DUPLICATE_POST]).
Proof.
  intros H. unfold process, tweet_pipeline.
  rewrite try_catch_run, bind_run, H. reflexivity.
Qed.

Lemma process_unblocked env options db ev :
  isPostProcessed env (opt_url options) db = (Val false, db, ev) ->
  process URL_new pe env options db =
    match tweet_rest URL_new pe env options db with
    | (Throw e, db1, ev1) =>
        (Exit (Errored e), db1, ev ++ ev1 ++ catch_report e)
    | (r, db1, ev1) => (r, db1, ev ++ ev1)
    end.
Proof.
  intros H. unfold process, tweet_pipeline.
  rewrite try_catch_run, bind_run, H.
  destruct (tweet_rest URL_new pe env options db) as [[[o|e|o] db1] ev1];
    cbn [prepend]; try reflexivity.
  unfold tweet_catch, catch_report.
  rewrite !bind_run. cbn. now rewrite <- app_assoc.
Qed.

Lemma process_unset env options db :
  collection_set db = false ->
  process URL_new pe env options db =
    (Exit (Errored not_initialized), db, catch_report not_initialized).
Proof.
  intros H. unfold process, tweet_pipeline.
  rewrite try_catch_run, bind_run, isPostProcessed_unset by assumption.
  reflexivity.
Qed.

(** The duplicate exit is taken only for a URL recorded as a success. *)
Lemma process_blocked_only env options db :
  result (process URL_new pe env options db) = Exit AlreadyProcessed ->
  holds_success (opt_url options) (docs db).
Proof.
  unfold process, tweet_pipeline. rewrite try_catch_run, bind_run.
  destruct (isPostProcessed env (opt_url options) db)
    as [[[isP|e|o] db1] ev1] eqn:E.
  - destruct isP.
    + intros _. eapply isPostProcessed_true; eauto.
    + pose proof (tweet_rest_exits env options db1) as Hx.
      destruct (tweet_rest URL_new pe env options db1) as [[[o|e|o] db2] ev2];
        cbn [prepend result fst].
      * discriminate.
      * unfold tweet_catch. rewrite !bind_run. cbn. discriminate.
      * intros [= ->]. specialize (Hx AlreadyProcessed eq_refl).
        discriminate Hx.
  - unfold tweet_catch. cbn [prepend]. rewrite !bind_run. cbn. discriminate.
  - exfalso. eapply (isPostProcessed_no_exit (fun _ => False)).
    unfold result. rewrite E. reflexivity.
Qed.
Lemma try_catch_events {A} (m : M A) (h : Err -> M A) db :
  exists tail, events (try_catch m h db) = events (m db) ++ tail.
Proof.
  rewrite try_catch_run.
  destruct (m db) as [[[a|e|o] db1] ev1].
  - exists []. cbn. now rewrite app_nil_r.
  - rewrite events_prepend. now exists (events (h e db1)).
  - exists []. cbn. now rewrite app_nil_r.
Qed.

Lemma tweet_publish_live_calls env options url platform postData message db :
  opt_dryRun options = false ->
  List.length message <= PROCESSING_CONFIG_MAX_TWEET_LENGTH ->
  exists tail,
    events (tweet_publish env options url platform postData message db)
      = EvApiTweet message None :: tail.
Proof.
  intros Hd Hlen. unfold tweet_publish. rewrite Hd.
  rewrite bind_run, postTweet_run.
  assert (Hlt : Nat.ltb PROCESSING_CONFIG_MAX_TWEET_LENGTH
                  (List.length message) = false)
    by (apply Nat.ltb_ge; exact Hlen).
  rewrite Hlt.
  destruct (v2_tweet env message None) as [e|[tweetId|]];
    [destruct (has_code e 429)| |];
    rewrite events_prepend; eexists; reflexivity.
Qed.

Lemma tweet_catch_run e db :
  tweet_catch e db = (Exit (Errored e), db, catch_report e).
Proof. unfold tweet_catch. rewrite !bind_run. reflexivity. Qed.

(** The whole [tweet] action, with credentials in place, a store that
    connects and a posting API that verifies them: it runs [process] on
    the connected store, and closes the connection when [process]
    returns. *)
Lemma tweet_action_runs_process env options db username :
  validateCredentials pe = true ->
  connect_error env = None ->
  v2_me env = inr (Some username) ->
  tweet_action URL_new pe env options db =
    prepend
      [ EvConnect;
        EvLog LInfo (js "MongoDB database initialized successfully");
        EvApiMe;
        EvLog LInfo (js "Credentials verified. Bot username: @" ++ username) ]
      match process URL_new pe env options (mkDatabase true (docs db)) with
      | (Val outcome, db1, ev1) =>
          match close env db1 with
          | (Val _, db2, ev2) => (Val outcome, db2, ev1 ++ ev2)
          | (Throw e, db2, ev2) => prepend (ev1 ++ ev2) (tweet_catch e db2)
          | (Exit o, db2, ev2) => (Exit o, db2, ev1 ++ ev2)
          end
      | other => other
      end.
Proof.
  intros Hv Hc Hme. unfold tweet_action, process. rewrite Hv. cbn [negb].
  rewrite !try_catch_run, bind_run.
  unfold initialize. rewrite try_catch_run, bind_run. cbn [emit prepend].
  rewrite Hc, bind_run. cbn [set_collection logger_info emit prepend app].
  rewrite bind_run. unfold verifyCredentials.
  rewrite try_catch_run, bind_run. cbn [emit prepend]. rewrite Hme.
  rewrite bind_run. cbn [logger_info emit ret prepend app negb].
  rewrite bind_run.
  destruct (tweet_pipeline URL_new pe env options (mkDatabase true (docs db)))
    as [[[o|e|o] db1] ev1]; cbn [prepend app].
  - rewrite bind_run.
    destruct (close env db1) as [[[u|e|o'] db2] ev2]; cbn [prepend ret app].
    + now rewrite app_nil_r.
    + rewrite tweet_catch_run. cbn [prepend app]. now rewrite <- !app_assoc.
    + reflexivity.
  - rewrite tweet_catch_run. reflexivity.
  - reflexivity.
Qed.

(** C1.  Idempotency short-circuit.  When the store holds a record of
    exactly this URL with [success = true] and the existence query
    answers, [process] ends in [AlreadyProcessed] with the
    duplicate-post message, having done nothing but the query: no
    extraction, no composition, no call of the posting client, and the
    store is unchanged.  When every record of the URL has a [success]
    other than [true] (failed attempts, dry runs), [process] never ends
    in [AlreadyProcessed]. *)
Theorem idempotency_short_circuit :
  forall (env : Env) (options : TweetOptions) (db : Database),
    (collection_set db = true ->
     findOne_error env = None ->
     holds_success (opt_url options) (docs db) ->
     process URL_new pe env options db =
       (Exit AlreadyProcessed, db,
        [EvFindOne (opt_url options);
         EvSpinnerFail ERROR_MESSAGES_DUPLICATE_POST]))
    /\ ((forall d, In d (docs db) -> pp_url d = opt_url options ->
                   pp_success d <> Some true) ->
        result (process URL_new pe env options db) <> Exit AlreadyProcessed).
Proof.
  intros env options db. split.
  - intros Hc Hf Hs.
    rewrite (process_blocked env options db [EvFindOne (opt_url options)]);
      [reflexivity|].
    rewrite isPostProcessed_run by assumption.
    unfold check_events. rewrite Hf.
    apply success_recorded_spec in Hs. now rewrite Hs.
  - intros Hno Hr. apply process_blocked_only in Hr.
    destruct Hr as (d & Hin & Hu & Hs). exact (Hno d Hin Hu Hs).
Qed.

(** A run on an input that does not parse and is not held as a
    success. *)
Lemma process_invalid env options db :
  collection_set db = true ->
  URL_new (opt_url options) = None ->
  ~ holds_success (opt_url options) (docs db) ->
  process URL_new pe env options db =
    (Exit InputRejected, db,
     check_events env (opt_url options)
     ++ [EvLog LError (js "Error processing URL " ++ opt_url options
                       ++ js ": " ++ ERROR_MESSAGES_INVALID_URL)]
     ++ catch_report (Error ERROR_MESSAGES_INVALID_URL)).
Proof.
  intros Hc Hu Hno.
  rewrite (process_unblocked env options db
             (check_events env (opt_url options))).
  - now rewrite tweet_rest_invalid.
  - rewrite isPostProcessed_run by assumption.
    destruct (findOne_error env); [reflexivity|].
    destruct (success_recorded _ _) eqn:E; [|reflexivity].
    apply success_recorded_spec in E. contradiction.
Qed.

(** C3, amended.  For an input that does not parse as a URL, and that
    the store does not hold as a success, [process] ends in
    [InputRejected] with the invalid-URL error.  Validation comes after
    the duplicate check: the store is read once, by that check, and
    nothing else touches it; nothing is written and there is no network
    access. *)
Theorem input_validation_after_check :
  forall (env : Env) (options : TweetOptions) (db : Database),
    collection_set db = true ->
    URL_new (opt_url options) = None ->
    ~ holds_success (opt_url options) (docs db) ->
    process URL_new pe env options db =
      (Exit InputRejected, db,
       check_events env (opt_url options)
       ++ [EvLog LError (js "Error processing URL " ++ opt_url options
                         ++ js ": " ++ ERROR_MESSAGES_INVALID_URL)]
       ++ catch_report (Error ERROR_MESSAGES_INVALID_URL))
    /\ filter store_access (events (process URL_new pe env options db))
       = [EvFindOne (opt_url options)]
    /\ filter network_access (events (process URL_new pe env options db)) = [].
Proof.
  intros env options db Hc Hu Hno.
  pose proof (process_invalid env options db Hc Hu Hno) as Hrun.
  split; [exact Hrun|]. rewrite Hrun. unfold events, check_events. cbn [snd].
  destruct (findOne_error env); split; reflexivity.
Qed.

(** C10.  The duplicate check fails open.  When the existence query
    throws, [isPostProcessed] logs the error and answers [false], the
    answer it gives for a URL that was never processed; [process] then
    does not end in [AlreadyProcessed] but goes on, even for a URL the
    store holds as a success: for a URL that parses it extracts the
    content and enters the posting branch, and a live run with a
    message within the length limit calls the posting API. *)
Theorem idempotency_check_fails_open :
  forall (env : Env) (options : TweetOptions) (db : Database) (e : Err),
    collection_set db = true ->
    findOne_error env = Some e ->
    isPostProcessed env (opt_url options) db =
      (Val false, db,
       [EvFindOne (opt_url options);
        EvLog LError (js "Error checking if post is processed: "
                      ++ Err_toString e)])
    /\ (forall env' db',
           collection_set db' = true ->
           findOne_error env' = None ->
           ~ holds_success (opt_url options) (docs db') ->
           result (isPostProcessed env' (opt_url options) db')
             = result (isPostProcessed env (opt_url options) db))
    /\ result (process URL_new pe env options db) <> Exit AlreadyProcessed
    /\ (forall urlObj,
           URL_new (opt_url options) = Some urlObj ->
           exists ex evX,
             extractContent URL_new env (opt_url options)
               (platform_tag urlObj) db = (Val ex, db, evX)
             /\ tweet_pipeline URL_new pe env options db =
                  prepend (check_events env (opt_url options) ++ evX)
                    (tweet_publish env options (opt_url options)
                       (platform_tag urlObj)
                       (post_data (opt_url options) (platform_tag urlObj) ex
                                  (opt_username options))
                       (message_of pe (platform_tag urlObj)
                                   (opt_username options) (opt_message options))
                       db)
             /\ (opt_dryRun options = false ->
                 List.length (message_of pe (platform_tag urlObj)
                                (opt_username options) (opt_message options))
                   <= PROCESSING_CONFIG_MAX_TWEET_LENGTH ->
                 In (EvApiTweet (message_of pe (platform_tag urlObj)
                                   (opt_username options) (opt_message options))
                                None)
                    (events (process URL_new pe env options db)))).
Proof.
  intros env options db e Hc He.
  assert (Hcheck : isPostProcessed env (opt_url options) db =
      (Val false, db, check_events env (opt_url options))).
  { rewrite isPostProcessed_run by assumption. now rewrite He. }
  split; [|split; [|split]].
  - rewrite Hcheck. unfold check_events. now rewrite He.
  - intros env' db' Hc' He' Hno.
    rewrite Hcheck, isPostProcessed_run by assumption. rewrite He'.
    destruct (success_recorded _ _) eqn:E; [|reflexivity].
    apply success_recorded_spec in E. contradiction.
  - intros Hr.
    unfold process, tweet_pipeline in Hr.
    rewrite try_catch_run, bind_run, Hcheck in Hr.
    pose proof (tweet_rest_exits env options db) as Hx.
    destruct (tweet_rest URL_new pe env options db) as [[[o|e'|o] db2] ev2];
      cbn [prepend result fst] in Hr.
    + discriminate Hr.
    + unfold tweet_catch in Hr. rewrite !bind_run in Hr. cbn in Hr.
      discriminate Hr.
    + injection Hr as ->. specialize (Hx AlreadyProcessed eq_refl).
      discriminate Hx.
  - intros urlObj Hu.
    destruct (tweet_rest_valid env options db urlObj Hu)
      as (ex & evX & Hx & Hev & Hrest).
    exists ex, evX. split; [exact Hx|].
    assert (Hpipe : tweet_pipeline URL_new pe env options db =
              prepend (check_events env (opt_url options) ++ evX)
                (tweet_publish env options (opt_url options)
                   (platform_tag urlObj)
                   (post_data (opt_url options) (platform_tag urlObj) ex
                              (opt_username options))
                   (message_of pe (platform_tag urlObj)
                               (opt_username options) (opt_message options))
                   db)).
    { unfold tweet_pipeline. rewrite bind_run, Hcheck, Hrest.
      now rewrite prepend_prepend. }
    split; [exact Hpipe|].
    intros Hd Hlen.
    destruct (try_catch_events (tweet_pipeline URL_new pe env options)
                tweet_catch db) as (tail & Ht).
    unfold process. rewrite Ht, Hpipe, events_prepend.
    destruct (tweet_publish_live_calls env options (opt_url options)
                (platform_tag urlObj)
                (post_data (opt_url options) (platform_tag urlObj) ex
                           (opt_username options))
                _ db Hd Hlen) as (tl & Htl).
    rewrite Htl. rewrite !in_app_iff. left. right. now left.
Qed.


Ltac in_list :=
  unfold dry_run_report, posted_report, catch_report;
  rewrite ?in_app_iff; cbn [In]; auto 20.

Lemma check_false env url db :
  collection_set db = true ->
  ~ holds_success url (docs db) ->
  isPostProcessed env url db = (Val false, db, check_events env url).
Proof.
  intros Hc Hno. rewrite isPostProcessed_run by assumption.
  destruct (findOne_error env); [reflexivity|].
  destruct (success_recorded _ _) eqn:E; [|reflexivity].
  apply success_recorded_spec in E. contradiction.
Qed.

Lemma tweet_publish_dry_run env options url platform postData message db :
  opt_dryRun options = true ->
  collection_set db = true ->
  insertOne_error env = None ->
  tweet_publish env options url platform postData message db =
    let document := dry_document (post_of env url platform postData (Some false)) in
    if url_stored url (docs db)
    then (Val DryRunRecorded, db,
          [EvInsertOne document;
           EvLog LWarn (js "Post already exists: " ++ url)]
          ++ dry_run_report message)
    else (Val DryRunRecorded, mkDatabase true (docs db ++ [document]),
          [EvInsertOne document;
           EvLog LInfo (js "Saved processed post: " ++ url)]
          ++ dry_run_report message).
Proof.
  intros Hd Hc Hi. unfold tweet_publish. rewrite Hd.
  rewrite bind_run, saveProcessedPost_run by assumption. rewrite Hi.
  cbn [pp_url post_of].
  destruct (url_stored url (docs db)); reflexivity.
Qed.

Lemma tweet_publish_live_run env options url platform postData message db :
  opt_dryRun options = false ->
  exists tr evT,
    postTweet env message None db = (Val tr, db, evT)
    /\ Forall (fun e => store_access e = false) evT
    /\ (tr_success tr = true ->
        exists tweetId,
          v2_tweet env message None = inr (Some tweetId)
          /\ tr = posted_result tweetId
          /\ evT = [EvApiTweet message None;
                    EvLog LInfo (js "Tweet posted successfully. ID: " ++ tweetId)])
    /\ (forall e, v2_tweet env message None = inl e ->
                  has_code e 429 = true ->
                  List.length message <= PROCESSING_CONFIG_MAX_TWEET_LENGTH ->
                  tr = rate_limit_result)
    /\ tweet_publish env options url platform postData message db =
         if tr_success tr then
           match saveSuccessfulPost env (post_of env url platform postData None)
                   (tr_tweet_id tr) (tr_tweet_url tr) db with
           | (Val _, db2, evS) => (Val Posted, db2, evT ++ evS ++ posted_report tr)
           | (Throw e, db2, evS) => (Throw e, db2, evT ++ evS)
           | (Exit o, db2, evS) => (Exit o, db2, evT ++ evS)
           end
         else (Exit PostFailed, db,
               evT ++ [EvSpinnerFail (show_opt (tr_error tr))]).
Proof.
  intros Hd. unfold tweet_publish. rewrite Hd. rewrite bind_run.
  rewrite postTweet_run.
  destruct (Nat.ltb _ _) eqn:Hlt;
    [|destruct (v2_tweet env message None) as [e|[tweetId|]] eqn:Hv;
      [destruct (has_code e 429) eqn:Hcode| |]];
    eexists; eexists; (split; [reflexivity|]);
    (split; [repeat constructor|]).
  - split; [discriminate|]. split.
    + intros e _ _ Hlen. apply Nat.ltb_lt in Hlt. lia.
    + reflexivity.
  - split; [discriminate|]. split; [reflexivity|reflexivity].
  - split; [discriminate|]. split.
    + intros e0 [= <-] H. congruence.
    + reflexivity.
  - split; [intros _; exists tweetId; auto|]. split; [discriminate|].
    cbn [tr_success posted_result]. rewrite bind_run.
    destruct (saveSuccessfulPost _ _ _ _ db) as [[[u|e|o] db2] evS];
      reflexivity.
  - split; [discriminate|]. split; [discriminate|reflexivity].
Qed.

Lemma extraction_not_posting evs :
  Forall (fun e => extraction_event e = true) evs ->
  Forall (fun e => posting_call e = false) evs
  /\ Forall (fun e => failure_report e = false) evs
  /\ Forall (fun e => store_write e = false) evs.
Proof.
  intros H. repeat split; (eapply Forall_impl; [|exact H]);
    intros []; cbn; congruence.
Qed.

Lemma check_events_quiet env url :
  Forall (fun e => posting_call e = false) (check_events env url)
  /\ Forall (fun e => failure_report e = false) (check_events env url)
  /\ Forall (fun e => store_write e = false) (check_events env url).
Proof.
  unfold check_events. destruct (findOne_error env); repeat constructor.
Qed.

Lemma process_dry_run env options db urlObj :
  opt_dryRun options = true ->
  collection_set db = true ->
  URL_new (opt_url options) = Some urlObj ->
  ~ holds_success (opt_url options) (docs db) ->
  insertOne_error env = None ->
  exists ex evX,
    Forall (fun e => extraction_event e = true) evX
    /\ process URL_new pe env options db
       = prepend (check_events env (opt_url options) ++ evX)
           (let document :=
              dry_document
                (post_of env (opt_url options) (platform_tag urlObj)
                   (post_data (opt_url options) (platform_tag urlObj) ex
                              (opt_username options))
                   (Some false)) in
            let message :=
              message_of pe (platform_tag urlObj) (opt_username options)
                         (opt_message options) in
            if url_stored (opt_url options) (docs db)
            then (Val DryRunRecorded, db,
                  [EvInsertOne document;
                   EvLog LWarn (js "Post already exists: " ++ opt_url options)]
                  ++ dry_run_report message)
            else (Val DryRunRecorded,
                  mkDatabase true (docs db ++ [document]),
                  [EvInsertOne document;
                   EvLog LInfo (js "Saved processed post: " ++ opt_url options)]
                  ++ dry_run_report message)).
Proof.
  intros Hd Hc Hu Hno Hi.
  destruct (tweet_rest_valid env options db urlObj Hu)
    as (ex & evX & Hx & Hev & Hrest).
  exists ex, evX. split; [exact Hev|].
  rewrite (process_unblocked env options db _ (check_false env _ db Hc Hno)).
  rewrite Hrest, tweet_publish_dry_run by assumption.
  cbv zeta. destruct (url_stored (opt_url options) (docs db));
    cbn [prepend]; now rewrite app_assoc.
Qed.

Lemma url_stored_app url ds d :
  pp_url d = url -> url_stored url (ds ++ [d]) = true.
Proof.
  intros H. unfold url_stored. rewrite existsb_app. cbn.
  rewrite H, eqb_refl. now rewrite orb_true_r.
Qed.

Lemma holds_success_app url ds d :
  pp_success d <> Some true ->
  holds_success url (ds ++ [d]) -> holds_success url ds.
Proof.
  intros Hd (x & Hin & Hu & Hs). apply in_app_iff in Hin as [Hin|[<-|[]]].
  - now exists x.
  - contradiction.
Qed.

(** C4.  Dry runs.  For a URL that parses and that the store does not
    hold as a success, with a store whose inserts work, a dry run ends
    in [DryRunRecorded] without a call of the posting API and leaves a
    record of the URL that is never a success: a new record with
    [success = false] when the URL had none.  A second dry run in a row
    ends in [DryRunRecorded] too: its insert breaks the unique index,
    the failure is logged as a warning, the store stays as it was and
    no failure is shown. *)
Theorem dry_run_twice :
  forall (env1 env2 : Env) (options : TweetOptions) (db : Database)
         (urlObj : URL),
    opt_dryRun options = true ->
    collection_set db = true ->
    URL_new (opt_url options) = Some urlObj ->
    ~ holds_success (opt_url options) (docs db) ->
    insertOne_error env1 = None ->
    insertOne_error env2 = None ->
    exists db1 ev1 ev2,
      process URL_new pe env1 options db = (Val DryRunRecorded, db1, ev1)
      /\ process URL_new pe env2 options db1 = (Val DryRunRecorded, db1, ev2)
      /\ url_stored (opt_url options) (docs db1) = true
      /\ ~ holds_success (opt_url options) (docs db1)
      /\ (url_stored (opt_url options) (docs db) = false ->
          exists d, docs db1 = docs db ++ [d]
                    /\ pp_url d = opt_url options
                    /\ pp_success d = Some false
                    /\ In (EvInsertOne d) ev1)
      /\ Forall (fun e => posting_call e = false) (ev1 ++ ev2)
      /\ (exists d, In (EvInsertOne d) ev2
                    /\ pp_url d = opt_url options
                    /\ pp_success d = Some false)
      /\ In (EvLog LWarn (js "Post already exists: " ++ opt_url options)) ev2
      /\ In (EvSpinnerSucceed SUCCESS_MESSAGES_DRY_RUN) ev1
      /\ In (EvSpinnerSucceed SUCCESS_MESSAGES_DRY_RUN) ev2
      /\ Forall (fun e => failure_report e = false) (ev1 ++ ev2).
Proof.
  intros env1 env2 options db urlObj Hd Hc Hu Hno Hi1 Hi2.
  destruct (process_dry_run env1 options db urlObj Hd Hc Hu Hno Hi1)
    as (ex1 & evX1 & Hev1 & Hrun1).
  cbv zeta in Hrun1.
  set (doc1 := dry_document
                 (post_of env1 (opt_url options) (platform_tag urlObj)
                    (post_data (opt_url options) (platform_tag urlObj) ex1
                               (opt_username options)) (Some false))) in *.
  destruct (extraction_not_posting _ Hev1) as (Hp1 & Hf1 & _).
  destruct (check_events_quiet env1 (opt_url options)) as (Hcp1 & Hcf1 & _).
  destruct (check_events_quiet env2 (opt_url options)) as (Hcp2 & Hcf2 & _).
  set (db1 := if url_stored (opt_url options) (docs db) then db
              else mkDatabase true (docs db ++ [doc1])).
  assert (Hc1 : collection_set db1 = true).
  { unfold db1. now destruct (url_stored _ _). }
  assert (Hs1 : url_stored (opt_url options) (docs db1) = true).
  { unfold db1. destruct (url_stored _ _) eqn:Hs; [exact Hs|].
    now apply url_stored_app. }
  assert (Hno1 : ~ holds_success (opt_url options) (docs db1)).
  { unfold db1. destruct (url_stored _ _); [exact Hno|].
    intros H. apply Hno. eapply holds_success_app; [|exact H].
    discriminate. }
  destruct (process_dry_run env2 options db1 urlObj Hd Hc1 Hu Hno1 Hi2)
    as (ex2 & evX2 & Hev2 & Hrun2).
  cbv zeta in Hrun2. rewrite Hs1 in Hrun2. cbn [prepend] in Hrun2.
  destruct (extraction_not_posting _ Hev2) as (Hp2 & Hf2 & _).
  assert (Hrun1' : exists lvl text,
    process URL_new pe env1 options db =
      (Val DryRunRecorded, db1,
       check_events env1 (opt_url options) ++ evX1
       ++ [EvInsertOne doc1; EvLog lvl text]
       ++ dry_run_report
            (message_of pe (platform_tag urlObj) (opt_username options)
               (opt_message options)))).
  { rewrite Hrun1. unfold db1.
    destruct (url_stored (opt_url options) (docs db));
      eexists; eexists; cbn [prepend];
      rewrite <- app_assoc; reflexivity. }
  destruct Hrun1' as (lvl & text & Hrun1').
  rewrite <- app_assoc in Hrun2.
  eexists; eexists; eexists.
  split; [exact Hrun1'|]. split; [exact Hrun2|].
  split; [exact Hs1|]. split; [exact Hno1|].
  split.
  { intros Hs. exists doc1. unfold db1. rewrite Hs. cbn [docs].
    repeat split. in_list. }
  split.
  { rewrite !Forall_app; repeat split; auto; repeat constructor. }
  split.
  { exists (dry_document
              (post_of env2 (opt_url options) (platform_tag urlObj)
                 (post_data (opt_url options) (platform_tag urlObj) ex2
                            (opt_username options)) (Some false))).
    split; [in_list|split; reflexivity]. }
  split; [in_list|]. split; [in_list|]. split; [in_list|].
  rewrite !Forall_app; repeat split; auto; repeat constructor.
Qed.

Lemma insert_not_in l d :
  Forall (fun e => store_write e = false) l -> ~ In (EvInsertOne d) l.
Proof.
  intros H Hin. rewrite Forall_forall in H. specialize (H _ Hin).
  discriminate H.
Qed.

Lemma access_write l :
  Forall (fun e => store_access e = false) l ->
  Forall (fun e => store_write e = false) l.
Proof.
  intros H. eapply Forall_impl; [|exact H]. intros []; cbn; congruence.
Qed.

(** A live run, case by case. *)
Lemma process_live_cases env options db :
  opt_dryRun options = false ->
  (Forall (fun e => store_write e = false)
          (events (process URL_new pe env options db))
   /\ final_db (process URL_new pe env options db) = db
   /\ (result (process URL_new pe env options db) = Exit PostFailed ->
       exists pre message tr evT,
         postTweet env message None db = (Val tr, db, evT)
         /\ tr_success tr = false
         /\ events (process URL_new pe env options db)
            = pre ++ evT ++ [EvSpinnerFail (show_opt (tr_error tr))]
         /\ (forall e, v2_tweet env message None = inl e ->
                       has_code e 429 = true ->
                       List.length message <= PROCESSING_CONFIG_MAX_TWEET_LENGTH ->
                       tr = rate_limit_result)))
  \/ (exists pre post message tweetId d,
         events (process URL_new pe env options db)
           = pre ++ EvApiTweet message None
                 :: EvLog LInfo (js "Tweet posted successfully. ID: " ++ tweetId)
                 :: EvInsertOne d :: post
         /\ v2_tweet env message None = inr (Some tweetId)
         /\ Forall (fun e => store_write e = false) pre
         /\ Forall (fun e => store_write e = false) post
         /\ pp_url d = opt_url options
         /\ pp_success d = Some true
         /\ pp_tweet d
            = Some {| tw_id := Some tweetId;
                      tw_url := Some (js "https://twitter.com/user/status/"
                                      ++ tweetId);
                      tw_postedAt := now env |}
         /\ result (process URL_new pe env options db) <> Exit PostFailed).
Proof.
  intros Hd.
  destruct (collection_set db) eqn:Hc.
  2:{ left. rewrite process_unset by assumption.
      split; [repeat constructor|]. split; [reflexivity|discriminate]. }
  pose proof (isPostProcessed_run env (opt_url options) db Hc) as Hcheck.
  destruct (check_events_quiet env (opt_url options)) as (_ & _ & Hcw).
  destruct (match findOne_error env with
            | Some _ => false
            | None => success_recorded (opt_url options) (docs db)
            end).
  { left. rewrite (process_blocked env options db _ Hcheck).
    split; [|split; [reflexivity|discriminate]].
    cbn [events snd]. rewrite Forall_app.
    split; [exact Hcw|repeat constructor]. }
  rewrite (process_unblocked env options db _ Hcheck).
  destruct (URL_new (opt_url options)) as [urlObj|] eqn:Hu.
  2:{ left. rewrite tweet_rest_invalid by assumption.
      split; [|split; [reflexivity|discriminate]].
      cbn [events snd]. rewrite !Forall_app.
      split; [exact Hcw|repeat constructor]. }
  destruct (tweet_rest_valid env options db urlObj Hu)
    as (ex & evX & Hx & Hev & Hrest).
  destruct (extraction_not_posting _ Hev) as (_ & _ & Hxw).
  rewrite Hrest.
  destruct (tweet_publish_live_run env options (opt_url options)
              (platform_tag urlObj)
              (post_data (opt_url options) (platform_tag urlObj) ex
                         (opt_username options))
              (message_of pe (platform_tag urlObj) (opt_username options)
                          (opt_message options)) db Hd)
    as (tr & evT & Hpost & HevT & Hok & Hrate & Hpub).
  apply access_write in HevT.
  rewrite Hpub. clear Hpub Hrest.
  destruct (tr_success tr) eqn:Hs.
  - right. destruct (Hok eq_refl) as (tweetId & Hv & -> & ->).
    rewrite saveSuccessfulPost_run by assumption. cbv zeta.
    cbn [tr_tweet_id tr_tweet_url posted_result].
    set (d := success_document env _ _ _).
    exists (check_events env (opt_url options) ++ evX).
    assert (Hpre : Forall (fun e => store_write e = false)
                     (check_events env (opt_url options) ++ evX))
      by (rewrite Forall_app; auto).
    destruct (insertOne_error env) as [e|];
      [destruct (has_code e 11000)
      |destruct (url_stored _ (docs db))];
      cbn [prepend events result snd fst];
      eexists; exists (message_of pe (platform_tag urlObj)
                         (opt_username options) (opt_message options));
      exists tweetId, d;
      (split; [rewrite <- !app_assoc; reflexivity|]);
      (split; [exact Hv|]); (split; [exact Hpre|]);
      (split; [repeat constructor|]);
      repeat split; discriminate.
  - left. cbn [prepend events result final_db snd fst].
    split; [|split; [reflexivity|]].
    + rewrite !Forall_app. repeat split; auto; repeat constructor.
    + intros _.
      exists (check_events env (opt_url options) ++ evX),
        (message_of pe (platform_tag urlObj) (opt_username options)
                    (opt_message options)), tr, evT.
      split; [exact Hpost|]. split; [exact Hs|].
      split; [now rewrite <- !app_assoc|exact Hrate].
Qed.

Lemma postTweet_result env message db tr evT :
  postTweet env message None db = (Val tr, db, evT) ->
  Forall (fun e => store_write e = false) evT
  /\ (tr_success tr = true ->
      exists tweetId,
        v2_tweet env message None = inr (Some tweetId)
        /\ tr = posted_result tweetId
        /\ evT = [EvApiTweet message None;
                  EvLog LInfo (js "Tweet posted successfully. ID: "
                               ++ tweetId)])
  /\ (forall e,
        v2_tweet env message None = inl e ->
        has_code e 429 = true ->
        List.length message <= PROCESSING_CONFIG_MAX_TWEET_LENGTH ->
        tr = rate_limit_result).
Proof.
  rewrite postTweet_run.
  destruct (Nat.ltb PROCESSING_CONFIG_MAX_TWEET_LENGTH (List.length message))
    eqn:Hlt.
  - intros H. injection H as <- <-. apply Nat.ltb_lt in Hlt.
    split; [constructor|]. split; [discriminate|]. intros; lia.
  - destruct (v2_tweet env message None) as [e|[tweetId|]];
      [destruct (has_code e 429) eqn:Hc| |];
      intros H; injection H as <- <-;
      (split; [repeat constructor|]); (split; [try discriminate|]);
      try (intros e' He'; discriminate He').
    + intros e' He' _ _. reflexivity.
    + intros e' He' Hc' _. injection He' as <-. congruence.
    + intros _. exists tweetId. repeat split.
Qed.

(** C2.  In a live run a record reaches the store only after the
    posting client has reported success, and a failure of the client
    ends the run with its error shown and nothing written.

    Only after: every insert of the run comes right after the call of
    the posting API that returned a post identifier, and the record
    inserted is the success record of this URL with that post.

    Failure: when the run reaches the posting client (the store is
    connected, the URL parses and is not held as a success) and
    [postTweet] on the composed message returns a result that is not a
    success, the run ends in [PostFailed], the store is as it was, no
    insert is attempted, the failure shown is the error of that result
    (the rate-limit message, with [retry_after] 900, when the API
    answered with code 429), and a later run on the same URL is not
    blocked by the duplicate check.

    Success: when [postTweet] on the composed message returns a
    success, the next access to the store is the insert of the success
    record of this URL, the run does not end in [PostFailed], and with
    inserts that work it ends in [Posted]. *)
Theorem record_only_after_post :
  forall (env : Env) (options : TweetOptions) (db : Database),
    opt_dryRun options = false ->
    (forall d,
        In (EvInsertOne d) (events (process URL_new pe env options db)) ->
        exists pre post message tweetId,
          events (process URL_new pe env options db)
            = pre ++ EvApiTweet message None
                  :: EvLog LInfo (js "Tweet posted successfully. ID: "
                                  ++ tweetId)
                  :: EvInsertOne d :: post
          /\ v2_tweet env message None = inr (Some tweetId)
          /\ Forall (fun e => store_write e = false) pre
          /\ pp_url d = opt_url options
          /\ pp_success d = Some true
          /\ pp_tweet d
             = Some {| tw_id := Some tweetId;
                       tw_url := Some (js "https://twitter.com/user/status/"
                                       ++ tweetId);
                       tw_postedAt := now env |})
    /\ (forall (urlObj : URL) (tr : TweetResult) (evT : list Event),
          collection_set db = true ->
          URL_new (opt_url options) = Some urlObj ->
          ~ holds_success (opt_url options) (docs db) ->
          postTweet env
            (message_of pe (platform_tag urlObj) (opt_username options)
                        (opt_message options)) None db
            = (Val tr, db, evT) ->
          tr_success tr = false ->
          exists pre,
            process URL_new pe env options db
              = (Exit PostFailed, db,
                 pre ++ evT ++ [EvSpinnerFail (show_opt (tr_error tr))])
            /\ Forall (fun e => store_write e = false)
                      (events (process URL_new pe env options db))
            /\ Forall (fun e => posting_call e = false) pre
            /\ (forall e,
                  v2_tweet env
                    (message_of pe (platform_tag urlObj)
                                (opt_username options) (opt_message options))
                    None = inl e ->
                  has_code e 429 = true ->
                  List.length
                    (message_of pe (platform_tag urlObj)
                                (opt_username options) (opt_message options))
                    <= PROCESSING_CONFIG_MAX_TWEET_LENGTH ->
                  show_opt (tr_error tr) = ERROR_MESSAGES_RATE_LIMIT
                  /\ tr_retry_after tr = Some 900%N)
            /\ (forall env' options',
                  opt_url options' = opt_url options ->
                  result (process URL_new pe env' options'
                            (final_db (process URL_new pe env options db)))
                    <> Exit AlreadyProcessed))
    /\ (forall (urlObj : URL) (tr : TweetResult) (evT : list Event),
          collection_set db = true ->
          URL_new (opt_url options) = Some urlObj ->
          ~ holds_success (opt_url options) (docs db) ->
          postTweet env
            (message_of pe (platform_tag urlObj) (opt_username options)
                        (opt_message options)) None db
            = (Val tr, db, evT) ->
          tr_success tr = true ->
          exists pre d post,
            events (process URL_new pe env options db)
              = pre ++ evT ++ EvInsertOne d :: post
            /\ Forall (fun e => store_write e = false) (pre ++ evT)
            /\ pp_url d = opt_url options
            /\ pp_success d = Some true
            /\ result (process URL_new pe env options db) <> Exit PostFailed
            /\ (insertOne_error env = None ->
                result (process URL_new pe env options db) = Val Posted)).
Proof.
  intros env options db Hd. split; [|split].
  - destruct (process_live_cases env options db Hd)
      as [(Hw & Hdb & Hfail)
         |(pre & post & message & tweetId & d0 & Hev & Hv & Hpre & Hpost
           & Hu & Hs & Ht & Hnf)].
    + intros d Hin. exfalso. exact (insert_not_in _ d Hw Hin).
    + intros d Hin. rewrite Hev in Hin.
      assert (d = d0) as ->.
      { apply in_app_iff in Hin as [Hin|[Hin|[Hin|[Hin|Hin]]]].
        - exfalso. exact (insert_not_in _ d Hpre Hin).
        - discriminate Hin.
        - discriminate Hin.
        - now injection Hin.
        - exfalso. exact (insert_not_in _ d Hpost Hin). }
      exists pre, post, message, tweetId. auto 10.
  - intros urlObj tr evT Hc Hu Hno Hpost Hfail.
    destruct (tweet_rest_valid env options db urlObj Hu)
      as (ex & evX & _ & HevX & Hrest).
    destruct (postTweet_result _ _ _ _ _ Hpost) as (HwT & _ & Hrate).
    assert (Hrun : process URL_new pe env options db
                   = (Exit PostFailed, db,
                      (check_events env (opt_url options) ++ evX) ++ evT
                      ++ [EvSpinnerFail (show_opt (tr_error tr))])).
    { rewrite (process_unblocked env options db _
                 (check_false env _ db Hc Hno)).
      rewrite Hrest. unfold tweet_publish. rewrite Hd.
      rewrite bind_run, Hpost. cbn [prepend]. rewrite Hfail.
      rewrite bind_run. cbn [spinner_fail emit prepend exit app].
      now rewrite <- !app_assoc. }
    exists (check_events env (opt_url options) ++ evX).
    split; [exact Hrun|]. rewrite Hrun. cbn [events final_db fst snd].
    split; [|split; [|split]].
    + repeat (apply Forall_app; split);
        first [ apply check_events_quiet
              | now apply extraction_not_posting
              | exact HwT
              | repeat constructor ].
    + apply Forall_app. split;
        [apply check_events_quiet|now apply extraction_not_posting].
    + intros e He Hcode Hlen. rewrite (Hrate e He Hcode Hlen).
      split; reflexivity.
    + intros env' options' Hurl Hblocked.
      apply process_blocked_only in Hblocked. rewrite Hurl in Hblocked.
      contradiction.
  - intros urlObj tr evT Hc Hu Hno Hpost Hsucc.
    destruct (tweet_rest_valid env options db urlObj Hu)
      as (ex & evX & _ & HevX & Hrest).
    destruct (postTweet_result _ _ _ _ _ Hpost) as (HwT & _ & _).
    exists (check_events env (opt_url options) ++ evX).
    exists (success_document env
              (post_of env (opt_url options) (platform_tag urlObj)
                 (post_data (opt_url options) (platform_tag urlObj) ex
                            (opt_username options)) None)
              (tr_tweet_id tr) (tr_tweet_url tr)).
    assert (Hquiet : Forall (fun e => store_write e = false)
                       ((check_events env (opt_url options) ++ evX) ++ evT)).
    { repeat (apply Forall_app; split);
        first [ apply check_events_quiet
              | now apply extraction_not_posting
              | exact HwT ]. }
    rewrite (process_unblocked env options db _
               (check_false env _ db Hc Hno)).
    rewrite Hrest. unfold tweet_publish. rewrite Hd.
    rewrite bind_run, Hpost. cbn [prepend]. rewrite Hsucc.
    rewrite bind_run, saveSuccessfulPost_run by exact Hc.
    cbv zeta. cbn [pp_url post_of].
    destruct (insertOne_error env) as [e|];
      [destruct (has_code e 11000)
      |destruct (url_stored (opt_url options) (docs db))];
      cbn [prepend]; rewrite ?bind_run; cbn [spinner_succeed emit prepend];
      rewrite ?bind_run; cbn [console_log emit ret prepend app];
      cbn [events result fst snd];
      eexists;
      (split; [rewrite <- !app_assoc; cbn [app]; reflexivity|]);
      (split; [exact Hquiet|]);
      (split; [reflexivity|]); (split; [reflexivity|]);
      (split; [discriminate|]);
      first [ intros _; reflexivity | intros H; discriminate H ].
Qed.


Lemma refines_prepend c evb evt b t :
  refines c b t -> refines c (prepend evb b) (prepend evt t).
Proof.
  unfold refines. now rewrite !final_db_prepend, !result_prepend.
Qed.

Lemma refines_throw c e db evb evt :
  refines c (Throw e, db, evb) (Throw e, db, evt).
Proof. split; reflexivity. Qed.

(** The posting branch of the batch loop against that of the [tweet]
    action. *)
Lemma publish_refines env options total url purl platform postData message c db :
  refines c
    (batch_publish env options total url purl platform postData message c db)
    (tweet_publish env (batch_options_as_tweet options url) purl platform
       postData message db).
Proof.
  unfold batch_publish, tweet_publish.
  cbn [batch_options_as_tweet opt_dryRun].
  destruct (bopt_dryRun options); cbn [negb].
  - rewrite !bind_run.
    pose proof (saveProcessedPost_no_exit (fun _ => False) env
                  (post_of env purl platform postData (Some false)) db) as Hx.
    destruct (saveProcessedPost env _ db) as [[[u|e|o] db1] ev1].
    + split; reflexivity.
    + apply refines_throw.
    + exfalso. exact (Hx o eq_refl).
  - rewrite !bind_run.
    pose proof (postTweet_no_exit (fun _ => False) env message None db) as Hx.
    destruct (postTweet env message None db) as [[[tr|e|o] db1] ev1].
    2:{ apply refines_throw. }
    2:{ exfalso. exact (Hx o eq_refl). }
    apply refines_prepend. clear Hx.
    destruct (tr_success tr).
    + rewrite !bind_run.
      pose proof (saveSuccessfulPost_no_exit (fun _ => False) env
                    (post_of env purl platform postData None)
                    (tr_tweet_id tr) (tr_tweet_url tr) db1) as Hx.
      destruct (saveSuccessfulPost env _ _ _ db1) as [[[u|e|o] db2] ev2].
      * cbn [ret prepend processed]. rewrite !bind_run.
        destruct (Nat.ltb _ total); split; reflexivity.
      * apply refines_throw.
      * exfalso. exact (Hx o eq_refl).
    + rewrite !bind_run.
      cbn [logger_error emit spinner_fail ret prepend processed].
      rewrite !bind_run.
      destruct (Nat.ltb _ total); split; reflexivity.
Qed.

Lemma rest_refines env options total url c db :
  refines c
    (batch_rest URL_new pe env options total url c db)
    (tweet_rest URL_new pe env (batch_options_as_tweet options url) db).
Proof.
  unfold batch_rest, tweet_rest.
  cbn [batch_options_as_tweet opt_url opt_username opt_message].
  rewrite !bind_run.
  pose proof (processUrl_no_exit (fun _ => False) env url
                (bopt_username options) db) as Hx.
  destruct (processUrl URL_new env url (bopt_username options) db)
    as [[[pd|e|o] db1] ev1].
  2:{ apply refines_throw. }
  2:{ exfalso. exact (Hx o eq_refl). }
  apply refines_prepend. clear Hx.
  destruct (pd_platform pd) as [platform|]; [|apply refines_throw].
  destruct (pd_url pd) as [purl|]; [|apply refines_throw].
  destruct (_ || _); [apply refines_throw|].
  rewrite !bind_run.
  pose proof (compose_no_exit (fun _ => False) platform
                (pd_suremark_username pd) None db1) as Hx.
  destruct (compose pe platform (pd_suremark_username pd) None db1)
    as [[[message|e|o] db2] ev2].
  2:{ apply refines_throw. }
  2:{ exfalso. exact (Hx o eq_refl). }
  apply refines_prepend. apply publish_refines.
Qed.

(** One turn of the batch loop against [process] on the same store. *)
Lemma batch_item_refines env options total url c db :
  exists evs,
    batch_item URL_new pe env options total url c db =
      (Val (tally (outcome_of
                     (result (process URL_new pe env
                                (batch_options_as_tweet options url) db)))
                  c),
       final_db (process URL_new pe env (batch_options_as_tweet options url) db),
       evs).
Proof.
  unfold batch_item, process, tweet_pipeline.
  rewrite !try_catch_run, !bind_run.
  cbn [batch_options_as_tweet opt_url].
  pose proof (isPostProcessed_no_exit (fun _ => False) env url db) as Hx1.
  destruct (isPostProcessed env url db) as [[[b|e|o] db1] ev1].
  2:{ cbn [prepend]. unfold tweet_catch. rewrite !bind_run.
      cbn. eexists; reflexivity. }
  2:{ exfalso. exact (Hx1 o eq_refl). }
  clear Hx1. destruct b.
  { cbn. eexists; reflexivity. }
  destruct (rest_refines env options total url c db1) as [Hdb Hres].
  destruct (batch_rest URL_new pe env options total url c db1)
    as [[rb dbb] evb].
  destruct (tweet_rest URL_new pe env (batch_options_as_tweet options url) db1)
    as [[rt dbt] evt].
  cbn [final_db result fst snd] in Hdb, Hres. subst dbb.
  destruct rt as [o|e|o]; subst rb; cbn [prepend].
  - eexists; reflexivity.
  - unfold tweet_catch. rewrite !bind_run. cbn. eexists; reflexivity.
  - eexists; reflexivity.
Qed.

Lemma batch_loop_refines envs options total urls :
  forall i c db,
  exists evs,
    batch_loop URL_new pe envs options total i urls c db =
      (Val (fst (runBatch_by_outcome URL_new pe envs options i urls db c)),
       snd (runBatch_by_outcome URL_new pe envs options i urls db c),
       evs).
Proof.
  induction urls as [|url rest IH]; intros i c db.
  - exists []. reflexivity.
  - cbn [batch_loop runBatch_by_outcome]. rewrite bind_run.
    destruct (batch_item_refines (envs i) options total url c db)
      as (ev1 & ->).
    destruct (IH (S i)
                (tally (outcome_of
                          (result (process URL_new pe (envs i)
                                     (batch_options_as_tweet options url) db)))
                       c)
                (final_db (process URL_new pe (envs i)
                             (batch_options_as_tweet options url) db)))
      as (ev2 & ->).
    exists (ev1 ++ ev2). reflexivity.
Qed.

Lemma tally_total o c :
  processed (tally o c) + skipped (tally o c) + failed (tally o c)
  = S (processed c + skipped c + failed c).
Proof. destruct o; cbn; lia. Qed.

Lemma runBatch_by_outcome_total envs options urls :
  forall i db c,
    let c' := fst (runBatch_by_outcome URL_new pe envs options i urls db c) in
    processed c' + skipped c' + failed c'
    = processed c + skipped c + failed c + List.length urls.
Proof.
  induction urls as [|url rest IH]; intros i db c; cbn [runBatch_by_outcome].
  - cbn. lia.
  - cbv zeta in IH. rewrite IH, tally_total. cbn [List.length]. lia.
Qed.

Lemma not_stored_not_success url ds :
  url_stored url ds = false -> ~ holds_success url ds.
Proof.
  intros H (d & Hin & Hu & _). unfold url_stored in H.
  assert (Ht : existsb (fun d => eqb (pp_url d) url) ds = true).
  { apply existsb_exists. exists d. split; [exact Hin|].
    rewrite Hu. apply eqb_refl. }
  congruence.
Qed.

Lemma url_stored_other url ds d :
  pp_url d <> url -> url_stored url (ds ++ [d]) = url_stored url ds.
Proof.
  intros H. unfold url_stored. rewrite existsb_app. cbn.
  apply eqb_neq in H. rewrite H. now rewrite !orb_false_r.
Qed.

(** A run on a URL that parses and has no record yet, with a store
    whose inserts work and, in a live run, a posting API that accepts
    the message. *)
Lemma process_fresh env options db urlObj :
  collection_set db = true ->
  URL_new (opt_url options) = Some urlObj ->
  url_stored (opt_url options) (docs db) = false ->
  insertOne_error env = None ->
  (opt_dryRun options = false ->
   List.length (message_of pe (platform_tag urlObj) (opt_username options)
                  (opt_message options))
     <= PROCESSING_CONFIG_MAX_TWEET_LENGTH
   /\ exists tweetId,
        v2_tweet env (message_of pe (platform_tag urlObj)
                        (opt_username options) (opt_message options)) None
        = inr (Some tweetId)) ->
  exists d evs,
    process URL_new pe env options db =
      (Val (if opt_dryRun options then DryRunRecorded else Posted),
       mkDatabase true (docs db ++ [d]), evs)
    /\ pp_url d = opt_url options
    /\ pp_success d = Some (negb (opt_dryRun options)).
Proof.
  intros Hc Hu Hs Hi Hpost.
  pose proof (not_stored_not_success _ _ Hs) as Hno.
  destruct (opt_dryRun options) eqn:Hd.
  - destruct (process_dry_run env options db urlObj Hd Hc Hu Hno Hi)
      as (ex & evX & _ & Hrun).
    cbv zeta in Hrun. rewrite Hs in Hrun. cbn [prepend] in Hrun.
    eexists; eexists. split; [exact Hrun|]. split; reflexivity.
  - destruct (Hpost eq_refl) as (Hlen & tweetId & Hv).
    destruct (tweet_rest_valid env options db urlObj Hu)
      as (ex & evX & _ & _ & Hrest).
    rewrite (process_unblocked env options db _ (check_false env _ db Hc Hno)).
    rewrite Hrest. unfold tweet_publish. rewrite Hd.
    rewrite bind_run, postTweet_run.
    assert (Hlt : Nat.ltb PROCESSING_CONFIG_MAX_TWEET_LENGTH
                    (List.length (message_of pe (platform_tag urlObj)
                                    (opt_username options)
                                    (opt_message options))) = false)
      by (apply Nat.ltb_ge; exact Hlen).
    rewrite Hlt, Hv. cbn [prepend tr_success posted_result].
    rewrite bind_run, saveSuccessfulPost_run by assumption.
    cbv zeta. rewrite Hi. cbn [pp_url post_of]. rewrite Hs.
    cbn [prepend]. rewrite !bind_run. cbn [spinner_succeed emit prepend].
    rewrite !bind_run. cbn [console_log emit ret prepend].
    eexists; eexists. split; [reflexivity|]. split; reflexivity.
Qed.

(** C9.  The batch driver.  For every list of URLs the loop of the
    batch action ends with the counters and the store that come from
    taking the URLs in order through [process], each from the store the
    previous one left, and counting [AlreadyProcessed] as skipped,
    [Posted] and [DryRunRecorded] as processed and every other outcome,
    thrown errors included, as failed; no URL stops the loop and the
    three counters add up to the number of URLs.  In particular, for a
    URL that parses, an input that does not and another URL that
    parses, none of them recorded before, with a store whose inserts
    work and, in a live run, a posting API that accepts both messages,
    the counters are 2 processed, 0 skipped and 1 failed and the store
    has gained a record of the first URL and one of the third. *)
Theorem batch_counts_by_outcome :
  (forall (envs : nat -> Env) (options : BatchOptions)
          (urls : list jsstring) (db : Database),
      exists evs,
        runBatch URL_new pe envs options urls db =
          (Val (fst (runBatch_by_outcome URL_new pe envs options 0 urls db
                       (mkCounts 0 0 0))),
           snd (runBatch_by_outcome URL_new pe envs options 0 urls db
                  (mkCounts 0 0 0)),
           evs)
        /\ processed (fst (runBatch_by_outcome URL_new pe envs options 0 urls
                             db (mkCounts 0 0 0)))
           + skipped (fst (runBatch_by_outcome URL_new pe envs options 0 urls
                             db (mkCounts 0 0 0)))
           + failed (fst (runBatch_by_outcome URL_new pe envs options 0 urls
                            db (mkCounts 0 0 0)))
           = List.length urls)
  /\ (forall (envs : nat -> Env) (options : BatchOptions) (db : Database)
             (u1 u2 u3 : jsstring) (o1 o3 : URL),
         collection_set db = true ->
         URL_new u1 = Some o1 ->
         URL_new u2 = None ->
         URL_new u3 = Some o3 ->
         u1 <> u3 ->
         url_stored u1 (docs db) = false ->
         url_stored u3 (docs db) = false ->
         ~ holds_success u2 (docs db) ->
         (forall i, insertOne_error (envs i) = None) ->
         (bopt_dryRun options = false ->
          (List.length (message_of pe (platform_tag o1)
                          (bopt_username options) None)
             <= PROCESSING_CONFIG_MAX_TWEET_LENGTH
           /\ exists tweetId,
                v2_tweet (envs 0) (message_of pe (platform_tag o1)
                                     (bopt_username options) None) None
                = inr (Some tweetId))
          /\ (List.length (message_of pe (platform_tag o3)
                             (bopt_username options) None)
                <= PROCESSING_CONFIG_MAX_TWEET_LENGTH
              /\ exists tweetId,
                   v2_tweet (envs 2) (message_of pe (platform_tag o3)
                                        (bopt_username options) None) None
                   = inr (Some tweetId))) ->
         exists d1 d3 evs,
           runBatch URL_new pe envs options [u1; u2; u3] db =
             (Val (mkCounts 2 0 1), mkDatabase true (docs db ++ [d1; d3]), evs)
           /\ pp_url d1 = u1 /\ pp_url d3 = u3
           /\ pp_success d1 = Some (negb (bopt_dryRun options))
           /\ pp_success d3 = Some (negb (bopt_dryRun options))).
Proof.
  split.
  - intros envs options urls db.
    destruct (batch_loop_refines envs options (List.length urls) urls 0
                (mkCounts 0 0 0) db) as (evs & Hrun).
    exists evs. split; [exact Hrun|].
    pose proof (runBatch_by_outcome_total envs options urls 0 db
                  (mkCounts 0 0 0)) as Ht.
    cbv zeta in Ht. rewrite Ht. reflexivity.
  - intros envs options db u1 u2 u3 o1 o3 Hc H1 H2 H3 Hne Hs1 Hs3 Hno2 Hi Hpost.
    destruct (batch_loop_refines envs options 3 [u1; u2; u3] 0
                (mkCounts 0 0 0) db) as (evs & Hrun).
    unfold runBatch. cbn [List.length]. rewrite Hrun. clear Hrun.
    cbn [runBatch_by_outcome].
    (* first URL *)
    destruct (process_fresh (envs 0) (batch_options_as_tweet options u1)
                db o1 Hc H1 Hs1 (Hi 0)) as (d1 & ev1 & Hr1 & Hu1 & Hd1).
    { cbn [batch_options_as_tweet opt_dryRun opt_username opt_message].
      intros Hd. exact (proj1 (Hpost Hd)). }
    cbn [batch_options_as_tweet opt_dryRun opt_url] in Hr1, Hu1, Hd1.
    rewrite Hr1. cbn [final_db result fst snd].
    set (db1 := mkDatabase true (docs db ++ [d1])).
    (* second input *)
    assert (Hno2' : ~ holds_success u2 (docs db1)).
    { intros (d & Hin & Hu & Hs). apply in_app_iff in Hin as [Hin|[<-|[]]].
      - apply Hno2. now exists d.
      - rewrite Hu1 in Hu. rewrite Hu in H1. congruence. }
    pose proof (process_invalid (envs 1)
                  (batch_options_as_tweet options u2) db1 eq_refl H2 Hno2')
      as Hr2.
    cbn [batch_options_as_tweet opt_url] in Hr2. rewrite Hr2.
    cbn [final_db result fst snd].
    (* third URL *)
    assert (Hs3' : url_stored u3 (docs db1) = false).
    { unfold db1. cbn [docs]. rewrite url_stored_other; [exact Hs3|].
      now rewrite Hu1. }
    destruct (process_fresh (envs 2) (batch_options_as_tweet options u3)
                db1 o3 eq_refl H3 Hs3' (Hi 2)) as (d3 & ev3 & Hr3 & Hu3 & Hd3).
    { cbn [batch_options_as_tweet opt_dryRun opt_username opt_message].
      intros Hd. exact (proj2 (Hpost Hd)). }
    cbn [batch_options_as_tweet opt_dryRun opt_url] in Hr3, Hu3, Hd3.
    rewrite Hr3. cbn [final_db result fst snd db1 docs].
    exists d1, d3, evs. rewrite <- app_assoc. cbn [app].
    split; [|auto].
    destruct (bopt_dryRun options); reflexivity.
Qed.

End Pipeline.

(* ================================================================== *)
(** * The theorems on the sample runtime *)
(* ================================================================== *)

Lemma idempotency_short_circuit_witness :
  holds_success Sample.u3 (docs Sample.db_posted)
  /\ process Sample.URL_new Sample.pe Sample.env
       (Sample.tweet_options Sample.u3 false) Sample.db_posted
     = (Exit AlreadyProcessed, Sample.db_posted,
        [EvFindOne Sample.u3; EvSpinnerFail ERROR_MESSAGES_DUPLICATE_POST]).
Proof.
  assert (H : holds_success Sample.u3 (docs Sample.db_posted)).
  { exists Sample.posted_doc. split; [now left|]. split; reflexivity. }
  split; [exact H|].
  apply (proj1 (idempotency_short_circuit Sample.URL_new Sample.pe Sample.env
                  (Sample.tweet_options Sample.u3 false) Sample.db_posted)).
  - reflexivity.
  - reflexivity.
  - exact H.
Defined.

Lemma record_only_after_post_witness :
  postTweet Sample.env_rate_limited
    (message_of Sample.pe (js "twitter") None None) None Sample.db0
  = (Val rate_limit_result, Sample.db0,
     [EvApiTweet (message_of Sample.pe (js "twitter") None None) None;
      EvLog LWarn (js "Rate limit exceeded")])
  /\ exists pre,
       process Sample.URL_new Sample.pe Sample.env_rate_limited
         (Sample.tweet_options Sample.u3 false) Sample.db0
       = (Exit PostFailed, Sample.db0,
          pre
          ++ [EvApiTweet (message_of Sample.pe (js "twitter") None None) None;
              EvLog LWarn (js "Rate limit exceeded")]
          ++ [EvSpinnerFail ERROR_MESSAGES_RATE_LIMIT])
       /\ Forall (fun e => store_write e = false)
            (events (process Sample.URL_new Sample.pe Sample.env_rate_limited
                       (Sample.tweet_options Sample.u3 false) Sample.db0)).
Proof.
  split; [reflexivity|].
  destruct (proj1 (proj2
              (record_only_after_post Sample.URL_new Sample.pe eq_refl
                 Sample.env_rate_limited
                 (Sample.tweet_options Sample.u3 false) Sample.db0 eq_refl))
              (mkURL (js "x.com") (js "/user/status/42"))
              rate_limit_result
              [EvApiTweet (message_of Sample.pe (js "twitter") None None) None;
               EvLog LWarn (js "Rate limit exceeded")]
              eq_refl eq_refl
              (fun H => match H with
                        | ex_intro _ d (conj Hin _) => Hin
                        end)
              eq_refl eq_refl)
    as (pre & Hrun & Hw & _).
  exists pre. exact (conj Hrun Hw).
Defined.

(** C3, as the specification states it, fails: on the input [not a url]
    the run reads the store before it rejects the input; and the whole
    [tweet] action has by then connected to the store and called the
    posting API to verify the credentials. *)
Lemma input_validation_counterexample :
  isValidUrl Sample.URL_new Sample.u2 = false
  /\ events (process Sample.URL_new Sample.pe Sample.env
               (Sample.tweet_options Sample.u2 false) Sample.db0)
     = [ EvFindOne Sample.u2;
         EvLog LError (js "Error processing URL not a url: Invalid URL provided. Please check the format.");
         EvSpinnerFail (js "Error: Invalid URL provided. Please check the format.");
         EvLog LError (js "Tweet command error: Error: Invalid URL provided. Please check the format.") ]
  /\ existsb store_access
       (events (process Sample.URL_new Sample.pe Sample.env
                  (Sample.tweet_options Sample.u2 false) Sample.db0))
     = true
  /\ filter (fun e => store_access e || network_access e)
       (events (tweet_action Sample.URL_new Sample.pe Sample.env
                  (Sample.tweet_options Sample.u2 false)
                  (mkDatabase false [])))
     = [EvConnect; EvApiMe; EvFindOne Sample.u2].
Proof. repeat split; vm_compute; reflexivity. Qed.

Lemma input_validation_after_check_witness :
  Sample.URL_new Sample.u2 = None
  /\ filter store_access
       (events (process Sample.URL_new Sample.pe Sample.env
                  (Sample.tweet_options Sample.u2 false) Sample.db0))
     = [EvFindOne Sample.u2]
  /\ filter network_access
       (events (process Sample.URL_new Sample.pe Sample.env
                  (Sample.tweet_options Sample.u2 false) Sample.db0))
     = [].
Proof.
  split; [reflexivity|].
  apply (proj2 (input_validation_after_check Sample.URL_new Sample.pe
                  Sample.env (Sample.tweet_options Sample.u2 false)
                  Sample.db0 eq_refl eq_refl
                  (fun H => match H with
                            | ex_intro _ d (conj Hin _) => Hin
                            end))).
Defined.

Lemma dry_run_twice_witness :
  exists db1 ev1 ev2,
    process Sample.URL_new Sample.pe Sample.env
      (Sample.tweet_options Sample.u1 true) Sample.db0
    = (Val DryRunRecorded, db1, ev1)
    /\ process Sample.URL_new Sample.pe Sample.env
         (Sample.tweet_options Sample.u1 true) db1
       = (Val DryRunRecorded, db1, ev2)
    /\ url_stored Sample.u1 (docs db1) = true.
Proof.
  destruct (dry_run_twice Sample.URL_new Sample.pe eq_refl
              Sample.env Sample.env (Sample.tweet_options Sample.u1 true)
              Sample.db0 (mkURL (js "example.com") (js "/a"))
              eq_refl eq_refl eq_refl
              (fun H => match H with
                        | ex_intro _ d (conj Hin _) => Hin
                        end)
              eq_refl eq_refl)
    as (db1 & ev1 & ev2 & H1 & H2 & H3 & _).
  exists db1, ev1, ev2. exact (conj H1 (conj H2 H3)).
Defined.

Lemma batch_counts_by_outcome_witness :
  exists d1 d3 evs,
    runBatch Sample.URL_new Sample.pe (fun _ => Sample.env)
      (mkBatchOptions 30 None false) [Sample.u1; Sample.u2; Sample.u3]
      Sample.db0
    = (Val (mkCounts 2 0 1), mkDatabase true (docs Sample.db0 ++ [d1; d3]), evs)
    /\ pp_url d1 = Sample.u1 /\ pp_url d3 = Sample.u3
    /\ pp_success d1 = Some true /\ pp_success d3 = Some true.
Proof.
  apply (proj2 (batch_counts_by_outcome Sample.URL_new Sample.pe eq_refl)
           (fun _ => Sample.env) (mkBatchOptions 30 None false) Sample.db0
           Sample.u1 Sample.u2 Sample.u3
           (mkURL (js "example.com") (js "/a"))
           (mkURL (js "x.com") (js "/user/status/42"))).
  - reflexivity.
  - reflexivity.
  - reflexivity.
  - reflexivity.
  - discriminate.
  - reflexivity.
  - reflexivity.
  - intros (d & Hin & _). exact Hin.
  - reflexivity.
  - intros _. split; (split; [vm_compute; lia|eexists; reflexivity]).
Defined.

Lemma idempotency_check_fails_open_witness :
  holds_success Sample.u3 (docs Sample.db_posted)
  /\ isPostProcessed Sample.env_read_fails Sample.u3 Sample.db_posted
     = (Val false, Sample.db_posted,
        [EvFindOne Sample.u3;
         EvLog LError (js "Error checking if post is processed: "
                       ++ Err_toString (Error (js "connection closed")))]).
Proof.
  split.
  - exists Sample.posted_doc. split; [now left|]. split; reflexivity.
  - apply (proj1 (idempotency_check_fails_open Sample.URL_new Sample.pe eq_refl
                    Sample.env_read_fails
                    (Sample.tweet_options Sample.u3 false) Sample.db_posted
                    (Error (js "connection closed")) eq_refl eq_refl)).
Defined.

(* ================================================================== *)
(** * The URL file of the batch command *)
(* ================================================================== *)

Lemma trimStart_head s c t :
  trimStart s = c :: t -> is_whitespace c = false.
Proof.
  induction s as [|x s IH]; simpl; [discriminate|].
  destruct (is_whitespace x) eqn:E; [exact IH|].
  intros H. injection H as <- <-. exact E.
Qed.

Lemma trimStart_fixed c s :
  is_whitespace c = false -> trimStart (c :: s) = c :: s.
Proof. intros H. simpl. now rewrite H. Qed.

Lemma trimStart_idempotent s : trimStart (trimStart s) = trimStart s.
Proof.
  destruct (trimStart s) as [|c t] eqn:E; [reflexivity|].
  apply trimStart_fixed. eapply trimStart_head. exact E.
Qed.

Lemma trimStart_snoc s c :
  is_whitespace c = false -> trimStart (s ++ [c]) = trimStart s ++ [c].
Proof.
  intros H. induction s as [|x s IH]; simpl.
  - now rewrite H.
  - destruct (is_whitespace x); [exact IH|reflexivity].
Qed.

Lemma trimStart_In c s : In c (trimStart s) -> In c s.
Proof.
  induction s as [|x s IH]; simpl; [tauto|].
  destruct (is_whitespace x); [intros H; right; now apply IH|tauto].
Qed.

Lemma trimEnd_cons c s :
  is_whitespace c = false -> trimEnd (c :: s) = c :: trimEnd s.
Proof.
  intros H. unfold trimEnd. simpl rev.
  rewrite trimStart_snoc by exact H. rewrite rev_app_distr. reflexivity.
Qed.

Lemma trimEnd_idempotent s : trimEnd (trimEnd s) = trimEnd s.
Proof. unfold trimEnd. now rewrite rev_involutive, trimStart_idempotent. Qed.

Lemma trimEnd_In c s : In c (trimEnd s) -> In c s.
Proof.
  unfold trimEnd. intros H. apply in_rev in H. apply trimStart_In in H.
  now apply in_rev.
Qed.

Lemma trim_In c s : In c (trim s) -> In c s.
Proof. unfold trim. intros H. now apply trimStart_In, trimEnd_In. Qed.

Lemma trimStart_trim s : trimStart (trim s) = trim s.
Proof.
  unfold trim. destruct (trimStart s) as [|c t] eqn:E; [reflexivity|].
  pose proof (trimStart_head _ _ _ E) as Hc.
  rewrite trimEnd_cons by exact Hc. now apply trimStart_fixed.
Qed.

Lemma trim_idempotent s : trim (trim s) = trim s.
Proof.
  unfold trim at 1. rewrite trimStart_trim. unfold trim.
  apply trimEnd_idempotent.
Qed.

(** The ends of a trimmed string are not white space. *)
Lemma trim_ends s :
  (forall c t, trim s = c :: t -> is_whitespace c = false)
  /\ (forall t c, trim s = t ++ [c] -> is_whitespace c = false).
Proof.
  split.
  - intros c t H. rewrite <- trimStart_trim in H.
    eapply trimStart_head. exact H.
  - intros t c H. unfold trim, trimEnd in H.
    apply (f_equal (@rev N)) in H. rewrite rev_involutive, rev_app_distr in H.
    simpl in H. eapply trimStart_head. exact H.
Qed.

Lemma split_unit_nonempty c s : split_unit c s <> [].
Proof.
  induction s as [|x s IH]; simpl; [discriminate|].
  destruct (N.eqb x c); [discriminate|].
  destruct (split_unit c s); [contradiction|discriminate].
Qed.

Lemma split_unit_parts c s part :
  In part (split_unit c s) -> ~ In c part.
Proof.
  revert part. induction s as [|x s IH]; simpl; intros part H.
  - destruct H as [<-|[]]. intros [].
  - destruct (N.eqb x c) eqn:E.
    + destruct H as [<-|H]; [intros []|now apply IH].
    + destruct (split_unit c s) as [|h t] eqn:Es.
      * destruct H as [<-|[]]. intros [->|[]].
        now rewrite N.eqb_refl in E.
      * destruct H as [<-|H].
        -- intros [->|Hin]; [now rewrite N.eqb_refl in E|].
           revert Hin. apply IH. now left.
        -- apply IH. now right.
Qed.

Lemma split_unit_whole c s : ~ In c s -> split_unit c s = [s].
Proof.
  induction s as [|x s IH]; simpl; intros H; [reflexivity|].
  destruct (N.eqb x c) eqn:E.
  - apply N.eqb_eq in E. exfalso. apply H. now left.
  - rewrite IH by tauto. reflexivity.
Qed.

Lemma split_unit_app c a b :
  ~ In c a -> split_unit c (a ++ c :: b) = a :: split_unit c b.
Proof.
  induction a as [|x a IH]; simpl; intros H.
  - now rewrite N.eqb_refl.
  - destruct (N.eqb x c) eqn:E.
    + apply N.eqb_eq in E. exfalso. apply H. now left.
    + rewrite IH by tauto. reflexivity.
Qed.

Lemma split_join c line lines :
  (forall l, In l (line :: lines) -> ~ In c l) ->
  split_unit c (join [c] (line :: lines)) = line :: lines.
Proof.
  revert line. induction lines as [|l2 lines IH]; intros line H.
  - simpl. apply split_unit_whole. apply H. now left.
  - change (join [c] (line :: l2 :: lines))
      with (line ++ c :: join [c] (l2 :: lines)).
    rewrite split_unit_app by (apply H; now left).
    f_equal. apply IH. intros l Hl. apply H. now right.
Qed.

Lemma read_urls_join lines :
  (forall l, In l lines -> ~ In line_feed l) ->
  read_urls (join LF lines) = filter keep_line (map trim lines).
Proof.
  intros H. unfold read_urls. destruct lines as [|line lines].
  - reflexivity.
  - unfold LF. fold line_feed. now rewrite split_join.
Qed.

Lemma keep_line_clean line : clean_line line -> keep_line line = true.
Proof.
  intros (Hne & _ & _ & Hs). unfold keep_line. rewrite Hs.
  destruct line; [contradiction|reflexivity].
Qed.

(** X1.  Every URL the [batch] action reads from its file is a clean
    line: not empty, not a comment, with no white space at either end
    and no line feed inside, whatever the text of the file. *)
Theorem read_urls_clean :
  forall (content url : jsstring),
    In url (read_urls content) ->
    clean_line url
    /\ (forall c t, url = c :: t -> is_whitespace c = false)
    /\ (forall t c, url = t ++ [c] -> is_whitespace c = false).
Proof.
  intros content url H. unfold read_urls in H.
  apply filter_In in H. destruct H as [Hin Hkeep].
  apply in_map_iff in Hin. destruct Hin as (line & <- & Hline).
  unfold keep_line in Hkeep. apply andb_true_iff in Hkeep.
  destruct Hkeep as [Ht Hs]. apply negb_true_iff in Hs.
  split; [|apply trim_ends].
  repeat split.
  - intros E. rewrite E in Ht. discriminate Ht.
  - apply trim_idempotent.
  - intros Hlf. apply trim_In in Hlf. revert Hlf.
    now apply split_unit_parts with (s := content).
  - exact Hs.
Qed.

(** X2.  The lines of the file are taken one by one: for lines that
    hold no line feed, joined by line feeds, the URLs read are the
    trimmed lines that are neither empty nor comments, in the order of
    the file.  So blank lines, comment lines and a carriage return
    before the line feed are all dropped. *)
Theorem read_urls_by_line :
  forall lines : list jsstring,
    (forall l, In l lines -> ~ In line_feed l) ->
    read_urls (join LF lines) = filter keep_line (map trim lines)
    /\ List.length (read_urls (join LF lines)) <= List.length lines.
Proof.
  intros lines H. rewrite read_urls_join by exact H. split; [reflexivity|].
  rewrite <- (length_map trim lines). apply filter_length_le.
Qed.

(** X3.  Round trip: a list of clean lines written one per line is
    read back as it is. *)
Theorem read_urls_round_trip :
  forall urls : list jsstring,
    Forall clean_line urls -> read_urls (join LF urls) = urls.
Proof.
  intros urls H. rewrite read_urls_join.
  - induction H as [|u urls Hu _ IH]; [reflexivity|].
    simpl. destruct Hu as (Hne & Ht & Hlf & Hs).
    rewrite Ht, (keep_line_clean u) by (repeat split; assumption).
    now f_equal.
  - intros l Hl. rewrite Forall_forall in H. now destruct (H l Hl) as (_ & _ & ? & _).
Qed.

(* ================================================================== *)
(** * The classifier and the extractor, for every input *)
(* ================================================================== *)

Lemma indexOf_starts p s : starts_with p s = true -> indexOf p s = Some 0.
Proof. intros H. destruct s; simpl; now rewrite H. Qed.

Lemma indexOf_app p a b : indexOf p (a ++ p ++ b) <> None.
Proof.
  induction a as [|x a IH].
  - simpl app. now rewrite indexOf_starts by apply starts_with_self_app.
  - cbn [app indexOf].
    destruct (starts_with p (x :: a ++ p ++ b)); [discriminate|].
    destruct (indexOf p (a ++ p ++ b)); [discriminate|contradiction].
Qed.

Lemma includes_app p a b : includes p (a ++ p ++ b) = true.
Proof.
  unfold includes. pose proof (indexOf_app p a b) as H.
  destruct (indexOf p (a ++ p ++ b)); [reflexivity|contradiction].
Qed.

(** X4.  The classifier looks for the domain anywhere in the host
    name: every host that contains [x.com] or [twitter.com] as a
    substring (so [netflix.com] or [twitter.com.example.org] too) is
    tagged [twitter], whatever else the host holds, and that entry is
    found before any other. *)
Theorem detectPlatform_substring :
  forall (URL_new : jsstring -> option URL) (url : jsstring) (urlObj : URL)
         (domain a b : jsstring) (db : Database),
    URL_new url = Some urlObj ->
    In domain [js "twitter.com"; js "x.com"] ->
    hostname urlObj = a ++ domain ++ b ->
    detectPlatform URL_new url db = (Val (js "twitter"), db, []).
Proof.
  intros URL_new url urlObj domain a b db Hu Hd Hh.
  unfold detectPlatform. rewrite Hu. unfold platform_tag, ret.
  rewrite Hh. unfold toLowerCase. rewrite !map_app.
  cbn [In] in Hd. destruct Hd as [<-|[<-|[]]].
  - change (map lower_unit (js "twitter.com")) with (js "twitter.com").
    cbn [first_platform SUPPORTED_PLATFORMS].
    now rewrite includes_app.
  - change (map lower_unit (js "x.com")) with (js "x.com").
    cbn [first_platform SUPPORTED_PLATFORMS].
    rewrite includes_app.
    now destruct (includes (js "twitter.com") _).
Qed.

(** X5.  The identifier [extractTweetId] returns is always a whole,
    non-empty segment of the path of the URL: it holds no slash, and
    nothing of the query string or of the host. *)
Theorem extractTweetId_segment :
  forall (URL_new : jsstring -> option URL) (url id : jsstring),
    extractTweetId URL_new url = Some id ->
    exists urlObj,
      URL_new url = Some urlObj
      /\ In id (split_unit slash (pathname urlObj))
      /\ id <> []
      /\ ~ In slash id.
Proof.
  intros URL_new url id H. unfold extractTweetId in H.
  destruct (URL_new url) as [urlObj|]; [|discriminate].
  exists urlObj. split; [reflexivity|].
  destruct (array_indexOf _ _) as [i|]; [|discriminate].
  destruct (Nat.ltb (i + 1) _) eqn:Hlt; [|discriminate].
  apply Nat.ltb_lt in Hlt.
  destruct (truthy (nth (i + 1) (split_unit slash (pathname urlObj)) []))
    eqn:Ht; [|discriminate].
  injection H as <-.
  assert (Hin : In (nth (i + 1) (split_unit slash (pathname urlObj)) [])
                   (split_unit slash (pathname urlObj)))
    by (apply nth_In; exact Hlt).
  split; [exact Hin|]. split.
  - intros E. rewrite E in Ht. discriminate Ht.
  - eapply split_unit_parts. exact Hin.
Qed.

Lemma set_if_truthy_nonempty f v t :
  (forall s, s <> [] -> f s <> []) ->
  set_if_truthy f v = Some t -> t <> [].
Proof.
  intros Hf. unfold set_if_truthy. destruct v as [|c v]; simpl; [discriminate|].
  intros H. injection H as <-. apply Hf. discriminate.
Qed.

Lemma substring0_nonempty n s : s <> [] -> substring0 (S n) s <> [].
Proof. destruct s; [contradiction|discriminate]. Qed.

Lemma set_if_truthy_opt_nonempty v t :
  set_if_truthy_opt v = Some t -> t <> [].
Proof.
  unfold set_if_truthy_opt. destruct v as [[|c s]|]; simpl; try discriminate.
  intros H. injection H as <-. discriminate.
Qed.


Lemma filled_set_if_truthy f v :
  (forall s, s <> [] -> f s <> []) -> filled (set_if_truthy f v).
Proof. intros Hf s H. eapply set_if_truthy_nonempty; eauto. Qed.

Lemma filled_set_if_truthy_opt v : filled (set_if_truthy_opt v).
Proof. intros s H. eapply set_if_truthy_opt_nonempty; eauto. Qed.

Lemma filled_some s : s <> [] -> filled (Some s).
Proof. intros H t E. injection E as <-. exact H. Qed.

Lemma filled_none : filled None.
Proof. intros t E. discriminate E. Qed.

Ltac fill_goal :=
  first
    [ apply filled_none
    | apply filled_set_if_truthy_opt
    | apply filled_set_if_truthy;
      first [ apply substring0_nonempty | intros ? H; exact H ]
    | apply filled_some; discriminate ].

(** X6.  The extractor, for every URL, platform tag and answer of the
    network: it returns a record and never fails, leaves the store
    alone, stamps the record with the time of the extraction, puts no
    empty text in it, fetches nothing for the tag [twitter] and makes
    exactly one fetch, of the URL itself, for every other tag; the
    content it then returns has at most 1000 units. *)
Theorem extractContent_record :
  forall (URL_new : jsstring -> option URL) (env : Env)
         (url platform : jsstring) (db : Database),
    exists ex evs,
      extractContent URL_new env url platform db = (Val ex, db, evs)
      /\ sound_record env ex
      /\ filter network_access evs
         = (if eqb platform (js "twitter") then [] else [EvHttpGet url])
      /\ (eqb platform (js "twitter") = false ->
          forall c, ex_content ex = Some c ->
                    List.length c <= CONTENT_CONFIG_MAX_CONTENT_LENGTH).
Proof.
  intros URL_new env url platform db. unfold extractContent.
  destruct (eqb platform (js "twitter"));
    [|destruct (eqb platform (js "instagram"));
      [|destruct (eqb platform (js "youtube"))]].
  - rewrite extractTwitterContent_cases.
    destruct (extractTweetId URL_new url) as [id|];
      eexists; eexists; (split; [reflexivity|]);
      (split; [|split; [reflexivity|discriminate]]);
      unfold sound_record; cbn; repeat split; fill_goal.
  - unfold extractInstagramContent, fetch_page.
    rewrite try_catch_run, !bind_run. cbn [emit prepend].
    destruct (http_get env url);
      eexists; eexists; (split; [reflexivity|]);
      (split; [|split; [reflexivity|intros _]]);
      unfold sound_record; cbn; repeat split; try fill_goal.
    + intros c [= <-]. cbn. unfold CONTENT_CONFIG_MAX_CONTENT_LENGTH. lia.
    + intros c Hc. exact (set_if_truthy_length _ _ _ Hc).
  - unfold extractYouTubeContent, fetch_page.
    rewrite try_catch_run, !bind_run. cbn [emit prepend].
    destruct (http_get env url);
      eexists; eexists; (split; [reflexivity|]);
      (split; [|split; [reflexivity|intros _]]);
      unfold sound_record; cbn; repeat split; try fill_goal.
    + intros c [= <-]. cbn. unfold CONTENT_CONFIG_MAX_CONTENT_LENGTH. lia.
    + intros c Hc. exact (set_if_truthy_length _ _ _ Hc).
  - unfold extractWebsiteContent, fetch_page.
    rewrite try_catch_run, !bind_run. cbn [emit prepend].
    destruct (http_get env url);
      eexists; eexists; (split; [reflexivity|]);
      (split; [|split; [reflexivity|intros _]]);
      unfold sound_record; cbn; repeat split; try fill_goal.
    + intros c [= <-]. cbn. unfold CONTENT_CONFIG_MAX_CONTENT_LENGTH. lia.
    + intros c Hc. exact (set_if_truthy_length _ _ _ Hc).
Qed.

(** X7.  The title of a record.  For every platform tag but
    [instagram] the title the extractor returns has at most 100 units,
    whatever the page says: the website and the video strategies cut
    it, and the microblog strategy and the fallbacks use fixed
    titles. *)
Theorem title_bound :
  forall (URL_new : jsstring -> option URL) (env : Env)
         (url platform : jsstring) (db : Database),
    eqb platform (js "instagram") = false ->
    exists ex evs,
      extractContent URL_new env url platform db = (Val ex, db, evs)
      /\ forall t, ex_title ex = Some t ->
                   List.length t <= CONTENT_CONFIG_DEFAULT_TITLE_LENGTH.
Proof.
  intros URL_new env url platform db Hi. unfold extractContent. rewrite Hi.
  destruct (eqb platform (js "twitter"));
    [|destruct (eqb platform (js "youtube"))].
  - rewrite extractTwitterContent_cases.
    destruct (extractTweetId URL_new url) as [id|];
      eexists; eexists; (split; [reflexivity|]);
      intros t [= <-]; vm_compute; repeat constructor.
  - unfold extractYouTubeContent, fetch_page.
    rewrite try_catch_run, !bind_run. cbn [emit prepend].
    destruct (http_get env url);
      eexists; eexists; (split; [reflexivity|]); cbn [ex_title].
    + intros t [= <-]. vm_compute. repeat constructor.
    + intros t Ht. exact (set_if_truthy_length _ _ _ Ht).
  - unfold extractWebsiteContent, fetch_page.
    rewrite try_catch_run, !bind_run. cbn [emit prepend].
    destruct (http_get env url);
      eexists; eexists; (split; [reflexivity|]); cbn [ex_title].
    + intros t [= <-]. vm_compute. repeat constructor.
    + intros t Ht. exact (set_if_truthy_length _ _ _ Ht).
Qed.

(* ================================================================== *)
(** * The composer: lengths and custom messages *)
(* ================================================================== *)

Lemma generate_from_template platform handle link :
  get_property PLATFORM_SPECIFIC platform <> Inherited ->
  ~ In dollar_sign handle -> ~ In opening_brace handle ->
  ~ In dollar_sign link ->
  exists pre mid,
    selected_template platform = pre ++ PH_USERNAME ++ mid ++ PH_DASHBOARD
    /\ generateVerificationMessage platform handle link None
       = inr (pre ++ js "@" ++ handle ++ mid ++ link).
Proof.
  intros Hown Hd1 Hb1 Hd2.
  destruct (well_formed_template_sound _ (selected_template_well_formed platform))
    as (pre & mid & Ht & Hat & Hp & Hm).
  exists pre, mid. split; [exact Ht|].
  unfold generateVerificationMessage. cbn [truthy_opt].
  unfold get_property in *. unfold selected_template in Ht.
  destruct (own_property platform PLATFORM_SPECIFIC) as [t|].
  - subst t. unfold sor.
    assert (Htr : truthy (pre ++ PH_USERNAME ++ mid ++ PH_DASHBOARD) = true).
    { destruct pre; reflexivity. }
    rewrite Htr. f_equal. now apply fill_template.
  - destruct (existsb (eqb platform) Object_prototype_keys);
      [contradiction|].
    rewrite Ht. f_equal. now apply fill_template.
Qed.

Lemma selected_template_length platform :
  List.length (selected_template platform) <= 138.
Proof.
  assert (H : forall t, In t (MESSAGE_TEMPLATES_DEFAULT :: map snd PLATFORM_SPECIFIC)
                        -> List.length t <= 138).
  { apply Forall_forall. repeat constructor; vm_compute;
      repeat first [apply le_n | apply le_S]. }
  apply H. unfold selected_template.
  destruct (own_property platform PLATFORM_SPECIFIC) as [t|] eqn:E.
  - right. eapply own_property_In. exact E.
  - now left.
Qed.

(** X8.  The length of a composed message.  For a platform tag that
    names no inherited property and a handle and a link without dollar
    sign and opening brace, the message has the length of the selected
    template, less the 35 units of the two placeholders, plus the at
    sign, the handle and the link; no template has more than 138 units,
    so a message whose handle and link have at most 176 units together
    is within the 280 units [postTweet] accepts. *)
Theorem message_length :
  forall platform handle link : jsstring,
    get_property PLATFORM_SPECIFIC platform <> Inherited ->
    ~ In dollar_sign handle -> ~ In opening_brace handle ->
    ~ In dollar_sign link ->
    exists message,
      generateVerificationMessage platform handle link None = inr message
      /\ List.length message + 34
         = List.length (selected_template platform)
           + List.length handle + List.length link
      /\ (List.length handle + List.length link <= 176 ->
          List.length message <= PROCESSING_CONFIG_MAX_TWEET_LENGTH).
Proof.
  intros platform handle link Hown Hd1 Hb1 Hd2.
  destruct (generate_from_template platform handle link Hown Hd1 Hb1 Hd2)
    as (pre & mid & Ht & Hg).
  eexists. split; [exact Hg|].
  pose proof (selected_template_length platform) as Hlen.
  rewrite Ht in *. rewrite !length_app in *.
  change (List.length PH_USERNAME) with 20 in *.
  change (List.length PH_DASHBOARD) with 15 in *.
  change (List.length (js "@")) with 1.
  unfold PROCESSING_CONFIG_MAX_TWEET_LENGTH. split; lia.
Qed.

Lemma replace_absent s pat repl :
  includes pat s = false -> replace s pat repl = s.
Proof.
  unfold includes, replace. destruct (indexOf pat s); [discriminate|reflexivity].
Qed.

(** X9.  A custom message.  A custom message that is not empty is used
    for every platform tag, the tags that name an inherited property
    included: no template is looked up and nothing is thrown.  When it
    holds neither placeholder it is the message, unit for unit. *)
Theorem custom_message_verbatim :
  forall platform handle link custom : jsstring,
    custom <> [] ->
    (exists message,
        generateVerificationMessage platform handle link (Some custom)
        = inr message)
    /\ (includes PH_USERNAME custom = false ->
        includes PH_DASHBOARD custom = false ->
        generateVerificationMessage platform handle link (Some custom)
        = inr custom).
Proof.
  intros platform handle link custom Hne.
  unfold generateVerificationMessage.
  assert (Ht : truthy_opt (Some custom) = true)
    by (destruct custom; [contradiction|reflexivity]).
  rewrite Ht. split.
  - eexists. reflexivity.
  - intros H1 H2. f_equal. rewrite (replace_absent custom) by exact H1.
    now apply replace_absent.
Qed.

(* ================================================================== *)
(** * The posting client, for every input *)
(* ================================================================== *)

Lemma postTweet_cases env message replyTo db :
  postTweet env message replyTo db =
    let reply := set_if_truthy_opt replyTo in
    if Nat.ltb PROCESSING_CONFIG_MAX_TWEET_LENGTH (List.length message)
    then (Val too_long_result, db, [])
    else match v2_tweet env message reply with
         | inr (Some tweetId) =>
             (Val (posted_result tweetId), db,
              [EvApiTweet message reply;
               EvLog LInfo (js "Tweet posted successfully. ID: " ++ tweetId)])
         | inr None =>
             (Val (api_error_result no_data), db,
              [EvApiTweet message reply;
               EvLog LError (js "X API error details:")])
         | inl e =>
             if has_code e 429
             then (Val rate_limit_result, db,
                   [EvApiTweet message reply;
                    EvLog LWarn (js "Rate limit exceeded")])
             else (Val (api_error_result e), db,
                   [EvApiTweet message reply;
                    EvLog LError (js "X API error details:")])
         end.
Proof.
  unfold postTweet. rewrite try_catch_run. cbv zeta.
  destruct (Nat.ltb _ _); [reflexivity|].
  rewrite bind_run. cbn [emit prepend].
  destruct (v2_tweet env message (set_if_truthy_opt replyTo)) as [e|[tweetId|]];
    cbn [throw prepend app]; try reflexivity.
  destruct (has_code e 429); reflexivity.
Qed.

(** X10.  [postTweet] for every message, reply target and answer of the
    API: it returns a result and never throws or leaves the program,
    and the store is not touched.  A message of more than 280 units is
    refused without a call of the API; any other message makes exactly
    one call, the first thing the method does.  The result says
    [success] exactly when the call returned the data of a tweet, and
    then carries its identifier and the address built from it; it
    carries [retry_after = 900] exactly when the call failed with code
    429. *)
Theorem postTweet_total :
  forall (env : Env) (message : jsstring) (replyTo : option jsstring)
         (db : Database),
    exists r evs,
      postTweet env message replyTo db = (Val r, db, evs)
      /\ (PROCESSING_CONFIG_MAX_TWEET_LENGTH < List.length message ->
          r = too_long_result /\ evs = [])
      /\ (List.length message <= PROCESSING_CONFIG_MAX_TWEET_LENGTH ->
          exists entry,
            evs = [EvApiTweet message (set_if_truthy_opt replyTo); entry]
            /\ posting_call entry = false)
      /\ (tr_success r = true <->
          List.length message <= PROCESSING_CONFIG_MAX_TWEET_LENGTH
          /\ exists tweetId,
               v2_tweet env message (set_if_truthy_opt replyTo)
               = inr (Some tweetId)
               /\ r = posted_result tweetId)
      /\ (tr_retry_after r = Some 900%N <->
          List.length message <= PROCESSING_CONFIG_MAX_TWEET_LENGTH
          /\ exists e,
               v2_tweet env message (set_if_truthy_opt replyTo) = inl e
               /\ has_code e 429 = true).
Proof.
  intros env message replyTo db. rewrite postTweet_cases. cbv zeta.
  destruct (Nat.ltb PROCESSING_CONFIG_MAX_TWEET_LENGTH (List.length message))
    eqn:Hlt.
  - apply Nat.ltb_lt in Hlt. eexists; eexists. split; [reflexivity|].
    repeat split; try (intros; lia); cbn; discriminate.
  - apply Nat.ltb_ge in Hlt.
    destruct (v2_tweet env message (set_if_truthy_opt replyTo))
      as [e|[tweetId|]] eqn:Hv; [destruct (has_code e 429) eqn:Hc| |];
      eexists; eexists; (split; [reflexivity|]);
      (split; [intros; lia|]);
      (split; [intros _; eexists; split; reflexivity|]);
      cbn [tr_success tr_retry_after rate_limit_result api_error_result
           posted_result];
      (split; split).
    all: try discriminate.
    all: try (intros (_ & x & Hx & _); discriminate Hx).
    all: try (intros (_ & x & Hx & Hy); congruence).
    all: try (intros _; split; [exact Hlt|eexists; split; [reflexivity|]]).
    all: try reflexivity; try assumption.
Qed.

(** X11.  [replyToTweet].  A reply to the empty identifier is posted as
    a tweet of its own: the run is the run of [postTweet] with no reply
    target.  A reply to any other identifier, when the message is
    within the limit, calls the API once with that identifier as the
    tweet replied to. *)
Theorem replyToTweet_target :
  forall (env : Env) (tweetId message : jsstring) (db : Database),
    (tweetId = [] ->
     replyToTweet env tweetId message db = postTweet env message None db)
    /\ (tweetId <> [] ->
        List.length message <= PROCESSING_CONFIG_MAX_TWEET_LENGTH ->
        filter posting_call (events (replyToTweet env tweetId message db))
        = [EvApiTweet message (Some tweetId)]).
Proof.
  intros env tweetId message db. split.
  - intros ->. unfold replyToTweet. rewrite !postTweet_cases. reflexivity.
  - intros Hne Hlen. unfold replyToTweet. rewrite postTweet_cases. cbv zeta.
    apply Nat.ltb_ge in Hlen. rewrite Hlen.
    assert (Hr : set_if_truthy_opt (Some tweetId) = Some tweetId)
      by (destruct tweetId; [contradiction|reflexivity]).
    rewrite Hr.
    destruct (v2_tweet env message (Some tweetId)) as [e|[id|]];
      [destruct (has_code e 429)| |]; reflexivity.
Qed.

(* ================================================================== *)
(** * What a run does to the store *)
(* ================================================================== *)

Lemma tweet_publish_store env options url platform postData message db :
  final_db (tweet_publish env options url platform postData message db) = db
  \/ exists d,
       final_db (tweet_publish env options url platform postData message db)
       = mkDatabase true (docs db ++ [d])
       /\ collection_set db = true
       /\ url_stored url (docs db) = false
       /\ pp_url d = url
       /\ pp_success d = Some (negb (opt_dryRun options))
       /\ pp_processedAt d = now env
       /\ result (tweet_publish env options url platform postData message db)
          = Val (if opt_dryRun options then DryRunRecorded else Posted).
Proof.
  destruct (opt_dryRun options) eqn:Hd.
  - unfold tweet_publish. rewrite Hd, bind_run.
    destruct (collection_set db) eqn:Hc.
    + rewrite saveProcessedPost_run by exact Hc.
      cbn [pp_url post_of].
      destruct (insertOne_error env) as [e|];
        [destruct (has_code e 11000)|destruct (url_stored url (docs db)) eqn:Hs];
        cbn [prepend]; rewrite ?bind_run; cbn [spinner_succeed emit prepend];
        rewrite ?bind_run; cbn [console_log emit prepend];
        rewrite ?bind_run; cbn [console_log emit prepend ret];
        try (left; reflexivity).
      right. eexists. split; [reflexivity|]. repeat split; reflexivity.
    + rewrite save_unset_dry by exact Hc. left. reflexivity.
  - destruct (tweet_publish_live_run env options url platform postData message
                db Hd) as (tr & evT & _ & _ & _ & _ & Hrun).
    rewrite Hrun. destruct (tr_success tr); [|left; reflexivity].
    destruct (collection_set db) eqn:Hc.
    + rewrite saveSuccessfulPost_run by exact Hc. cbv zeta.
      cbn [pp_url post_of].
      destruct (insertOne_error env) as [e|];
        [destruct (has_code e 11000)|destruct (url_stored url (docs db)) eqn:Hs];
        try (left; reflexivity).
      right. eexists. split; [reflexivity|]. repeat split; reflexivity.
    + rewrite save_unset_success by exact Hc. left. reflexivity.
Qed.

Section Store.

Variable URL_new : jsstring -> option URL.
Variable pe : ProcessEnv.
Hypothesis URL_new_rejects_empty : URL_new [] = None.

Lemma process_store env options db :
  final_db (process URL_new pe env options db) = db
  \/ exists d,
       final_db (process URL_new pe env options db)
       = mkDatabase true (docs db ++ [d])
       /\ collection_set db = true
       /\ url_stored (opt_url options) (docs db) = false
       /\ pp_url d = opt_url options
       /\ pp_success d = Some (negb (opt_dryRun options))
       /\ pp_processedAt d = now env
       /\ result (process URL_new pe env options db)
          = Val (if opt_dryRun options then DryRunRecorded else Posted).
Proof.
  destruct (collection_set db) eqn:Hc.
  2:{ rewrite process_unset by exact Hc. left. reflexivity. }
  pose proof (isPostProcessed_run env (opt_url options) db Hc) as Hcheck.
  destruct (match findOne_error env with
            | Some _ => false
            | None => success_recorded (opt_url options) (docs db)
            end).
  { rewrite (process_blocked URL_new pe env options db _ Hcheck).
    left. reflexivity. }
  rewrite (process_unblocked URL_new pe env options db _ Hcheck).
  destruct (URL_new (opt_url options)) as [urlObj|] eqn:Hu.
  2:{ rewrite tweet_rest_invalid by exact Hu. left. reflexivity. }
  destruct (tweet_rest_valid URL_new pe URL_new_rejects_empty env options db
              urlObj Hu) as (ex & evX & _ & _ & Hrest).
  rewrite Hrest.
  destruct (tweet_publish_store env options (opt_url options)
              (platform_tag urlObj)
              (post_data (opt_url options) (platform_tag urlObj) ex
                 (opt_username options))
              (message_of pe (platform_tag urlObj) (opt_username options)
                 (opt_message options)) db) as [Hsame|(d & Hdb & _ & Hs & Hd)].
  - left. revert Hsame.
    destruct (tweet_publish _ _ _ _ _ _ _) as [[[o|e|o] db1] ev1];
      cbn [prepend final_db fst snd]; auto.
  - right. exists d. revert Hdb Hd.
    destruct (tweet_publish _ _ _ _ _ _ _) as [[[o|e|o] db1] ev1];
      cbn [prepend final_db result fst snd];
      intros Hdb (Hurl & Hsucc & Hat & Hres);
      try discriminate Hres.
    repeat split; assumption.
Qed.

Lemma url_stored_false url ds :
  url_stored url ds = false <-> ~ In url (map pp_url ds).
Proof.
  unfold url_stored. induction ds as [|d ds IH]; simpl.
  - tauto.
  - rewrite orb_false_iff, IH, eqb_neq. tauto.
Qed.

Lemma url_stored_snoc url ds d :
  url_stored url (ds ++ [d]) = false ->
  url_stored url ds = false /\ pp_url d <> url.
Proof.
  unfold url_stored. rewrite existsb_app. simpl.
  rewrite !orb_false_iff, eqb_neq. tauto.
Qed.

Lemma unique_snoc ds d :
  NoDup (map pp_url ds) -> url_stored (pp_url d) ds = false ->
  NoDup (map pp_url (ds ++ [d])).
Proof.
  intros Hn Hs. rewrite map_app. simpl.
  apply NoDup_app; [exact Hn|repeat constructor; intros []|].
  intros u Hu [<-|[]]. now apply url_stored_false in Hs.
Qed.

Lemma success_recorded_snoc url ds d :
  pp_success d <> Some true ->
  success_recorded url (ds ++ [d]) = success_recorded url ds.
Proof.
  intros Hd. unfold success_recorded.
  induction ds as [|x ds IH]; simpl.
  - unfold matches_success. destruct (pp_success d) as [[|]|];
      try contradiction; now rewrite andb_false_r.
  - destruct (matches_success url x); [reflexivity|exact IH].
Qed.

(** X12.  What one run of the pipeline does to the store.  It leaves
    the store as it is or adds one document at its end: a document of
    the URL of the run, which the store did not hold, stamped with the
    time of the run, with [success = false] in a dry run and
    [success = true] in a live one, and the run then ends normally.  So
    no document is changed or removed, the URLs of the store stay
    distinct, and a dry run never makes the duplicate check answer yes
    for any URL. *)
Theorem process_adds_at_most_one :
  forall (env : Env) (options : TweetOptions) (db : Database),
    let run := process URL_new pe env options db in
    collection_set (final_db run) = collection_set db
    /\ (docs (final_db run) = docs db
        \/ exists d,
             docs (final_db run) = docs db ++ [d]
             /\ url_stored (opt_url options) (docs db) = false
             /\ pp_url d = opt_url options
             /\ pp_success d = Some (negb (opt_dryRun options))
             /\ pp_processedAt d = now env
             /\ result run
                = Val (if opt_dryRun options then DryRunRecorded else Posted))
    /\ (unique_urls db -> unique_urls (final_db run))
    /\ (opt_dryRun options = true ->
        forall url,
          success_recorded url (docs (final_db run))
          = success_recorded url (docs db)).
Proof.
  intros env options db run. subst run.
  destruct (process_store env options db)
    as [->|(d & -> & Hc & Hs & Hu & Hd & Ht & Hr)].
  - repeat split; auto.
  - cbn [collection_set docs]. split; [now rewrite Hc|]. split; [|split].
    + right. exists d. repeat split; assumption.
    + unfold unique_urls. cbn [docs]. intros Hn.
      apply unique_snoc; [exact Hn|now rewrite Hu].
    + intros Hdry url. apply success_recorded_snoc.
      rewrite Hd, Hdry. discriminate.
Qed.

Lemma tally_processed o c : processed c <= processed (tally o c).
Proof. destruct o; cbn; lia. Qed.

Lemma runBatch_by_outcome_store envs options urls :
  forall i db c,
  exists added,
    snd (runBatch_by_outcome URL_new pe envs options i urls db c)
    = mkDatabase (collection_set db) (docs db ++ added)
    /\ NoDup (map pp_url added)
    /\ (forall d, In d added ->
          In (pp_url d) urls
          /\ url_stored (pp_url d) (docs db) = false
          /\ pp_success d = Some (negb (bopt_dryRun options)))
    /\ processed c + List.length added
       <= processed (fst (runBatch_by_outcome URL_new pe envs options i urls
                            db c)).
Proof.
  induction urls as [|url urls IH]; intros i db c.
  - exists []. cbn [runBatch_by_outcome fst snd List.length map].
    rewrite app_nil_r. destruct db as [cs ds]. cbn [collection_set docs].
    split; [reflexivity|]. split; [constructor|].
    split; [intros x []|lia].
  - cbn [runBatch_by_outcome].
    destruct (process_store (envs i) (batch_options_as_tweet options url) db)
      as [Hsame|(d & Hdb & Hc & Hs & Hu & Hd & _ & Hr)].
    + rewrite Hsame.
      destruct (IH (S i) db
                  (tally (outcome_of
                            (result (process URL_new pe (envs i)
                                       (batch_options_as_tweet options url) db)))
                         c)) as (added & Heq & Hn & Hin & Hp).
      exists added. split; [exact Heq|]. split; [exact Hn|]. split.
      * intros x Hx. destruct (Hin x Hx) as (? & ? & ?).
        repeat split; [now right|assumption|assumption].
      * pose proof (tally_processed
                      (outcome_of
                         (result (process URL_new pe (envs i)
                                    (batch_options_as_tweet options url) db)))
                      c). lia.
    + rewrite Hdb, Hr. cbn [opt_url opt_dryRun batch_options_as_tweet] in *.
      destruct (IH (S i) (mkDatabase true (docs db ++ [d]))
                  (tally (outcome_of
                            (Val (if bopt_dryRun options
                                  then DryRunRecorded else Posted))) c))
        as (added & Heq & Hn & Hin & Hp).
      exists (d :: added). cbn [collection_set docs] in Heq.
      rewrite Heq, Hc, <- app_assoc. split; [reflexivity|]. split; [|split].
      * cbn [map]. constructor; [|exact Hn].
        intros Hdup. apply in_map_iff in Hdup.
        destruct Hdup as (x & Hx & Hxin).
        destruct (Hin x Hxin) as (_ & Hst & _).
        apply url_stored_snoc in Hst. destruct Hst as (_ & Hne).
        now apply Hne.
      * intros x [<-|Hx].
        -- rewrite Hu. repeat split; [now left|exact Hs|exact Hd].
        -- destruct (Hin x Hx) as (? & Hst & ?).
           apply url_stored_snoc in Hst. destruct Hst as (Hst & _).
           repeat split; [now right|assumption|assumption].
      * cbn [List.length].
        assert (Ht : processed (tally (outcome_of
                                  (Val (if bopt_dryRun options
                                        then DryRunRecorded else Posted))) c)
                     = S (processed c))
          by (destruct (bopt_dryRun options); reflexivity).
        lia.
Qed.

(** X13.  What a batch does to the store.  The loop ends normally with
    the store it started from followed by new documents: no two of the
    new documents share a URL, each is a document of a URL of the list
    that the store did not hold, with [success = false] in a dry run
    and [success = true] in a live one, and there are at most as many
    of them as the counter of processed URLs says.  The URLs of the
    store stay distinct. *)
Theorem runBatch_store :
  forall (envs : nat -> Env) (options : BatchOptions) (urls : list jsstring)
         (db : Database),
    exists c evs added,
      runBatch URL_new pe envs options urls db
      = (Val c, mkDatabase (collection_set db) (docs db ++ added), evs)
      /\ NoDup (map pp_url added)
      /\ (forall d, In d added ->
            In (pp_url d) urls
            /\ url_stored (pp_url d) (docs db) = false
            /\ pp_success d = Some (negb (bopt_dryRun options)))
      /\ List.length added <= processed c
      /\ (unique_urls db ->
          NoDup (map pp_url (docs db ++ added))).
Proof.
  intros envs options urls db. unfold runBatch.
  destruct (batch_loop_refines URL_new pe envs options (List.length urls) urls
              0 (mkCounts 0 0 0) db) as (evs & Hrun).
  destruct (runBatch_by_outcome_store envs options urls 0 db (mkCounts 0 0 0))
    as (added & Heq & Hn & Hin & Hp).
  rewrite Hrun, Heq. eexists; eexists; exists added.
  split; [reflexivity|]. split; [exact Hn|]. split; [exact Hin|].
  split; [cbn [processed] in Hp; lia|].
  unfold unique_urls. intros Hu. rewrite map_app.
  apply NoDup_app; [exact Hu|exact Hn|].
  intros u Hu1 Hu2. apply in_map_iff in Hu2. destruct Hu2 as (d & <- & Hd).
  destruct (Hin d Hd) as (_ & Hst & _).
  now apply url_stored_false in Hst.
Qed.

End Store.

(* ================================================================== *)
(** * Two runs the duplicate check does not cover *)
(* ================================================================== *)

Section Runs.

Variable URL_new : jsstring -> option URL.
Variable pe : ProcessEnv.
Hypothesis URL_new_rejects_empty : URL_new [] = None.

(** X14.  A live run after a dry run.  When the store holds a document
    of the URL that is not a success (the document a dry run leaves), a
    live run posts the tweet, but the insert of the success document
    hits the unique index on the URL: the store stays as it was, the
    log has the warning of the duplicate key, and the run still ends in
    [Posted].  The store it leaves is the store it found, so the
    duplicate check of a later run answers no again. *)
Theorem live_run_after_dry_run :
  forall (env : Env) (options : TweetOptions) (db : Database) (urlObj : URL)
         (tweetId : jsstring),
    opt_dryRun options = false ->
    collection_set db = true ->
    URL_new (opt_url options) = Some urlObj ->
    url_stored (opt_url options) (docs db) = true ->
    ~ holds_success (opt_url options) (docs db) ->
    insertOne_error env = None ->
    List.length (message_of pe (platform_tag urlObj) (opt_username options)
                            (opt_message options))
      <= PROCESSING_CONFIG_MAX_TWEET_LENGTH ->
    v2_tweet env (message_of pe (platform_tag urlObj) (opt_username options)
                             (opt_message options)) None
      = inr (Some tweetId) ->
    exists pre post,
      process URL_new pe env options db =
        (Val Posted, db,
         pre
         ++ [EvApiTweet (message_of pe (platform_tag urlObj)
                           (opt_username options) (opt_message options)) None;
             EvLog LInfo (js "Tweet posted successfully. ID: " ++ tweetId)]
         ++ EvInsertOne post
            :: EvLog LWarn (js "Post already exists: " ++ opt_url options)
            :: posted_report (posted_result tweetId))
      /\ Forall (fun e => posting_call e = false) pre
      /\ pp_url post = opt_url options
      /\ pp_success post = Some true
      /\ success_recorded (opt_url options) (docs db) = false.
Proof.
  intros env options db urlObj tweetId Hd Hc Hu Hs Hno Hi Hlen Hv.
  destruct (tweet_rest_valid URL_new pe URL_new_rejects_empty env options db
              urlObj Hu) as (ex & evX & _ & HevX & Hrest).
  rewrite (process_unblocked URL_new pe env options db _
             (check_false env _ db Hc Hno)).
  rewrite Hrest. unfold tweet_publish. rewrite Hd.
  rewrite bind_run, postTweet_run.
  apply Nat.ltb_ge in Hlen. rewrite Hlen, Hv.
  cbn [prepend tr_success posted_result].
  rewrite bind_run, saveSuccessfulPost_run by assumption.
  cbv zeta. rewrite Hi. cbn [pp_url post_of]. rewrite Hs.
  cbn [prepend]. rewrite !bind_run. cbn [spinner_succeed emit prepend].
  rewrite !bind_run. cbn [console_log emit ret prepend].
  exists (check_events env (opt_url options) ++ evX). eexists.
  split; [|split; [|split; [|split]]].
  - rewrite <- !app_assoc. cbn [app tr_tweet_id tr_tweet_url posted_report
                                posted_result]. reflexivity.
  - apply Forall_app. split.
    + apply check_events_quiet.
    + now apply extraction_not_posting.
  - reflexivity.
  - reflexivity.
  - destruct (success_recorded (opt_url options) (docs db)) eqn:E;
      [|reflexivity].
    exfalso. apply Hno. now apply success_recorded_spec.
Qed.

(** X15.  A message over the limit.  When the message composed for the
    URL has more than 280 units, a live run ends in [PostFailed] with
    the text of the too-long error, without any call of the posting API
    and without a write to the store; the dry run of the same input
    does not look at the length and ends in [DryRunRecorded]. *)
Theorem too_long_message :
  forall (env : Env) (options : TweetOptions) (db : Database) (urlObj : URL),
    collection_set db = true ->
    URL_new (opt_url options) = Some urlObj ->
    ~ holds_success (opt_url options) (docs db) ->
    PROCESSING_CONFIG_MAX_TWEET_LENGTH
      < List.length (message_of pe (platform_tag urlObj) (opt_username options)
                                (opt_message options)) ->
    (opt_dryRun options = false ->
     exists pre,
       process URL_new pe env options db =
         (Exit PostFailed, db,
          pre ++ [EvSpinnerFail ERROR_MESSAGES_TWEET_TOO_LONG])
       /\ Forall (fun e => posting_call e = false) pre
       /\ Forall (fun e => store_write e = false) pre)
    /\ (opt_dryRun options = true ->
        insertOne_error env = None ->
        result (process URL_new pe env options db) = Val DryRunRecorded).
Proof.
  intros env options db urlObj Hc Hu Hno Hlen. split.
  - intros Hd.
    destruct (tweet_rest_valid URL_new pe URL_new_rejects_empty env options db
                urlObj Hu) as (ex & evX & _ & HevX & Hrest).
    rewrite (process_unblocked URL_new pe env options db _
               (check_false env _ db Hc Hno)).
    rewrite Hrest. unfold tweet_publish. rewrite Hd.
    rewrite bind_run, postTweet_run.
    apply Nat.ltb_lt in Hlen. rewrite Hlen.
    cbn [prepend tr_success too_long_result].
    rewrite bind_run. cbn [spinner_fail emit prepend exit app tr_error show_opt].
    exists (check_events env (opt_url options) ++ evX).
    split; [now rewrite <- app_assoc|].
    split; apply Forall_app; split;
      first [apply check_events_quiet | now apply extraction_not_posting].
  - intros Hd Hi.
    destruct (process_dry_run URL_new pe URL_new_rejects_empty env options db
                urlObj Hd Hc Hu Hno Hi) as (ex & evX & _ & Hrun).
    rewrite Hrun. cbv zeta.
    destruct (url_stored (opt_url options) (docs db)); reflexivity.
Qed.

End Runs.

(* ================================================================== *)
(** * Events and ends of a run, piece by piece *)
(* ================================================================== *)

Lemma emits_ret {A} P (a : A) : emits P (ret a).
Proof. intros db. reflexivity. Qed.

Lemma emits_throw {A} P e : emits P (@throw A e).
Proof. intros db. reflexivity. Qed.

Lemma emits_exit {A} P o : emits P (@exit A o).
Proof. intros db. reflexivity. Qed.

Lemma emits_get_db P : emits P get_db.
Proof. intros db. reflexivity. Qed.

Lemma emits_put_docs P ds : emits P (put_docs ds).
Proof. intros db. reflexivity. Qed.

Lemma emits_set_collection P b : emits P (set_collection b).
Proof. intros db. reflexivity. Qed.

Lemma emits_emit (P : Event -> bool) e : P e = true -> emits P (emit e).
Proof. intros H db. cbn. now rewrite H. Qed.

Lemma emits_bind {A B} P (m : M A) (k : A -> M B) :
  emits P m -> (forall a, emits P (k a)) -> emits P (bind m k).
Proof.
  intros Hm Hk db. rewrite bind_run. specialize (Hm db).
  destruct (m db) as [[[a|e|o] db1] ev1]; cbn [events snd] in *;
    try exact Hm.
  rewrite events_prepend, forallb_app, Hm. exact (Hk a db1).
Qed.

Lemma emits_try_catch {A} P (m : M A) (h : Err -> M A) :
  emits P m -> (forall e, emits P (h e)) -> emits P (try_catch m h).
Proof.
  intros Hm Hh db. rewrite try_catch_run. specialize (Hm db).
  destruct (m db) as [[[a|e|o] db1] ev1]; cbn [events snd] in *;
    try exact Hm.
  rewrite events_prepend, forallb_app, Hm. exact (Hh e db1).
Qed.

Ltac emits_step :=
  first
    [ apply emits_bind; [|intros ?]
    | apply emits_try_catch; [|intros ?]
    | apply emits_ret | apply emits_throw | apply emits_exit
    | apply emits_get_db | apply emits_put_docs | apply emits_set_collection
    | apply emits_emit; reflexivity
    | match goal with
      | |- emits _ (if ?b then _ else _) => destruct b
      | |- emits _ (match ?x with _ => _ end) => destruct x
      end ].

Ltac emits_all := repeat emits_step.

Lemma ends_in_ret {A} (V : A -> Prop) X a : V a -> ends_in V X (ret a).
Proof. intros H db. exact H. Qed.

Lemma ends_in_throw {A} (V : A -> Prop) X e : ends_in V X (@throw A e).
Proof. intros db. exact I. Qed.

Lemma ends_in_exit {A} (V : A -> Prop) (X : Outcome -> Prop) o :
  X o -> ends_in V X (@exit A o).
Proof. intros H db. exact H. Qed.

Lemma ends_in_bind {A B} (V : B -> Prop) X (m : M A) (k : A -> M B) :
  ends_in (fun _ => True) X m -> (forall a, ends_in V X (k a)) ->
  ends_in V X (bind m k).
Proof.
  intros Hm Hk db. rewrite bind_run. specialize (Hm db).
  destruct (m db) as [[[a|e|o] db1] ev1]; cbn [result fst] in *;
    try exact Hm; try exact I.
  rewrite result_prepend. exact (Hk a db1).
Qed.

Lemma ends_in_try_catch {A} (V : A -> Prop) X (m : M A) (h : Err -> M A) :
  ends_in V X m -> (forall e, ends_in V X (h e)) ->
  ends_in V X (try_catch m h).
Proof.
  intros Hm Hh db. rewrite try_catch_run. specialize (Hm db).
  destruct (m db) as [[[a|e|o] db1] ev1]; cbn [result fst] in *;
    try exact Hm.
  rewrite result_prepend. exact (Hh e db1).
Qed.

Lemma ends_in_no_exit {A} (V : A -> Prop) X (m : M A) :
  exits_in (fun _ => False) m -> (forall a, V a) -> ends_in V X m.
Proof.
  intros Hm HV db. specialize (Hm db).
  destruct (result (m db)) as [a|e|o]; [apply HV|exact I|].
  now destruct (Hm o eq_refl).
Qed.

Lemma ends_in_quiet {A} (X : Outcome -> Prop) (m : M A) :
  exits_in (fun _ => False) m -> ends_in (fun _ => True) X m.
Proof. intros H. apply ends_in_no_exit; [exact H|intros; exact I]. Qed.

Lemma emit_no_exit P e : exits_in P (emit e).
Proof. apply exits_in_emit. Qed.

Ltac quiet_piece :=
  apply ends_in_quiet;
  first
    [ apply isPostProcessed_no_exit | apply processUrl_no_exit
    | apply compose_no_exit | apply saveProcessedPost_no_exit
    | apply saveSuccessfulPost_no_exit | apply postTweet_no_exit
    | apply emit_no_exit ].

Lemma tweet_pipeline_ends URL_new pe env options :
  ends_in
    (fun o => o = if opt_dryRun options then DryRunRecorded else Posted)
    (fun o => o = AlreadyProcessed
              \/ (o = PostFailed /\ opt_dryRun options = false))
    (tweet_pipeline URL_new pe env options).
Proof.
  unfold tweet_pipeline.
  apply ends_in_bind; [quiet_piece|intros isProcessed].
  destruct isProcessed.
  { apply ends_in_bind; [unfold spinner_fail; quiet_piece|intros _].
    apply ends_in_exit. now left. }
  unfold tweet_rest.
  apply ends_in_bind; [quiet_piece|intros postData].
  destruct (pd_platform postData) as [platform|]; [|apply ends_in_throw].
  destruct (pd_url postData) as [url|]; [|apply ends_in_throw].
  destruct (negb (truthy platform) || negb (truthy url));
    [apply ends_in_throw|].
  apply ends_in_bind; [quiet_piece|intros message].
  unfold tweet_publish. destruct (opt_dryRun options).
  - apply ends_in_bind; [quiet_piece|intros _].
    unfold spinner_succeed, console_log.
    repeat (apply ends_in_bind; [quiet_piece|intros _]).
    now apply ends_in_ret.
  - apply ends_in_bind; [quiet_piece|intros r].
    destruct (tr_success r).
    + apply ends_in_bind; [quiet_piece|intros _].
      unfold spinner_succeed, console_log.
      repeat (apply ends_in_bind; [quiet_piece|intros _]).
      now apply ends_in_ret.
    + apply ends_in_bind; [unfold spinner_fail; quiet_piece|intros _].
      apply ends_in_exit. right. now split.
Qed.

Lemma pipeline_ends_cases URL_new pe env options db :
  match result (process URL_new pe env options db) with
  | Val o => o = (if opt_dryRun options then DryRunRecorded else Posted)
  | Exit o =>
      o = AlreadyProcessed
      \/ (o = PostFailed /\ opt_dryRun options = false)
      \/ exists e, o = Errored e
  | Throw _ => False
  end.
Proof.
  unfold process. rewrite try_catch_run.
  pose proof (tweet_pipeline_ends URL_new pe env options db) as H.
  destruct (tweet_pipeline URL_new pe env options db) as [[[o|e|o] db1] ev1];
    cbn [result fst] in *.
  - exact H.
  - rewrite tweet_catch_run. cbn. right. right. now exists e.
  - destruct H as [->|[-> Hd]]; [now left|right; left; now split].
Qed.

(** X16.  The ends of the pipeline.  A run of [process] never throws.
    It returns only as [DryRunRecorded], in a dry run, or as [Posted],
    in a live one; in every other case it leaves the program: as
    [AlreadyProcessed], as [PostFailed] (a live run only), or through
    the catch clause with the error caught, each with exit code 1. *)
Theorem process_ends :
  forall (URL_new : jsstring -> option URL) (pe : ProcessEnv) (env : Env)
         (options : TweetOptions) (db : Database),
    match result (process URL_new pe env options db) with
    | Val o =>
        o = (if opt_dryRun options then DryRunRecorded else Posted)
        /\ exit_code o = 0%N
    | Exit o =>
        (o = AlreadyProcessed
         \/ (o = PostFailed /\ opt_dryRun options = false)
         \/ exists e, o = Errored e)
        /\ exit_code o = 1%N
    | Throw _ => False
    end.
Proof.
  intros URL_new pe env options db.
  pose proof (pipeline_ends_cases URL_new pe env options db) as H.
  destruct (result (process URL_new pe env options db)) as [o|e|o].
  - subst o. split; [reflexivity|]. now destruct (opt_dryRun options).
  - exact H.
  - split; [exact H|].
    destruct H as [->|[[-> _]|(e & ->)]]; reflexivity.
Qed.

Lemma batch_item_quiet URL_new pe env options total url c :
  bopt_dryRun options = true ->
  emits quiet_event (batch_item URL_new pe env options total url c).
Proof.
  intros Hd.
  unfold batch_item, batch_rest, batch_publish, compose,
    isPostProcessed, findOne_success, saveProcessedPost, insertOne,
    processUrl, detectPlatform, extractContent,
    extractTwitterContent, extractInstagramContent, extractYouTubeContent,
    extractWebsiteContent, fetch_page,
    logger_info, logger_warn, logger_error.
  rewrite Hd. cbn [negb]. emits_all.
Qed.

Lemma batch_loop_quiet URL_new pe envs options total urls :
  bopt_dryRun options = true ->
  forall i c,
    emits quiet_event (batch_loop URL_new pe envs options total i urls c).
Proof.
  intros Hd. induction urls as [|url urls IH]; intros i c; cbn [batch_loop].
  - apply emits_ret.
  - apply emits_bind; [now apply batch_item_quiet|intros c1; apply IH].
Qed.

(** X17.  A dry-run batch.  With the dry-run option the loop of the
    batch action never calls the posting API and never waits between
    two URLs, whatever the URLs, the store and the answers of the
    network. *)
Theorem dry_run_batch_quiet :
  forall (URL_new : jsstring -> option URL) (pe : ProcessEnv)
         (envs : nat -> Env) (options : BatchOptions) (urls : list jsstring)
         (db : Database),
    bopt_dryRun options = true ->
    forall e,
      In e (events (runBatch URL_new pe envs options urls db)) ->
      posting_call e = false /\ (forall ms, e <> EvSleep ms).
Proof.
  intros URL_new pe envs options urls db Hd e He.
  pose proof (batch_loop_quiet URL_new pe envs options (List.length urls) urls
                Hd 0 (mkCounts 0 0 0) db) as H.
  unfold runBatch in He. rewrite forallb_forall in H. specialize (H e He).
  destruct e; try discriminate H; split; try reflexivity;
    intros ms; discriminate.
Qed.

(** X18.  The pause of a live batch.  After a post that failed the
    loop counts the URL as failed, logs the error of the result and
    then waits for the delay whenever the counter of processed URLs is
    below the length of the list: also after the last URL of the list,
    and for a list of a single URL. *)
Theorem batch_pause_after_failure :
  forall (env : Env) (options : BatchOptions) (total : nat)
         (url purl platform : jsstring) (postData : PostData)
         (message : jsstring) (c : Counts) (db : Database)
         (r : TweetResult) (evT : list Event),
    bopt_dryRun options = false ->
    postTweet env message None db = (Val r, db, evT) ->
    tr_success r = false ->
    batch_publish env options total url purl platform postData message c db
    = (Val (mkCounts (processed c) (skipped c) (S (failed c))), db,
       evT
       ++ [EvLog LError (js "Failed to tweet for " ++ url ++ js ": "
                         ++ show_opt (tr_error r))]
       ++ (if Nat.ltb (processed c) total
           then [EvSleep (bopt_delay options * 1000)]
           else [])).
Proof.
  intros env options total url purl platform postData message c db r evT
    Hd Hpost Hfail.
  unfold batch_publish. rewrite Hd. cbn [negb].
  rewrite bind_run, Hpost. cbn [prepend]. rewrite Hfail.
  rewrite !bind_run. cbn [logger_error emit prepend ret processed].
  rewrite !bind_run.
  destruct (Nat.ltb (processed c) total); cbn [emit ret prepend];
    rewrite ?bind_run; cbn [ret prepend app]; rewrite ?app_nil_r;
    reflexivity.
Qed.

(* ================================================================== *)
(** * The [tweet] action before and after the pipeline *)
(* ================================================================== *)

Lemma truthy_or_str_empty v : truthy (or_str v []) = truthy_opt v.
Proof. destruct v as [[|c s]|]; reflexivity. Qed.

Lemma validateCredentials_spec pe :
  validateCredentials pe
  = forallb truthy_opt
      [TWITTER_API_KEY pe; TWITTER_API_SECRET pe; TWITTER_ACCESS_TOKEN pe;
       TWITTER_ACCESS_TOKEN_SECRET pe].
Proof.
  unfold validateCredentials, TWITTER_CONFIG_API_KEY, TWITTER_CONFIG_API_SECRET,
    TWITTER_CONFIG_ACCESS_TOKEN, TWITTER_CONFIG_ACCESS_TOKEN_SECRET.
  cbn [forallb]. now rewrite !truthy_or_str_empty.
Qed.

Lemma tweet_action_unconfigured URL_new pe env options db :
  validateCredentials pe = false ->
  tweet_action URL_new pe env options db
  = (Exit MissingCredentials, db,
     [EvSpinnerFail ERROR_MESSAGES_MISSING_CREDENTIALS]).
Proof.
  intros Hv. unfold tweet_action. rewrite Hv. cbn [negb].
  rewrite try_catch_run, bind_run. reflexivity.
Qed.

Lemma tweet_action_connect_fails URL_new pe env options db e :
  validateCredentials pe = true ->
  connect_error env = Some e ->
  tweet_action URL_new pe env options db
  = (Exit (Errored e), db,
     [EvConnect;
      EvLog LError (js "Database initialization failed: " ++ Err_toString e)]
     ++ catch_report e).
Proof.
  intros Hv Hc. unfold tweet_action. rewrite Hv. cbn [negb].
  rewrite !try_catch_run, bind_run.
  unfold initialize. rewrite try_catch_run, bind_run. cbn [emit prepend].
  rewrite Hc. cbn [throw prepend app]. rewrite bind_run.
  cbn [logger_error emit throw prepend app].
  rewrite tweet_catch_run. reflexivity.
Qed.

Lemma tweet_action_rejected URL_new pe env options db :
  validateCredentials pe = true ->
  connect_error env = None ->
  (forall name, v2_me env <> inr (Some name)) ->
  exists entries,
    tweet_action URL_new pe env options db
    = (Exit CredentialsRejected, mkDatabase true (docs db),
       [EvConnect;
        EvLog LInfo (js "MongoDB database initialized successfully");
        EvApiMe]
       ++ entries ++ [EvSpinnerFail ERROR_MESSAGES_API_ERROR])
    /\ (entries = [] \/ exists text, entries = [EvLog LError text]).
Proof.
  intros Hv Hc Hme. unfold tweet_action. rewrite Hv. cbn [negb].
  rewrite !try_catch_run, bind_run.
  unfold initialize. rewrite try_catch_run, bind_run. cbn [emit prepend].
  rewrite Hc, bind_run. cbn [set_collection logger_info emit prepend app].
  rewrite bind_run. unfold verifyCredentials.
  rewrite try_catch_run, bind_run. cbn [emit prepend].
  destruct (v2_me env) as [e|[name|]].
  - cbn [throw prepend app]. rewrite bind_run.
    cbn [logger_error emit ret prepend app negb]. rewrite bind_run.
    cbn [spinner_fail emit exit prepend app].
    eexists [_]. split; [reflexivity|]. right. eexists. reflexivity.
  - now destruct (Hme name).
  - cbn [ret prepend app negb]. rewrite bind_run.
    cbn [spinner_fail emit exit prepend app].
    exists []. split; [reflexivity|]. now left.
Qed.

(** X19.  Missing credentials.  The static check fails exactly when
    one of the four variables of the environment is unset or empty; the
    [tweet] action then shows the missing-credentials error and leaves
    the program with exit code 1, having opened no connection to the
    store and called nothing on the network. *)
Theorem missing_credentials :
  forall (URL_new : jsstring -> option URL) (pe : ProcessEnv) (env : Env)
         (options : TweetOptions) (db : Database),
    (validateCredentials pe = false <->
     exists v,
       In v [TWITTER_API_KEY pe; TWITTER_API_SECRET pe;
             TWITTER_ACCESS_TOKEN pe; TWITTER_ACCESS_TOKEN_SECRET pe]
       /\ (v = None \/ v = Some []))
    /\ (validateCredentials pe = false ->
        tweet_action URL_new pe env options db
        = (Exit MissingCredentials, db,
           [EvSpinnerFail ERROR_MESSAGES_MISSING_CREDENTIALS])
        /\ exit_code MissingCredentials = 1%N).
Proof.
  intros URL_new pe env options db. split.
  - rewrite validateCredentials_spec. split.
    + intros H.
      destruct (forallb_forall truthy_opt
                  [TWITTER_API_KEY pe; TWITTER_API_SECRET pe;
                   TWITTER_ACCESS_TOKEN pe; TWITTER_ACCESS_TOKEN_SECRET pe])
        as [_ Hall].
      destruct (existsb (fun v => negb (truthy_opt v))
                  [TWITTER_API_KEY pe; TWITTER_API_SECRET pe;
                   TWITTER_ACCESS_TOKEN pe; TWITTER_ACCESS_TOKEN_SECRET pe])
        eqn:E.
      * apply existsb_exists in E. destruct E as (v & Hin & Hv).
        exists v. split; [exact Hin|].
        destruct v as [[|c s]|]; [now right|discriminate Hv|now left].
      * rewrite Hall in H; [discriminate H|].
        intros v Hin. destruct (truthy_opt v) eqn:Hv; [reflexivity|].
        assert (Hex : existsb (fun v => negb (truthy_opt v))
                        [TWITTER_API_KEY pe; TWITTER_API_SECRET pe;
                         TWITTER_ACCESS_TOKEN pe;
                         TWITTER_ACCESS_TOKEN_SECRET pe] = true).
        { apply existsb_exists. exists v. split; [exact Hin|].
          now rewrite Hv. }
        rewrite Hex in E. discriminate E.
    + intros (v & Hin & Hv).
      destruct (forallb truthy_opt _) eqn:E; [|reflexivity].
      rewrite forallb_forall in E. specialize (E v Hin).
      destruct Hv as [->| ->]; discriminate E.
  - intros Hv. split; [|reflexivity].
    now apply tweet_action_unconfigured.
Qed.

Lemma verification_cases URL_new pe env options db :
  (validateCredentials pe = true
   /\ connect_error env = None
   /\ exists name, v2_me env = inr (Some name))
  \/ (forallb before_pipeline
        (events (tweet_action URL_new pe env options db)) = true
      /\ docs (final_db (tweet_action URL_new pe env options db)) = docs db
      /\ exists o,
           result (tweet_action URL_new pe env options db) = Exit o
           /\ (o = MissingCredentials \/ o = CredentialsRejected
               \/ exists e, o = Errored e)).
Proof.
  destruct (validateCredentials pe) eqn:Hv.
  2:{ right. rewrite tweet_action_unconfigured by exact Hv.
      split; [reflexivity|]. split; [reflexivity|].
      eexists. split; [reflexivity|]. now left. }
  destruct (connect_error env) as [e|] eqn:Hc.
  { right. rewrite (tweet_action_connect_fails _ _ _ _ _ e Hv Hc).
    split; [reflexivity|]. split; [reflexivity|].
    eexists. split; [reflexivity|]. right. right. now exists e. }
  destruct (v2_me env) as [e|[name|]] eqn:Hme.
  - right.
    destruct (tweet_action_rejected URL_new pe env options db Hv Hc)
      as (entries & -> & Hq); [rewrite Hme; discriminate|].
    split; [|split; [reflexivity|]].
    + destruct Hq as [->|(text & ->)]; reflexivity.
    + eexists. split; [reflexivity|]. right. now left.
  - left. repeat split. now exists name.
  - right.
    destruct (tweet_action_rejected URL_new pe env options db Hv Hc)
      as (entries & -> & Hq); [rewrite Hme; discriminate|].
    split; [|split; [reflexivity|]].
    + destruct Hq as [->|(text & ->)]; reflexivity.
    + eexists. split; [reflexivity|]. right. now left.
Qed.

(** X20.  Nothing of the pipeline happens before the credentials are
    verified.  When one of the four variables is missing, or the store
    does not connect, or the API does not name the account, the [tweet]
    action leaves the program as [MissingCredentials],
    [CredentialsRejected] or through the catch clause, with the
    documents of the store as they were and with no query on the store,
    no insert, no page fetch and no call of the posting API among its
    events. *)
Theorem nothing_before_verification :
  forall (URL_new : jsstring -> option URL) (pe : ProcessEnv) (env : Env)
         (options : TweetOptions) (db : Database),
    validateCredentials pe = false
    \/ connect_error env <> None
    \/ (forall name, v2_me env <> inr (Some name)) ->
    forallb before_pipeline
      (events (tweet_action URL_new pe env options db)) = true
    /\ docs (final_db (tweet_action URL_new pe env options db)) = docs db
    /\ exists o,
         result (tweet_action URL_new pe env options db) = Exit o
         /\ (o = MissingCredentials \/ o = CredentialsRejected
             \/ exists e, o = Errored e).
Proof.
  intros URL_new pe env options db Hbad.
  destruct (verification_cases URL_new pe env options db)
    as [(Hv & Hc & name & Hme)|H]; [|exact H].
  exfalso. destruct Hbad as [H|[H|H]].
  - rewrite Hv in H. discriminate H.
  - now apply H.
  - now apply (H name).
Qed.

Lemma process_not_close URL_new pe env options :
  emits not_close (process URL_new pe env options).
Proof.
  unfold process, tweet_pipeline, tweet_catch, tweet_rest, tweet_publish,
    compose, postTweet,
    isPostProcessed, findOne_success, saveProcessedPost, saveSuccessfulPost,
    insertOne, processUrl, detectPlatform, extractContent,
    extractTwitterContent, extractInstagramContent, extractYouTubeContent,
    extractWebsiteContent, fetch_page,
    logger_info, logger_warn, logger_error, spinner_fail, spinner_succeed,
    console_log.
  emits_all.
Qed.

Lemma close_run env db :
  close env db =
    if collection_set db then
      match close_error env with
      | Some e => (Throw e, db, [EvClose])
      | None =>
          (Val tt, mkDatabase false (docs db),
           [EvClose; EvLog LInfo (js "MongoDB connection closed")])
      end
    else (Val tt, db, []).
Proof.
  unfold close. rewrite bind_run. cbn [get_db prepend].
  destruct (collection_set db); [|reflexivity].
  rewrite bind_run. cbn [emit prepend].
  destruct (close_error env); [reflexivity|].
  rewrite bind_run. reflexivity.
Qed.

(** X21.  The connection to the store is closed only after the
    pipeline returned: when the [tweet] action calls [close], the
    pipeline has ended as [Posted] or as [DryRunRecorded], and the
    action returns that outcome, or [close] itself threw and the action
    leaves through the catch clause.  The exits [AlreadyProcessed],
    [PostFailed] and the catch clause leave the program with the
    connection open. *)
Theorem close_only_after_return :
  forall (URL_new : jsstring -> option URL) (pe : ProcessEnv) (env : Env)
         (options : TweetOptions) (db : Database),
    In EvClose (events (tweet_action URL_new pe env options db)) ->
    result (tweet_action URL_new pe env options db)
    = Val (if opt_dryRun options then DryRunRecorded else Posted)
    \/ exists e,
         close_error env = Some e
         /\ result (tweet_action URL_new pe env options db)
            = Exit (Errored e).
Proof.
  intros URL_new pe env options db Hin.
  destruct (validateCredentials pe) eqn:Hv.
  2:{ rewrite tweet_action_unconfigured in Hin by exact Hv.
      destruct Hin as [H|[]]. discriminate H. }
  destruct (connect_error env) as [e|] eqn:Hc.
  { rewrite (tweet_action_connect_fails _ _ _ _ _ e Hv Hc) in Hin.
    cbn in Hin. destruct Hin as [H|[H|[H|[H|[]]]]]; discriminate H. }
  destruct (v2_me env) as [e|[name|]] eqn:Hme.
  1,3: destruct (tweet_action_rejected URL_new pe env options db Hv Hc)
         as (entries & Hrun & Hq); [rewrite Hme; discriminate|];
       rewrite Hrun in Hin; exfalso;
       destruct Hq as [->|(text & ->)]; cbn in Hin;
       repeat (destruct Hin as [H|Hin]; [discriminate H|]); exact Hin.
  rewrite (tweet_action_runs_process URL_new pe env options db name Hv Hc Hme)
    in *.
  pose proof (process_not_close URL_new pe env options
                (mkDatabase true (docs db))) as Hquiet.
  pose proof (pipeline_ends_cases URL_new pe env options
                (mkDatabase true (docs db))) as Hends.
  destruct (process URL_new pe env options (mkDatabase true (docs db)))
    as [[[o|e|o] db1] ev1]; cbn [result events fst snd] in Hquiet, Hends.
  - subst o. rewrite close_run in *.
    destruct (collection_set db1).
    + destruct (close_error env) as [e|] eqn:Hce.
      * right. exists e. split; [reflexivity|].
        rewrite tweet_catch_run. reflexivity.
      * left. reflexivity.
    + left. reflexivity.
  - destruct Hends.
  - exfalso. cbn [prepend events snd app] in Hin.
    destruct Hin as [H|[H|[H|[H|Hin]]]]; try discriminate H.
    rewrite forallb_forall in Hquiet. specialize (Hquiet _ Hin).
    discriminate Hquiet.
Qed.

(* ================================================================== *)
(** * The other methods of the store *)
(* ================================================================== *)

Lemma database_eta db :
  collection_set db = true -> mkDatabase true (docs db) = db.
Proof. destruct db as [c ds]. cbn. now intros ->. Qed.

Lemma deletePost_run failure url db :
  collection_set db = true ->
  deletePost failure url db =
    match failure with
    | Some e =>
        (Val false, db,
         [EvLog LError (js "Error deleting post: " ++ Err_toString e)])
    | None =>
        if url_stored url (docs db)
        then (Val true, mkDatabase true (delete_first url (docs db)),
              [EvLog LInfo (js "Deleted post: " ++ url)])
        else (Val false, db, [])
    end.
Proof.
  intros Hc. unfold deletePost. rewrite bind_run. cbn [get_db prepend].
  rewrite Hc. cbn [negb]. rewrite try_catch_run.
  destruct failure as [e|].
  - cbn [throw]. rewrite bind_run. reflexivity.
  - destruct (url_stored url (docs db)); [|reflexivity].
    rewrite !bind_run. cbn [put_docs prepend].
    rewrite bind_run. cbn [logger_info emit ret prepend app].
    now rewrite Hc.
Qed.

Lemma delete_first_absent url ds :
  url_stored url ds = false -> delete_first url ds = ds.
Proof.
  unfold url_stored. induction ds as [|d ds IH]; simpl; [reflexivity|].
  destruct (eqb (pp_url d) url); [discriminate|].
  intros H. now rewrite IH.
Qed.

Lemma delete_first_length url ds :
  url_stored url ds = true ->
  S (List.length (delete_first url ds)) = List.length ds.
Proof.
  unfold url_stored. induction ds as [|d ds IH]; simpl; [discriminate|].
  destruct (eqb (pp_url d) url); [reflexivity|].
  intros H. simpl. now rewrite IH.
Qed.

Lemma filter_other_absent url ds :
  url_stored url ds = false ->
  filter (fun d => negb (eqb (pp_url d) url)) ds = ds.
Proof.
  unfold url_stored. induction ds as [|d ds IH]; simpl; [reflexivity|].
  destruct (eqb (pp_url d) url); [discriminate|].
  intros H. simpl. now rewrite IH.
Qed.

Lemma delete_first_filter url ds :
  NoDup (map pp_url ds) ->
  delete_first url ds = filter (fun d => negb (eqb (pp_url d) url)) ds.
Proof.
  induction ds as [|d ds IH]; simpl; intros Hn; [reflexivity|].
  inversion Hn as [|u us Hnot Hrest]; subst.
  destruct (eqb (pp_url d) url) eqn:E; simpl.
  - apply eqb_eq in E. subst url.
    symmetry. apply filter_other_absent. now apply url_stored_false.
  - now rewrite IH.
Qed.

Lemma url_stored_filter url ds :
  url_stored url (filter (fun d => negb (eqb (pp_url d) url)) ds) = false.
Proof.
  unfold url_stored. induction ds as [|d ds IH]; simpl; [reflexivity|].
  destruct (eqb (pp_url d) url) eqn:E; simpl; [exact IH|].
  now rewrite E.
Qed.

Lemma success_recorded_filter url other ds :
  other <> url ->
  success_recorded other (filter (fun d => negb (eqb (pp_url d) url)) ds)
  = success_recorded other ds.
Proof.
  intros Hne. unfold success_recorded.
  induction ds as [|d ds IH]; simpl; [reflexivity|].
  destruct (eqb (pp_url d) url) eqn:E; simpl.
  - apply eqb_eq in E. unfold matches_success at 2.
    assert (Ho : eqb (pp_url d) other = false)
      by (apply eqb_neq; congruence).
    rewrite Ho. exact IH.
  - destruct (matches_success other d); [reflexivity|exact IH].
Qed.

(** X22.  [deletePost] on a connected store never throws: it answers
    [true] exactly when the driver did not fail and the store held a
    document of the URL, and then the store has one document less; on
    every other path, a failure of the driver included, it answers
    [false] and the store is as it was. *)
Theorem deletePost_total :
  forall (failure : option Err) (url : jsstring) (db : Database),
    collection_set db = true ->
    exists deleted db' evs,
      deletePost failure url db = (Val deleted, db', evs)
      /\ (deleted = true <->
          failure = None /\ url_stored url (docs db) = true)
      /\ (deleted = false -> db' = db)
      /\ (deleted = true ->
          S (List.length (docs db')) = List.length (docs db))
      /\ (forall e, failure = Some e ->
            evs = [EvLog LError (js "Error deleting post: "
                                 ++ Err_toString e)]).
Proof.
  intros failure url db Hc. rewrite deletePost_run by exact Hc.
  destruct failure as [e|];
    [|destruct (url_stored url (docs db)) eqn:Hs];
    eexists; eexists; eexists; (split; [reflexivity|]).
  - repeat split; try discriminate.
    + intros (H & _). discriminate H.
    + intros e' H. now injection H as <-.
  - repeat split; try discriminate.
    intros _. cbn [docs]. now apply delete_first_length.
  - repeat split; try discriminate.
    intros (_ & H). discriminate H.
Qed.

(** X23.  After [deletePost] the URL is new again.  On a connected
    store with distinct URLs and a driver that works, the store is left
    with every document of another URL, in order, and none of this one:
    the duplicate check on the URL answers no, and its answer on every
    other URL is what it was. *)
Theorem deletePost_forgets :
  forall (url : jsstring) (db : Database),
    collection_set db = true ->
    unique_urls db ->
    exists evs,
      deletePost None url db
      = (Val (url_stored url (docs db)),
         mkDatabase true
           (filter (fun d => negb (eqb (pp_url d) url)) (docs db)),
         evs)
      /\ url_stored url
           (filter (fun d => negb (eqb (pp_url d) url)) (docs db)) = false
      /\ (forall env,
            result (isPostProcessed env url
                      (final_db (deletePost None url db)))
            = Val false)
      /\ (forall other,
            other <> url ->
            success_recorded other
              (filter (fun d => negb (eqb (pp_url d) url)) (docs db))
            = success_recorded other (docs db)).
Proof.
  intros url db Hc Hu.
  assert (Hrun : exists evs,
             deletePost None url db
             = (Val (url_stored url (docs db)),
                mkDatabase true
                  (filter (fun d => negb (eqb (pp_url d) url)) (docs db)),
                evs)).
  { rewrite deletePost_run by exact Hc.
    destruct (url_stored url (docs db)) eqn:Hs.
    - rewrite delete_first_filter by exact Hu. eexists. reflexivity.
    - rewrite filter_other_absent by exact Hs.
      rewrite database_eta by exact Hc. eexists. reflexivity. }
  destruct Hrun as (evs & Hrun). exists evs.
  split; [exact Hrun|]. split; [apply url_stored_filter|]. split.
  - intros env. rewrite Hrun. cbn [final_db fst snd].
    rewrite isPostProcessed_run by reflexivity. cbn [result fst docs].
    destruct (findOne_error env); [reflexivity|].
    f_equal. destruct (success_recorded url _) eqn:E; [|reflexivity].
    apply success_recorded_spec in E. destruct E as (d & Hin & Hurl & _).
    pose proof (url_stored_filter url (docs db)) as Hf.
    apply url_stored_false in Hf. exfalso. apply Hf.
    apply in_map_iff. now exists d.
  - intros other Hne. now apply success_recorded_filter.
Qed.

Lemma delete_first_snoc url ds d :
  url_stored url ds = false -> pp_url d = url ->
  delete_first url (ds ++ [d]) = ds.
Proof.
  unfold url_stored. intros Hs Hd.
  induction ds as [|x ds IH]; simpl in *.
  - rewrite Hd, eqb_refl. reflexivity.
  - destruct (eqb (pp_url x) url); [discriminate|].
    now rewrite IH.
Qed.

(** X24.  Round trip.  Saving the record of a URL the store does not
    hold and deleting the URL again gives back the store there was. *)
Theorem save_then_delete :
  forall (env : Env) (post : ProcessedPost) (db : Database),
    collection_set db = true ->
    url_stored (pp_url post) (docs db) = false ->
    insertOne_error env = None ->
    exists evs,
      (saveProcessedPost env post ;; deletePost None (pp_url post)) db
      = (Val true, db, evs).
Proof.
  intros env post db Hc Hs Hi. rewrite bind_run.
  rewrite saveProcessedPost_run by exact Hc. rewrite Hi, Hs.
  cbn [prepend]. rewrite deletePost_run by reflexivity. cbn [docs].
  rewrite url_stored_app by reflexivity.
  rewrite delete_first_snoc by (try exact Hs; reflexivity).
  rewrite database_eta by exact Hc. eexists. reflexivity.
Qed.







(* ================================================================== *)
(** * The statistics *)
(* ================================================================== *)

Lemma filter_length_le_of {A} (f g : A -> bool) (l : list A) :
  (forall x, f x = true -> g x = true) ->
  List.length (filter f l) <= List.length (filter g l).
Proof.
  intros H. induction l as [|x l IH]; simpl; [lia|].
  destruct (f x) eqn:E.
  - rewrite (H x E). simpl. lia.
  - destruct (g x); simpl; lia.
Qed.

Lemma count_success_failure ds :
  countDocuments is_success ds + countDocuments is_failure ds
  <= countDocuments (fun _ => true) ds.
Proof.
  unfold countDocuments, is_success, is_failure.
  induction ds as [|d ds IH]; simpl; [lia|].
  destruct (pp_success d) as [[|]|]; simpl; lia.
Qed.

Lemma bump_sum key groups :
  list_sum (map snd (bump key groups)) = S (list_sum (map snd groups)).
Proof.
  induction groups as [|[k n] groups IH]; simpl; [reflexivity|].
  destruct (eqb k key); simpl; [reflexivity|]. rewrite IH. lia.
Qed.

Lemma bump_keys key groups x :
  In x (map fst (bump key groups)) <-> x = key \/ In x (map fst groups).
Proof.
  induction groups as [|[k n] groups IH]; simpl.
  - intuition.
  - destruct (eqb k key) eqn:E; simpl.
    + apply eqb_eq in E. subst k. intuition.
    + rewrite IH. intuition.
Qed.

Lemma bump_NoDup key groups :
  NoDup (map fst groups) -> NoDup (map fst (bump key groups)).
Proof.
  induction groups as [|[k n] groups IH]; simpl; intros Hn.
  - repeat constructor. intros [].
  - inversion Hn as [|u us Hnot Hrest]; subst.
    destruct (eqb k key) eqn:E; simpl.
    + now constructor.
    + constructor; [|now apply IH].
      rewrite bump_keys. intros [->|H]; [|contradiction].
      now rewrite eqb_refl in E.
Qed.

Lemma bump_positive key groups :
  Forall (fun entry => 0 < snd entry) groups ->
  Forall (fun entry => 0 < snd entry) (bump key groups).
Proof.
  induction groups as [|[k n] groups IH]; simpl; intros H.
  - repeat constructor.
  - inversion H as [|x xs Hx Hxs]; subst.
    destruct (eqb k key); constructor; simpl; auto; lia.
Qed.

Lemma group_count_from keys :
  forall groups,
    let result := fold_left (fun groups key => bump key groups) keys groups in
    list_sum (map snd result)
    = list_sum (map snd groups) + List.length keys
    /\ (NoDup (map fst groups) -> NoDup (map fst result))
    /\ (Forall (fun entry => 0 < snd entry) groups ->
        Forall (fun entry => 0 < snd entry) result)
    /\ (forall x, In x (map fst result) ->
                  In x keys \/ In x (map fst groups)).
Proof.
  induction keys as [|key keys IH]; intros groups; cbn [fold_left].
  - cbn. repeat split; auto; lia.
  - destruct (IH (bump key groups)) as (Hs & Hn & Hp & Hk).
    cbv zeta in *. rewrite Hs, bump_sum. cbn [List.length].
    split; [lia|]. split; [|split].
    + intros H. now apply Hn, bump_NoDup.
    + intros H. now apply Hp, bump_positive.
    + intros x Hx. destruct (Hk x Hx) as [H|H]; [left; now right|].
      apply bump_keys in H. destruct H as [->|H]; [left; now left|now right].
Qed.

Lemma record_of_groups_sum groups :
  list_sum (map snd (record_of_groups groups)) <= list_sum (map snd groups).
Proof.
  unfold record_of_groups.
  induction groups as [|[k n] groups IH]; simpl; [lia|].
  destruct (eqb k (js "__proto__")); simpl; lia.
Qed.

Lemma record_of_groups_all groups :
  ~ In (js "__proto__") (map fst groups) -> record_of_groups groups = groups.
Proof.
  unfold record_of_groups.
  induction groups as [|[k n] groups IH]; simpl; intros H; [reflexivity|].
  destruct (eqb k (js "__proto__")) eqn:E.
  - apply eqb_eq in E. exfalso. apply H. now left.
  - simpl. rewrite IH by tauto. reflexivity.
Qed.

Lemma record_of_groups_NoDup groups :
  NoDup (map fst groups) -> NoDup (map fst (record_of_groups groups)).
Proof.
  unfold record_of_groups.
  induction groups as [|[k n] groups IH]; simpl; intros Hn; [constructor|].
  inversion Hn as [|u us Hnot Hrest]; subst.
  destruct (negb (eqb k (js "__proto__"))); simpl; [|now apply IH].
  constructor; [|now apply IH].
  intros Hin. apply Hnot. apply in_map_iff in Hin.
  destruct Hin as (x & Hx & Hin). apply filter_In in Hin.
  apply in_map_iff. exists x. now split.
Qed.

Lemma record_of_groups_positive groups :
  Forall (fun entry => 0 < snd entry) groups ->
  Forall (fun entry => 0 < snd entry) (record_of_groups groups).
Proof.
  unfold record_of_groups. rewrite !Forall_forall. intros H entry Hin.
  apply filter_In in Hin. now apply H.
Qed.

Lemma getStatistics_run windows failure db :
  collection_set db = true ->
  getStatistics windows failure db =
    match failure with
    | Some e =>
        (Val no_statistics, db,
         [EvLog LError (js "Error getting statistics: " ++ Err_toString e)])
    | None =>
        (Val {| st_total := countDocuments (fun _ => true) (docs db);
                st_successful := countDocuments is_success (docs db);
                st_failed := countDocuments is_failure (docs db);
                st_byPlatform :=
                  record_of_groups
                    (group_count
                       (map pp_platform (filter is_success (docs db))));
                st_byUsername :=
                  record_of_groups (group_count (usernames (docs db)));
                st_today :=
                  countDocuments (since (today_start windows)) (docs db);
                st_thisWeek :=
                  countDocuments (since (week_start windows)) (docs db);
                st_thisMonth :=
                  countDocuments (since (month_start windows)) (docs db) |},
         db, [])
    end.
Proof.
  intros Hc. unfold getStatistics. rewrite bind_run. cbn [get_db prepend].
  rewrite Hc. cbn [negb]. rewrite try_catch_run.
  destruct failure as [e|]; [|reflexivity].
  cbn [throw]. rewrite bind_run. reflexivity.
Qed.

Lemma since_le t1 t2 d :
  (t1 <= t2)%N -> since t2 d = true -> since t1 d = true.
Proof.
  unfold since. intros Hle H. apply andb_true_iff in H. destruct H as [H1 H2].
  rewrite H2, andb_true_r. apply N.leb_le in H1. apply N.leb_le. lia.
Qed.

Lemma usernames_length ds :
  List.length (usernames ds) <= countDocuments is_success ds.
Proof.
  unfold countDocuments. induction ds as [|d ds IH]; simpl; [lia|].
  destruct (pp_suremarkUsername d); destruct (is_success d); simpl; lia.
Qed.

(** X26.  The counters of [getStatistics].  On a connected store the
    method returns and never throws, and leaves the store alone.  The
    successful and the failed documents together are at most the
    total; the counts of today, of the last seven days and of this
    month count successes only and are at most the number of
    successes, and a later start of a period never gives a larger
    count.  When the driver fails every counter is zero and both
    records are empty. *)
Theorem getStatistics_counters :
  forall (windows : Windows) (failure : option Err) (db : Database),
    collection_set db = true ->
    exists st evs,
      getStatistics windows failure db = (Val st, db, evs)
      /\ st_successful st + st_failed st <= st_total st
      /\ (failure = None -> st_total st = List.length (docs db))
      /\ st_today st <= st_successful st
      /\ st_thisWeek st <= st_successful st
      /\ st_thisMonth st <= st_successful st
      /\ ((week_start windows <= today_start windows)%N ->
          st_today st <= st_thisWeek st)
      /\ ((month_start windows <= today_start windows)%N ->
          st_today st <= st_thisMonth st)
      /\ (failure <> None -> st = no_statistics).
Proof.
  intros windows failure db Hc. rewrite getStatistics_run by exact Hc.
  destruct failure as [e|]; eexists; eexists; (split; [reflexivity|]).
  - cbn. repeat split; intros; try lia. discriminate.
  - cbn [st_total st_successful st_failed st_today st_thisWeek st_thisMonth].
    split; [apply count_success_failure|].
    split.
    { intros _. unfold countDocuments. clear Hc.
      induction (docs db) as [|d ds IH]; simpl; [reflexivity|now f_equal]. }
    assert (Hs : forall t,
               countDocuments (since t) (docs db)
               <= countDocuments is_success (docs db)).
    { intros t. apply filter_length_le_of. intros d H.
      unfold since in H. apply andb_true_iff in H. tauto. }
    repeat split; try apply Hs.
    + intros Hle. apply filter_length_le_of. intros d.
      now apply since_le.
    + intros Hle. apply filter_length_le_of. intros d.
      now apply since_le.
    + intros H. now destruct H.
Qed.

(** X27.  The two records of [getStatistics].  On a connected store
    with a driver that works, no key occurs twice in a record and every
    count is positive; the counts by platform add up to at most the
    number of successes, and to exactly that number when no successful
    document has the platform [__proto__], the one key the assignment
    to the record drops; the counts by user name add up to at most the
    number of successes. *)
Theorem getStatistics_records :
  forall (windows : Windows) (db : Database),
    collection_set db = true ->
    exists st,
      result (getStatistics windows None db) = Val st
      /\ NoDup (map fst (st_byPlatform st))
      /\ NoDup (map fst (st_byUsername st))
      /\ Forall (fun entry => 0 < snd entry)
           (st_byPlatform st ++ st_byUsername st)
      /\ list_sum (map snd (st_byPlatform st)) <= st_successful st
      /\ list_sum (map snd (st_byUsername st)) <= st_successful st
      /\ ((forall d, In d (docs db) -> is_success d = true ->
                     pp_platform d <> js "__proto__") ->
          list_sum (map snd (st_byPlatform st)) = st_successful st)
      /\ (forall key, In key (map fst (st_byPlatform st)) ->
            exists d, In d (docs db) /\ is_success d = true
                      /\ pp_platform d = key).
Proof.
  intros windows db Hc. rewrite getStatistics_run by exact Hc.
  eexists. split; [reflexivity|].
  cbn [st_byPlatform st_byUsername st_successful].
  unfold group_count.
  destruct (group_count_from (map pp_platform (filter is_success (docs db))) [])
    as (Hs1 & Hn1 & Hp1 & Hk1).
  destruct (group_count_from (usernames (docs db)) [])
    as (Hs2 & Hn2 & Hp2 & _).
  cbv zeta in *. cbn [map fst] in Hn1, Hn2, Hk1.
  change (list_sum (map snd [])) with 0 in Hs1, Hs2. cbn [Nat.add] in Hs1, Hs2.
  rewrite length_map in Hs1.
  split; [apply record_of_groups_NoDup, Hn1; constructor|].
  split; [apply record_of_groups_NoDup, Hn2; constructor|].
  split.
  { apply Forall_app. split; apply record_of_groups_positive;
      [apply Hp1|apply Hp2]; constructor. }
  split.
  { etransitivity; [apply record_of_groups_sum|].
    rewrite Hs1. unfold countDocuments. lia. }
  split.
  { etransitivity; [apply record_of_groups_sum|].
    rewrite Hs2. apply usernames_length. }
  split.
  - intros Hp. rewrite record_of_groups_all; [exact Hs1|].
    intros Hin. destruct (Hk1 _ Hin) as [H|[]].
    apply in_map_iff in H. destruct H as (d & Hd & Hf).
    apply filter_In in Hf. destruct Hf as [Hin' Hsuc].
    now apply (Hp d Hin' Hsuc).
  - intros key Hkey. apply in_map_iff in Hkey.
    destruct Hkey as (entry & <- & Hentry).
    unfold record_of_groups in Hentry. apply filter_In in Hentry.
    destruct Hentry as [Hentry _].
    destruct (Hk1 (fst entry)) as [H|[]];
      [apply in_map_iff; now exists entry|].
    apply in_map_iff in H. destruct H as (d & Hd & Hf).
    apply filter_In in Hf. exists d. tauto.
Qed.

(* ================================================================== *)
(** * The listings *)
(* ================================================================== *)




(* ================================================================== *)
(** * A store that is not connected *)
(* ================================================================== *)

(** X29.  Before [initialize] and after [close].  On a store that is
    not connected every method that reads or writes documents throws
    the error [Database not initialized], with no call of the driver
    and nothing logged; and [close], when the driver closes, leaves the
    store not connected, so that a duplicate check after it throws. *)
Theorem not_connected_throws :
  forall (env : Env) (db : Database) (url tweetId tweetUrl : jsstring)
         (post : ProcessedPost) (windows : Windows) (failure : option Err)
         (cursor : Query -> Z -> list ProcessedPost
                   -> Err + list ProcessedPost)
         (what : jsstring) (query : Query) (limit : Z),
    (collection_set db = false ->
     isPostProcessed env url db = (Throw not_initialized, db, [])
     /\ saveProcessedPost env post db = (Throw not_initialized, db, [])
     /\ saveSuccessfulPost env post (Some tweetId) (Some tweetUrl) db
        = (Throw not_initialized, db, [])
     /\ updateTweetInfo env failure url tweetId tweetUrl db
        = (Throw not_initialized, db, [])
     /\ deletePost failure url db = (Throw not_initialized, db, [])
     /\ getStatistics windows failure db = (Throw not_initialized, db, [])
     /\ list_posts cursor what query limit db
        = (Throw not_initialized, db, []))
    /\ (close_error env = None ->
        result ((close env ;; isPostProcessed env url) db)
        = Throw not_initialized).
Proof.
  intros env db url tweetId tweetUrl post windows failure cursor what query
    limit. split.
  - intros Hc.
    split; [now apply isPostProcessed_unset|].
    split; [now apply save_unset_dry|].
    split; [now apply save_unset_success|].
    repeat split;
      unfold updateTweetInfo, deletePost, getStatistics, list_posts;
      rewrite bind_run; cbn [get_db prepend]; rewrite Hc; reflexivity.
  - intros Hce. rewrite bind_run, close_run, Hce.
    destruct (collection_set db) eqn:Hc; cbn [prepend].
    + rewrite isPostProcessed_unset by reflexivity. reflexivity.
    + rewrite isPostProcessed_unset by exact Hc. reflexivity.
Qed.

(* ================================================================== *)
(** * The search of the posting client *)
(* ================================================================== *)

Lemma collect_tweets_spec {Tweet} (count : Z) (items : list Tweet) failure :
  forall tweets,
    let need :=
      Z.to_nat (Z.max 1 (count - Z.of_nat (List.length tweets))) in
    collect_tweets count tweets items failure =
      if Nat.leb need (List.length items)
      then (tweets ++ firstn need items, None)
      else (tweets ++ items, failure).
Proof.
  induction items as [|tweet items IH]; intros tweets need; subst need.
  - cbn [collect_tweets List.length].
    destruct (Nat.leb _ 0) eqn:E; [|now rewrite app_nil_r].
    apply Nat.leb_le in E. lia.
  - cbn [collect_tweets]. rewrite length_app. cbn [List.length].
    destruct (Z.leb count (Z.of_nat (List.length tweets + 1))) eqn:Hc.
    + apply Z.leb_le in Hc.
      replace (Z.to_nat (Z.max 1 (count - Z.of_nat (List.length tweets))))
        with 1 by lia.
      reflexivity.
    + apply Z.leb_gt in Hc. rewrite IH. rewrite length_app.
      cbn [List.length].
      replace (Z.to_nat (Z.max 1 (count - Z.of_nat (List.length tweets))))
        with (S (Z.to_nat
                   (Z.max 1 (count - Z.of_nat (List.length tweets + 1)))))
        by lia.
      cbn [Nat.leb firstn]. rewrite <- !app_assoc.
      destruct (Nat.leb _ (List.length items)); reflexivity.
Qed.

(** X30.  [searchTweets] never throws and does not touch the store:
    for every answer of the search it returns a result, and a result
    that is not a success carries no tweets, the message of an error
    and comes with that error logged.  When the search call itself
    fails (the first page cannot be fetched) the result is that
    failure.  When the search answers with a paginator that yields
    enough tweets, the result holds the first [count] tweets, and one
    tweet when [count] is zero or negative: the loop stops only after a
    push.  The iteration stops as soon as there are enough tweets, so a
    failure of a later page is not seen; with too few tweets the result
    is all of them, or, when a later page failed, no tweets and the
    message of the error.  The page size asked for is the smaller of
    [count] and 100, and [count] is 10 when none is given. *)
Theorem searchTweets_collects :
  forall (Tweet : Type) (search : jsstring -> Z -> Err + Paginator Tweet)
         (query : jsstring) (given : option Z) (db : Database),
    let count := match given with Some c => c | None => 10%Z end in
    let need := Z.to_nat (Z.max 1 count) in
    (exists r evs,
        searchTweets search query given db = (Val r, db, evs)
        /\ (sr_success r = true -> sr_tweets r <> None /\ evs = [])
        /\ (sr_success r = false ->
            exists e,
              r = mkSearchResult false None (Some (err_message e))
              /\ evs = [EvLog LError (js "Error searching tweets: "
                                      ++ err_message e)]))
    /\ (forall e,
           search query (Z.min count 100) = inl e ->
           searchTweets search query given db
           = (Val (mkSearchResult false None (Some (err_message e))), db,
              [EvLog LError (js "Error searching tweets: "
                             ++ err_message e)]))
    /\ (forall paginator,
           search query (Z.min count 100) = inr paginator ->
           (need <= List.length (pg_items paginator) ->
            searchTweets search query given db
            = (Val (mkSearchResult true
                      (Some (firstn need (pg_items paginator))) None),
               db, []))
           /\ (List.length (pg_items paginator) < need ->
               pg_failure paginator = None ->
               searchTweets search query given db
               = (Val (mkSearchResult true (Some (pg_items paginator)) None),
                  db, []))
           /\ (forall e,
                  List.length (pg_items paginator) < need ->
                  pg_failure paginator = Some e ->
                  searchTweets search query given db
                  = (Val (mkSearchResult false None (Some (err_message e))),
                     db,
                     [EvLog LError (js "Error searching tweets: "
                                    ++ err_message e)]))).
Proof.
  intros Tweet search query given db count need.
  assert (Hcall : forall e,
             search query (Z.min count 100) = inl e ->
             searchTweets search query given db
             = (Val (mkSearchResult false None (Some (err_message e))), db,
                [EvLog LError (js "Error searching tweets: "
                               ++ err_message e)])).
  { intros e Hs. unfold searchTweets. cbv zeta. fold count.
    rewrite try_catch_run, Hs. cbn [throw]. rewrite bind_run. reflexivity. }
  assert (Hpages : forall paginator,
             search query (Z.min count 100) = inr paginator ->
             searchTweets search query given db
             = if Nat.leb need (List.length (pg_items paginator))
               then (Val (mkSearchResult true
                            (Some (firstn need (pg_items paginator))) None),
                     db, [])
               else match pg_failure paginator with
                    | None =>
                        (Val (mkSearchResult true
                                (Some (pg_items paginator)) None), db, [])
                    | Some e =>
                        (Val (mkSearchResult false None
                                (Some (err_message e))), db,
                         [EvLog LError (js "Error searching tweets: "
                                        ++ err_message e)])
                    end).
  { intros paginator Hs. unfold searchTweets. cbv zeta. fold count.
    rewrite try_catch_run, Hs, collect_tweets_spec. cbv zeta.
    cbn [List.length app].
    replace (count - Z.of_nat 0)%Z with count by lia. fold need.
    destruct (Nat.leb need (List.length (pg_items paginator)));
      [reflexivity|].
    destruct (pg_failure paginator) as [e|]; [|reflexivity].
    cbn [throw]. rewrite bind_run. reflexivity. }
  split; [|split].
  - destruct (search query (Z.min count 100)) as [e|paginator] eqn:Hs.
    + rewrite (Hcall e eq_refl). eexists; eexists.
      split; [reflexivity|]. split; [discriminate|].
      intros _. exists e. split; reflexivity.
    + rewrite (Hpages paginator eq_refl).
      destruct (Nat.leb need (List.length (pg_items paginator)));
        [|destruct (pg_failure paginator) as [e|]];
        eexists; eexists; (split; [reflexivity|]); cbn [sr_success sr_tweets].
      * split; [intros _; split; [discriminate|reflexivity]|discriminate].
      * split; [discriminate|]. intros _. exists e. split; reflexivity.
      * split; [intros _; split; [discriminate|reflexivity]|discriminate].
  - exact Hcall.
  - intros paginator Hs. rewrite (Hpages paginator Hs). split; [|split].
    + intros Hle. apply Nat.leb_le in Hle. now rewrite Hle.
    + intros Hlt Hf. apply Nat.leb_gt in Hlt. now rewrite Hlt, Hf.
    + intros e Hlt Hf. apply Nat.leb_gt in Hlt. now rewrite Hlt, Hf.
Qed.

(* ================================================================== *)
(** * The further theorems on the samples *)
(* ================================================================== *)

Lemma fresh_not_In c s : fresh c s = true -> ~ In c s.
Proof. apply fresh_spec. Qed.

Lemma read_urls_clean_witness :
  In Sample.u1 (read_urls Cases.url_file) /\ clean_line Sample.u1.
Proof.
  assert (H : In Sample.u1 (read_urls Cases.url_file))
    by (vm_compute; left; reflexivity).
  split; [exact H|].
  exact (proj1 (read_urls_clean Cases.url_file Sample.u1 H)).
Defined.

Lemma read_urls_by_line_witness :
  (forall l, In l Cases.file_lines -> ~ In line_feed l)
  /\ read_urls (join LF Cases.file_lines)
     = filter keep_line (map trim Cases.file_lines)
  /\ filter keep_line (map trim Cases.file_lines) = [Sample.u1; Sample.u3].
Proof.
  assert (H : forall l, In l Cases.file_lines -> ~ In line_feed l).
  { intros l Hl. apply fresh_not_In.
    assert (Hall : forallb (fresh line_feed) Cases.file_lines = true)
      by (vm_compute; reflexivity).
    rewrite forallb_forall in Hall. now apply Hall. }
  split; [exact H|]. split.
  - exact (proj1 (read_urls_by_line Cases.file_lines H)).
  - vm_compute. reflexivity.
Defined.

Lemma clean_sample_urls : Forall clean_line [Sample.u1; Sample.u3].
Proof.
  repeat constructor; try discriminate; try (vm_compute; reflexivity);
    apply fresh_not_In; vm_compute; reflexivity.
Defined.

Lemma read_urls_round_trip_witness :
  Forall clean_line [Sample.u1; Sample.u3]
  /\ read_urls (join LF [Sample.u1; Sample.u3]) = [Sample.u1; Sample.u3].
Proof.
  split; [exact clean_sample_urls|].
  exact (read_urls_round_trip [Sample.u1; Sample.u3] clean_sample_urls).
Defined.

Lemma detectPlatform_substring_witness :
  Sample.URL_new Cases.u_netflix
    = Some (mkURL (js "netflix.com") (js "/title/1"))
  /\ detectPlatform Sample.URL_new Cases.u_netflix Sample.db0
     = (Val (js "twitter"), Sample.db0, []).
Proof.
  split; [reflexivity|].
  exact (detectPlatform_substring Sample.URL_new Cases.u_netflix
           (mkURL (js "netflix.com") (js "/title/1"))
           (js "x.com") (js "netfli") [] Sample.db0
           eq_refl (or_intror (or_introl eq_refl)) eq_refl).
Defined.

Lemma extractTweetId_segment_witness :
  extractTweetId Sample.URL_new Sample.u3 = Some (js "42")
  /\ exists urlObj,
       Sample.URL_new Sample.u3 = Some urlObj
       /\ In (js "42") (split_unit slash (pathname urlObj))
       /\ js "42" <> []
       /\ ~ In slash (js "42").
Proof.
  split; [reflexivity|].
  exact (extractTweetId_segment Sample.URL_new Sample.u3 (js "42") eq_refl).
Defined.

Lemma extractContent_record_witness :
  exists ex evs,
    extractContent Sample.URL_new Sample.env Sample.u1 (js "website")
      Sample.db0
    = (Val ex, Sample.db0, evs)
    /\ sound_record Sample.env ex
    /\ filter network_access evs = [EvHttpGet Sample.u1].
Proof.
  destruct (extractContent_record Sample.URL_new Sample.env Sample.u1
              (js "website") Sample.db0)
    as (ex & evs & Hrun & Hrec & Hnet & _).
  exists ex, evs. exact (conj Hrun (conj Hrec Hnet)).
Defined.

Lemma message_length_witness :
  get_property PLATFORM_SPECIFIC (js "instagram") <> Inherited
  /\ exists message,
       generateVerificationMessage (js "instagram") (js "alice")
         (js "https://suremark.com/dashboard") None = inr message
       /\ List.length message + 34
          = List.length (selected_template (js "instagram"))
            + List.length (js "alice")
            + List.length (js "https://suremark.com/dashboard")
       /\ (List.length (js "alice")
           + List.length (js "https://suremark.com/dashboard") <= 176 ->
           List.length message <= PROCESSING_CONFIG_MAX_TWEET_LENGTH).
Proof.
  assert (H : get_property PLATFORM_SPECIFIC (js "instagram") <> Inherited)
    by (vm_compute; discriminate).
  split; [exact H|].
  apply (message_length (js "instagram") (js "alice")
           (js "https://suremark.com/dashboard") H);
    apply fresh_not_In; vm_compute; reflexivity.
Defined.

Lemma custom_message_verbatim_witness :
  js "Verified by SureMark" <> []
  /\ generateVerificationMessage (js "constructor") (js "alice")
       (js "https://suremark.com/dashboard") (Some (js "Verified by SureMark"))
     = inr (js "Verified by SureMark").
Proof.
  assert (H : js "Verified by SureMark" <> []) by discriminate.
  split; [exact H|].
  apply (proj2 (custom_message_verbatim (js "constructor") (js "alice")
                  (js "https://suremark.com/dashboard")
                  (js "Verified by SureMark") H)); reflexivity.
Defined.

Lemma postTweet_total_witness :
  PROCESSING_CONFIG_MAX_TWEET_LENGTH < List.length Cases.long_message
  /\ postTweet Sample.env Cases.long_message None Sample.db0
     = (Val too_long_result, Sample.db0, []).
Proof.
  assert (H : PROCESSING_CONFIG_MAX_TWEET_LENGTH
              < List.length Cases.long_message)
    by (vm_compute; lia).
  split; [exact H|].
  destruct (postTweet_total Sample.env Cases.long_message None Sample.db0)
    as (r & evs & Hrun & Hlong & _).
  destruct (Hlong H) as [-> ->]. exact Hrun.
Defined.

Lemma replyToTweet_target_witness :
  replyToTweet Sample.env [] (js "Thanks") Sample.db0
  = postTweet Sample.env (js "Thanks") None Sample.db0
  /\ filter posting_call
       (events (replyToTweet Sample.env (js "42") (js "Thanks") Sample.db0))
     = [EvApiTweet (js "Thanks") (Some (js "42"))].
Proof.
  split.
  - exact (proj1 (replyToTweet_target Sample.env [] (js "Thanks") Sample.db0)
             eq_refl).
  - apply (proj2 (replyToTweet_target Sample.env (js "42") (js "Thanks")
                    Sample.db0)).
    + discriminate.
    + vm_compute; lia.
Defined.

Lemma process_adds_at_most_one_witness :
  Sample.URL_new [] = None
  /\ unique_urls Cases.db_two
  /\ unique_urls
       (final_db (process Sample.URL_new Sample.pe Sample.env
                    (Sample.tweet_options Cases.u_netflix true) Cases.db_two)).
Proof.
  assert (H : unique_urls Cases.db_two).
  { unfold unique_urls. repeat constructor; cbn.
    - intros [H|[]]. discriminate H.
    - intros []. }
  split; [reflexivity|]. split; [exact H|].
  exact (proj1 (proj2 (proj2
           (process_adds_at_most_one Sample.URL_new Sample.pe eq_refl
              Sample.env (Sample.tweet_options Cases.u_netflix true)
              Cases.db_two))) H).
Defined.

Lemma runBatch_store_witness :
  Sample.URL_new [] = None
  /\ exists c evs added,
       runBatch Sample.URL_new Sample.pe (fun _ => Sample.env)
         (mkBatchOptions 30 None true)
         [Sample.u1; Sample.u2; Sample.u3; Sample.u1] Cases.db_two
       = (Val c, mkDatabase true (docs Cases.db_two ++ added), evs)
       /\ NoDup (map pp_url added)
       /\ List.length added <= processed c.
Proof.
  split; [reflexivity|].
  destruct (runBatch_store Sample.URL_new Sample.pe eq_refl
              (fun _ => Sample.env) (mkBatchOptions 30 None true)
              [Sample.u1; Sample.u2; Sample.u3; Sample.u1] Cases.db_two)
    as (c & evs & added & Hrun & Hn & _ & Hlen & _).
  exists c, evs, added. exact (conj Hrun (conj Hn Hlen)).
Defined.

Lemma no_success_in_db_dry : ~ holds_success Sample.u1 (docs Cases.db_dry).
Proof.
  intros (d & Hin & _ & Hs). destruct Hin as [<-|[]]. discriminate Hs.
Defined.

Lemma live_run_after_dry_run_witness :
  url_stored Sample.u1 (docs Cases.db_dry) = true
  /\ exists evs,
       process Sample.URL_new Sample.pe Sample.env
         (Sample.tweet_options Sample.u1 false) Cases.db_dry
       = (Val Posted, Cases.db_dry, evs)
       /\ existsb posting_call evs = true.
Proof.
  split; [reflexivity|].
  destruct (live_run_after_dry_run Sample.URL_new Sample.pe eq_refl
              Sample.env (Sample.tweet_options Sample.u1 false) Cases.db_dry
              (mkURL (js "example.com") (js "/a")) (js "1234567890")
              eq_refl eq_refl eq_refl eq_refl no_success_in_db_dry eq_refl)
    as (pre & post & Hrun & _).
  - vm_compute; lia.
  - reflexivity.
  - eexists. split; [exact Hrun|].
    rewrite existsb_app. rewrite existsb_app. cbn [existsb posting_call].
    rewrite orb_true_r. reflexivity.
Defined.

Lemma no_success_in_db0 url : ~ holds_success url (docs Sample.db0).
Proof. intros (d & [] & _). Defined.

Lemma too_long_message_witness :
  PROCESSING_CONFIG_MAX_TWEET_LENGTH
    < List.length (message_of Sample.pe (js "website") None
                     (Some Cases.long_message))
  /\ exists pre,
       process Sample.URL_new Sample.pe Sample.env
         (mkTweetOptions Sample.u1 (Some Cases.long_message) None false)
         Sample.db0
       = (Exit PostFailed, Sample.db0,
          pre ++ [EvSpinnerFail ERROR_MESSAGES_TWEET_TOO_LONG])
       /\ Forall (fun e => posting_call e = false) pre.
Proof.
  assert (H : PROCESSING_CONFIG_MAX_TWEET_LENGTH
              < List.length (message_of Sample.pe (js "website") None
                               (Some Cases.long_message)))
    by (vm_compute; lia).
  split; [exact H|].
  destruct (proj1 (too_long_message Sample.URL_new Sample.pe eq_refl
                     Sample.env
                     (mkTweetOptions Sample.u1 (Some Cases.long_message) None
                        false)
                     Sample.db0 (mkURL (js "example.com") (js "/a"))
                     eq_refl eq_refl (no_success_in_db0 Sample.u1) H)
              eq_refl)
    as (pre & Hrun & Hq & _).
  exists pre. exact (conj Hrun Hq).
Defined.

Lemma process_ends_witness :
  result (process Sample.URL_new Sample.pe Sample.env
            (Sample.tweet_options Sample.u2 false) Sample.db0)
  = Exit InputRejected
  /\ exit_code InputRejected = 1%N.
Proof.
  pose proof (process_ends Sample.URL_new Sample.pe Sample.env
                (Sample.tweet_options Sample.u2 false) Sample.db0) as H.
  change (result (process Sample.URL_new Sample.pe Sample.env
                    (Sample.tweet_options Sample.u2 false) Sample.db0))
    with (@Exit Outcome InputRejected) in H.
  split; [reflexivity|exact (proj2 H)].
Defined.

Lemma dry_run_batch_quiet_witness :
  bopt_dryRun (mkBatchOptions 30 None true) = true
  /\ forall e,
       In e (events (runBatch Sample.URL_new Sample.pe (fun _ => Sample.env)
                       (mkBatchOptions 30 None true)
                       [Sample.u1; Sample.u2; Sample.u3] Sample.db0)) ->
       posting_call e = false /\ (forall ms, e <> EvSleep ms).
Proof.
  split; [reflexivity|].
  exact (dry_run_batch_quiet Sample.URL_new Sample.pe (fun _ => Sample.env)
           (mkBatchOptions 30 None true) [Sample.u1; Sample.u2; Sample.u3]
           Sample.db0 eq_refl).
Defined.

Lemma missing_credentials_witness :
  validateCredentials Cases.pe_unset = false
  /\ tweet_action Sample.URL_new Cases.pe_unset Sample.env
       (Sample.tweet_options Sample.u1 false) (mkDatabase false [])
     = (Exit MissingCredentials, mkDatabase false [],
        [EvSpinnerFail ERROR_MESSAGES_MISSING_CREDENTIALS]).
Proof.
  split; [reflexivity|].
  exact (proj1 (proj2 (missing_credentials Sample.URL_new Cases.pe_unset
                         Sample.env (Sample.tweet_options Sample.u1 false)
                         (mkDatabase false [])) eq_refl)).
Defined.

Lemma nothing_before_verification_witness :
  validateCredentials Cases.pe_unset = false
  /\ forallb before_pipeline
       (events (tweet_action Sample.URL_new Cases.pe_unset Sample.env
                  (Sample.tweet_options Sample.u1 false)
                  (mkDatabase false [])))
     = true.
Proof.
  split; [reflexivity|].
  exact (proj1 (nothing_before_verification Sample.URL_new Cases.pe_unset Sample.env
                  (Sample.tweet_options Sample.u1 false) (mkDatabase false [])
                  (or_introl eq_refl))).
Defined.

Lemma close_only_after_return_witness :
  In EvClose
    (events (tweet_action Sample.URL_new Sample.pe Sample.env
               (Sample.tweet_options Sample.u1 true) (mkDatabase false [])))
  /\ result (tweet_action Sample.URL_new Sample.pe Sample.env
               (Sample.tweet_options Sample.u1 true) (mkDatabase false []))
     = Val DryRunRecorded.
Proof.
  assert (H : In EvClose
                (events (tweet_action Sample.URL_new Sample.pe Sample.env
                           (Sample.tweet_options Sample.u1 true)
                           (mkDatabase false [])))).
  { vm_compute. repeat (try (left; reflexivity); right). }
  split; [exact H|].
  destruct (close_only_after_return Sample.URL_new Sample.pe Sample.env
              (Sample.tweet_options Sample.u1 true) (mkDatabase false []) H)
    as [Hr|(e & He & _)].
  - exact Hr.
  - discriminate He.
Defined.

Lemma deletePost_total_witness :
  collection_set Cases.db_two = true
  /\ exists db' evs,
       deletePost None Sample.u1 Cases.db_two = (Val true, db', evs)
       /\ S (List.length (docs db')) = List.length (docs Cases.db_two).
Proof.
  split; [reflexivity|].
  destruct (deletePost_total None Sample.u1 Cases.db_two eq_refl)
    as (deleted & db' & evs & Hrun & Hiff & _ & Hlen & _).
  assert (Hd : deleted = true) by (apply Hiff; split; reflexivity).
  subst deleted. exists db', evs. exact (conj Hrun (Hlen eq_refl)).
Defined.

Lemma unique_db_two : unique_urls Cases.db_two.
Proof.
  unfold unique_urls. repeat constructor; cbn.
  - intros [H|[]]. discriminate H.
  - intros [].
Defined.

Lemma deletePost_forgets_witness :
  collection_set Cases.db_two = true
  /\ unique_urls Cases.db_two
  /\ result (isPostProcessed Sample.env Sample.u3
               (final_db (deletePost None Sample.u3 Cases.db_two)))
     = Val false
  /\ result (isPostProcessed Sample.env Sample.u3 Cases.db_two) = Val true.
Proof.
  split; [reflexivity|]. split; [exact unique_db_two|]. split.
  - destruct (deletePost_forgets Sample.u3 Cases.db_two eq_refl unique_db_two)
      as (evs & _ & _ & Hcheck & _).
    exact (Hcheck Sample.env).
  - reflexivity.
Defined.

Lemma save_then_delete_witness :
  url_stored Sample.u3 (docs Cases.db_dry) = false
  /\ exists evs,
       (saveProcessedPost Sample.env Sample.posted_doc ;;
        deletePost None (pp_url Sample.posted_doc)) Cases.db_dry
       = (Val true, Cases.db_dry, evs).
Proof.
  split; [reflexivity|].
  exact (save_then_delete Sample.env Sample.posted_doc Cases.db_dry
           eq_refl eq_refl eq_refl).
Defined.


Lemma getStatistics_counters_witness :
  collection_set Cases.db_two = true
  /\ exists st evs,
       getStatistics Cases.windows None Cases.db_two
       = (Val st, Cases.db_two, evs)
       /\ st_successful st + st_failed st <= st_total st
       /\ st_today st <= st_thisWeek st.
Proof.
  split; [reflexivity|].
  destruct (getStatistics_counters Cases.windows None Cases.db_two eq_refl)
    as (st & evs & Hrun & H1 & _ & _ & _ & _ & Hw & _).
  exists st, evs. split; [exact Hrun|]. split; [exact H1|].
  apply Hw. vm_compute. discriminate.
Defined.

Lemma getStatistics_records_witness :
  collection_set Cases.db_two = true
  /\ exists st,
       result (getStatistics Cases.windows None Cases.db_two) = Val st
       /\ list_sum (map snd (st_byPlatform st)) = st_successful st.
Proof.
  split; [reflexivity|].
  destruct (getStatistics_records Cases.windows Cases.db_two eq_refl)
    as (st & Hrun & _ & _ & _ & _ & _ & Hsum & _).
  exists st. split; [exact Hrun|]. apply Hsum.
  intros d [<-|[<-|[]]] _; discriminate.
Defined.


Lemma not_connected_throws_witness :
  collection_set (mkDatabase false []) = false
  /\ deletePost None Sample.u1 (mkDatabase false [])
     = (Throw not_initialized, mkDatabase false [], [])
  /\ result ((close Sample.env ;; isPostProcessed Sample.env Sample.u1)
               Sample.db0)
     = Throw not_initialized.
Proof.
  split; [reflexivity|].
  pose proof (not_connected_throws Sample.env (mkDatabase false []) Sample.u1
                (js "7") (js "https://twitter.com/user/status/7")
                Sample.posted_doc Cases.windows None Cases.cursor
                (js "Error: ") QueryAll 100%Z) as [H _].
  pose proof (not_connected_throws Sample.env Sample.db0 Sample.u1
                (js "7") (js "https://twitter.com/user/status/7")
                Sample.posted_doc Cases.windows None Cases.cursor
                (js "Error: ") QueryAll 100%Z) as [_ H2].
  destruct (H eq_refl) as (_ & _ & _ & _ & Hd & _).
  exact (conj Hd (H2 eq_refl)).
Defined.

Lemma searchTweets_collects_witness :
  searchTweets (fun _ _ => inl (Error (js "Service Unavailable")))
    (js "suremark") (@None Z) Sample.db0
  = (Val (@mkSearchResult nat false None (Some (js "Service Unavailable"))),
     Sample.db0,
     [EvLog LError (js "Error searching tweets: Service Unavailable")])
  /\ searchTweets Cases.search (js "suremark") (Some 2%Z) Sample.db0
     = (Val (mkSearchResult true (Some [1; 2]) None), Sample.db0, [])
  /\ searchTweets Cases.search (js "suremark") (Some 0%Z) Sample.db0
     = (Val (mkSearchResult true (Some [1]) None), Sample.db0, [])
  /\ searchTweets Cases.search (js "suremark") (Some 5%Z) Sample.db0
     = (Val (mkSearchResult false None (Some (js "Too Many Requests"))),
        Sample.db0,
        [EvLog LError (js "Error searching tweets: Too Many Requests")]).
Proof.
  split; [|split; [|split]].
  - exact (proj1 (proj2
             (searchTweets_collects nat
                (fun _ _ => inl (Error (js "Service Unavailable")))
                (js "suremark") None Sample.db0))
             (Error (js "Service Unavailable")) eq_refl).
  - apply (proj1 (proj2 (proj2
             (searchTweets_collects nat Cases.search (js "suremark")
                (Some 2%Z) Sample.db0))
             (mkPaginator [1; 2; 3] (Some (Error (js "Too Many Requests"))))
             eq_refl)).
    vm_compute; lia.
  - apply (proj1 (proj2 (proj2
             (searchTweets_collects nat Cases.search (js "suremark")
                (Some 0%Z) Sample.db0))
             (mkPaginator [1; 2; 3] (Some (Error (js "Too Many Requests"))))
             eq_refl)).
    vm_compute; lia.
  - apply (proj2 (proj2 (proj2 (proj2
             (searchTweets_collects nat Cases.search (js "suremark")
                (Some 5%Z) Sample.db0))
             (mkPaginator [1; 2; 3] (Some (Error (js "Too Many Requests"))))
             eq_refl))
             (Error (js "Too Many Requests"))).
    + vm_compute; lia.
    + reflexivity.
Defined.

Lemma title_bound_witness :
  eqb (js "youtube") (js "instagram") = false
  /\ exists ex evs,
       extractContent Sample.URL_new Sample.env_instagram Sample.u_instagram
         (js "youtube") Sample.db0
       = (Val ex, Sample.db0, evs)
       /\ forall t, ex_title ex = Some t ->
                    List.length t <= CONTENT_CONFIG_DEFAULT_TITLE_LENGTH.
Proof.
  split; [reflexivity|].
  exact (title_bound Sample.URL_new Sample.env_instagram Sample.u_instagram
           (js "youtube") Sample.db0 eq_refl).
Defined.

Lemma batch_pause_after_failure_witness :
  postTweet Sample.env_rate_limited (js "Verified") None Sample.db0
  = (Val rate_limit_result, Sample.db0,
     [EvApiTweet (js "Verified") None;
      EvLog LWarn (js "Rate limit exceeded")])
  /\ events (batch_publish Sample.env_rate_limited
               (mkBatchOptions 30 None false) 1
               Sample.u1 Sample.u1 (js "website")
               (post_data Sample.u1 (js "website")
                  (website_placeholder Sample.env_rate_limited) None)
               (js "Verified") (mkCounts 0 0 0) Sample.db0)
     = [EvApiTweet (js "Verified") None;
        EvLog LWarn (js "Rate limit exceeded");
        EvLog LError (js "Failed to tweet for " ++ Sample.u1 ++ js ": "
                      ++ ERROR_MESSAGES_RATE_LIMIT);
        EvSleep 30000].
Proof.
  split; [reflexivity|].
  rewrite (batch_pause_after_failure Sample.env_rate_limited
             (mkBatchOptions 30 None false) 1
             Sample.u1 Sample.u1 (js "website")
             (post_data Sample.u1 (js "website")
                (website_placeholder Sample.env_rate_limited) None)
             (js "Verified") (mkCounts 0 0 0) Sample.db0
             rate_limit_result
             [EvApiTweet (js "Verified") None;
              EvLog LWarn (js "Rate limit exceeded")]
             eq_refl eq_refl eq_refl).
  reflexivity.
Defined.
